(** * MindFlow: the conversation tree, its layout and its streaming updates

    A shallow embedding of the node store ([src/stores/chatStore.ts]), the
    layout engine ([src/utils/layoutUtils.ts]), the send and branch handlers
    of the chat-node component ([src/components/ChatNode/index.tsx]), the
    streaming loops of the model providers ([src/services/ai.ts]) and the
    session and model-configuration tables of the server
    ([server/database.ts], served by [server/index.ts]).

    Conventions of the embedding:
    - a JavaScript string is a [string] that holds the text in UTF-8, one
      [ascii] for one byte, as the literals of this file hold theirs; the
      texts that come from outside (typed by the user, sent by a provider,
      read from the database) are well formed, that is, no surrogate
      stands alone in them, so that two texts are equal when their bytes
      are and [+:+] joins them; [.length], [.slice] and [.trim] count, cut
      and test the UTF-16 code units and the characters the bytes stand
      for ([JS.length], [JS.slice0], [JS.slice_from], [JS.trim]);
    - a JavaScript number that holds an integer is a [Z];
    - [T | null] and an optional field [f?: T] are [option T];
    - a [Record<string, T>] is a [gmap string T];
    - [Date.now()] is a parameter [now] of the operation that reads it;
    - the REST collaborator [sessionAPI] is a log of the calls made to it,
      and an oracle [api_ok] says which of the calls succeed. *)

From Stdlib Require Import ZArith QArith Lia Ascii String List.
From stdpp Require Import base option numbers list gmap strings pretty.

Set Warnings "-register-all".

Local Open Scope Z_scope.

(** ** JavaScript values *)

Module JS.

(** Truthiness of a string: only the empty string is falsy. *)
Definition truthy (s : string) : bool :=
  match s with
  | EmptyString => false
  | String _ _ => true
  end.

(** Truthiness of [string | null | undefined]. *)
Definition truthy_opt (o : option string) : bool :=
  match o with
  | Some s => truthy s
  | None => false
  end.

(** [a || b] on strings, with [a : string | null]. *)
Definition or_else (a : option string) (b : string) : string :=
  match a with
  | Some s => if truthy s then s else b
  | None => b
  end.

Definition newline : ascii := ascii_of_nat 10.
Definition backtick : ascii := ascii_of_nat 96.

Definition nl : string := String newline EmptyString.

(** [text.split('\n')]: a text with k line feeds has k + 1 lines. *)
Fixpoint split_lines (s : string) : list string :=
  match s with
  | EmptyString => [EmptyString]
  | String c rest =>
      if Ascii.eqb c newline then EmptyString :: split_lines rest
      else match split_lines rest with
           | [] => [String c EmptyString]
           | l :: ls => String c l :: ls
           end
  end.

(** *** Texts

    A text is held in UTF-8, one [ascii] for one byte, which is how the
    literals of this file are written.  A byte below 128 is a character of
    its own, a byte from 128 to 191 continues the character begun before
    it, and any other byte begins a character.  A character takes one
    UTF-16 code unit, or two when it is outside the basic plane, which is
    when its first byte is 240 or more. *)

Definition is_continuation (c : ascii) : bool :=
  let n := nat_of_ascii c in (128 <=? n)%nat && (n <? 192)%nat.

Definition begins_pair (c : ascii) : bool := (240 <=? nat_of_ascii c)%nat.

(** The code units a byte adds to the length of its text. *)
Definition units (c : ascii) : Z :=
  if is_continuation c then 0 else if begins_pair c then 2 else 1.

(** [s.length]. *)
Fixpoint length (s : string) : Z :=
  match s with
  | EmptyString => 0
  | String c rest => units c + length rest
  end.

(** The bytes of a surrogate that stands alone, as [s.slice] leaves one
    when it cuts a pair: the surrogate is [0xD800 + 64 * hi + lo], with
    [hi < 32] and [lo < 64]. *)
Definition surrogate (hi lo : nat) : string :=
  String (ascii_of_nat 237)
    (String (ascii_of_nat (160 + hi))
       (String (ascii_of_nat (128 + lo)) EmptyString)).

(** The first code unit of the character of four bytes that begins with
    [c] and goes on in [rest]. *)
Definition high_surrogate (c : ascii) (rest : string) : string :=
  match rest with
  | String b2 (String b3 _) =>
      let w := (nat_of_ascii c mod 8 * 256 + nat_of_ascii b2 mod 64 * 4
                + nat_of_ascii b3 mod 64 / 16 - 64)%nat in
      surrogate ((w / 64) mod 16) (w mod 64)
  | _ => EmptyString
  end.

(** Its second code unit. *)
Definition low_surrogate (rest : string) : string :=
  match rest with
  | String _ (String b3 (String b4 _)) =>
      surrogate (16 + nat_of_ascii b3 mod 16) (nat_of_ascii b4 mod 64)
  | _ => EmptyString
  end.

(** [s.slice(0, n)]: the first [n] code units. *)
Fixpoint slice0 (n : nat) (s : string) : string :=
  match s with
  | EmptyString => EmptyString
  | String c rest =>
      if is_continuation c then String c (slice0 n rest)
      else
        match n with
        | O => EmptyString
        | S n' =>
            if begins_pair c then
              match n' with
              | O => high_surrogate c rest
              | S n'' => String c (slice0 n'' rest)
              end
            else String c (slice0 n' rest)
        end
  end.

(** The text from its next character on. *)
Fixpoint next_character (s : string) : string :=
  match s with
  | EmptyString => EmptyString
  | String c rest => if is_continuation c then next_character rest else s
  end.

(** [s.slice(n)]: the text without its first [n] code units. *)
Fixpoint slice_from (n : nat) (s : string) : string :=
  match n with
  | O => s
  | S n' =>
      match s with
      | EmptyString => EmptyString
      | String c rest =>
          if begins_pair c then
            match n' with
            | O => low_surrogate rest +:+ next_character rest
            | S n'' => slice_from n'' (next_character rest)
            end
          else slice_from n' (next_character rest)
      end
  end.

(** The bytes of the character with the code point [cp], in the basic
    plane. *)
Definition utf8 (cp : N) : string :=
  if (cp <? 0x80)%N then String (ascii_of_N cp) EmptyString
  else if (cp <? 0x800)%N then
    String (ascii_of_N (0xC0 + cp / 0x40))
      (String (ascii_of_N (0x80 + cp mod 0x40)) EmptyString)
  else
    String (ascii_of_N (0xE0 + cp / 0x1000))
      (String (ascii_of_N (0x80 + (cp / 0x40) mod 0x40))
         (String (ascii_of_N (0x80 + cp mod 0x40)) EmptyString)).

(** The characters [String.prototype.trim] removes, which are the white
    space and the line terminators of ECMAScript: U+0009 to U+000D, U+0020,
    U+00A0, U+1680, U+2000 to U+200A, U+2028, U+2029, U+202F, U+205F,
    U+3000 and U+FEFF. *)
Definition white_space : list string :=
  map utf8
    [0x9; 0xA; 0xB; 0xC; 0xD; 0x20; 0xA0; 0x1680;
     0x2000; 0x2001; 0x2002; 0x2003; 0x2004; 0x2005; 0x2006; 0x2007;
     0x2008; 0x2009; 0x200A; 0x2028; 0x2029; 0x202F; 0x205F; 0x3000;
     0xFEFF]%N.

(** The rest of [s] behind [p], when [s] begins with [p]. *)
Fixpoint behind (p s : string) : option string :=
  match p with
  | EmptyString => Some s
  | String a p' =>
      match s with
      | EmptyString => None
      | String b s' => if Ascii.eqb a b then behind p' s' else None
      end
  end.

(** The rest of [s] behind its first character, when that is one
    [trim] removes. *)
Definition behind_space (s : string) : option string :=
  head (omap (fun p => behind p s) white_space).

Fixpoint trim_start_from (fuel : nat) (s : string) : string :=
  match fuel with
  | O => s
  | S fuel' =>
      match behind_space s with
      | Some rest => trim_start_from fuel' rest
      | None => s
      end
  end.

(** [s.trimStart()].  Every character removed is a byte at least, so the
    number of bytes is fuel enough. *)
Definition trim_start (s : string) : string :=
  trim_start_from (String.length s) s.

(** [s.trimEnd()]: [s] up to the first place from which it is white space
    to its end. *)
Fixpoint trim_end (s : string) : string :=
  match s with
  | EmptyString => EmptyString
  | String c rest =>
      if truthy (trim_start s) then String c (trim_end rest) else EmptyString
  end.

(** [s.trim()]. *)
Definition trim (s : string) : string := trim_start (trim_end s).

(** [line.trim() === '']. *)
Definition trim_is_empty (s : string) : bool := negb (truthy (trim s)).

(** [line.startsWith(p)]: a text begins with another when its bytes do. *)
Definition startsWith (p s : string) : bool := String.prefix p s.

(** [Math.ceil(n / d)] for a non-negative integer n and a positive d. *)
Definition ceil_div (n d : Z) : Z := (n + d - 1) / d.

(** The scanner behind [text.match(/```[\s\S]*?```/g)].  Outside a block
    it looks for the first run of three backticks; inside it extends the
    block up to the next run of three.  [run] counts the backticks just
    read (0, 1 or 2), [block] is the matched text so far, in reverse. *)
Inductive scan_state : Type :=
  | Outside (run : nat)
  | Inside (run : nat) (block : list ascii).

Fixpoint scan_blocks (st : scan_state) (s : string) : list string :=
  match s with
  | EmptyString => []
  | String c rest =>
      match st with
      | Outside run =>
          if Ascii.eqb c backtick then
            if (run =? 2)%nat
            then scan_blocks (Inside 0 [backtick; backtick; backtick]) rest
            else scan_blocks (Outside (S run)) rest
          else scan_blocks (Outside 0) rest
      | Inside run block =>
          if Ascii.eqb c backtick then
            if (run =? 2)%nat
            then string_of_list_ascii (rev (c :: block))
                 :: scan_blocks (Outside 0) rest
            else scan_blocks (Inside (S run) (c :: block)) rest
          else scan_blocks (Inside 0 (c :: block)) rest
      end
  end.

(** [text.match(/```[\s\S]*?```/g) || []]. *)
Definition code_blocks (text : string) : list string :=
  scan_blocks (Outside 0) text.

(** Template literal [`${prefix}${n}`] with a number. *)
Definition with_number (prefix : string) (n : Z) : string :=
  prefix +:+ pretty n.

End JS.

(** ** Data model ([src/types/index.ts]) *)

Inductive SourceType : Type := source_user | source_assistant.

Record QuotedContent : Type := mkQuotedContent {
  q_text : string;
  q_nodeId : string;
  q_sourceType : SourceType;
  q_fullContext : option string;
}.

Inductive NodeType : Type :=
  | user | assistant | system | input | loading | conversation.

Record Position : Type := mkPosition { px : Z; py : Z }.

Record ChatNode : Type := mkChatNode {
  n_id : string;
  n_type : NodeType;
  n_content : string;
  n_parentId : option string;
  n_children : list string;
  n_model : string;
  n_timestamp : Z;
  n_position : Position;
  n_userMessage : option string;
  n_assistantMessage : option string;
  n_thinkingContent : option string;
  n_quotedContent : option QuotedContent;
}.

Record ChatSession : Type := mkChatSession {
  s_id : string;
  s_title : string;
  s_nodes : gmap string ChatNode;
  s_rootNodeId : string;
  s_createdAt : Z;
  s_updatedAt : Z;
  s_defaultModelId : option string;
}.

Inductive Provider : Type :=
  | openai | anthropic | deepseek | local | custom.

Record ModelConfig : Type := mkModelConfig {
  mc_id : string;
  mc_name : string;
  mc_provider : Provider;
  mc_model : string;
  mc_apiKey : option string;
  mc_baseURL : option string;
  mc_temperature : Q;
  mc_maxTokens : Z;
  mc_isDefault : option bool;
  mc_createdAt : Z;
}.

(** [AIMessage]: the role is the node's [type] string, passed on unchecked. *)
Record AIMessage : Type := mkAIMessage {
  role : NodeType;
  content : string;
}.

#[global] Instance NodeType_eq_dec : EqDecision NodeType.
Proof. solve_decision. Defined.

#[global] Instance Position_eq_dec : EqDecision Position.
Proof. solve_decision. Defined.

(** ** Layout engine ([src/utils/layoutUtils.ts]) *)

Module Layout.

(** The height one line adds in [estimateContentHeight]. *)
Definition line_height (line : string) : Z :=
  if JS.trim_is_empty line then 24
  else if JS.startsWith "#" line then 36
  else if JS.startsWith "```" line then 0
  else JS.ceil_div (JS.length line) 60 * 24.

(** The height one fenced block adds. *)
Definition block_height (block : string) : Z :=
  Z.of_nat (List.length (JS.split_lines block)) * 20 + 32.

Definition sumZ (l : list Z) : Z := fold_left Z.add l 0.

Definition estimateContentHeight (text : string) : Z :=
  if negb (JS.truthy text) then 0
  else
    let totalHeight := fold_left (fun h line => h + line_height line)
                                 (JS.split_lines text) 0 in
    fold_left (fun h block => h + block_height block)
              (JS.code_blocks text) totalHeight.

Definition estimateNodeHeight (node : ChatNode) : Z :=
  match n_type node with
  | conversation =>
      let userHeight := estimateContentHeight (default "" (n_userMessage node)) in
      let assistantHeight :=
        estimateContentHeight (default "" (n_assistantMessage node)) in
      let thinkingHeight :=
        if JS.truthy_opt (n_thinkingContent node) then 60 else 0 in
      120 + userHeight + assistantHeight + thinkingHeight + 100
  | input => 300
  | _ => 200
  end.

Inductive LayoutNode : Type := mkLayoutNode {
  ln_id : string;
  ln_node : ChatNode;
  ln_children : list LayoutNode;
  ln_depth : Z;
  ln_x : Z;
  ln_y : Z;
  ln_width : Z;
  ln_height : Z;
}.

(** [buildTree].  The recursion follows the child ids through the node map,
    so it is bounded by [fuel]; [None] stands for a call that does not
    return: the [TypeError] on a root id absent from the map, or the
    unbounded recursion on a cyclic map. *)
Fixpoint buildTree (fuel : nat) (nodes : gmap string ChatNode)
    (rootId : string) : option LayoutNode :=
  match fuel with
  | O => None
  | S fuel' =>
      match nodes !! rootId with
      | None => None
      | Some node =>
          match mapM (buildTree fuel' nodes)
                     (filter (fun childId => is_Some (nodes !! childId))
                             (n_children node)) with
          | None => None
          | Some children =>
              Some {| ln_id := n_id node; ln_node := node;
                      ln_children := children; ln_depth := 0;
                      ln_x := 0; ln_y := 0; ln_width := 600;
                      ln_height := estimateNodeHeight node |}
          end
      end
  end.

Fixpoint calculateSubtreeWidth (layoutNode : LayoutNode)
    (horizontalSpacing : Z) : Z :=
  match ln_children layoutNode with
  | [] => ln_width layoutNode
  | _ :: _ =>
      let childrenWidth :=
        (fix sum (cs : list LayoutNode) (acc : Z) : Z :=
           match cs with
           | [] => acc
           | child :: cs' =>
               sum cs' (acc + calculateSubtreeWidth child horizontalSpacing)
           end) (ln_children layoutNode) 0 in
      let spacingWidth :=
        (Z.of_nat (List.length (ln_children layoutNode)) - 1)
        * horizontalSpacing in
      Z.max (ln_width layoutNode) (childrenWidth + spacingWidth)
  end.

(** [layoutTree] assigns [depth], [x] and [y] in place; here it returns the
    placed copy of the tree.  The inner loop is the [forEach] over the
    children, with the running [currentX]. *)
Fixpoint layoutTree (layoutNode : LayoutNode) (x y depth : Z)
    (horizontalSpacing verticalSpacing : Z) : LayoutNode :=
  let childWidths :=
    map (fun child => calculateSubtreeWidth child horizontalSpacing)
        (ln_children layoutNode) in
  let totalWidth :=
    sumZ childWidths
    + (Z.of_nat (List.length (ln_children layoutNode)) - 1)
      * horizontalSpacing in
  let placed :=
    (fix each (cs : list LayoutNode) (currentX : Z) : list LayoutNode :=
       match cs with
       | [] => []
       | child :: cs' =>
           let childWidth := calculateSubtreeWidth child horizontalSpacing in
           let childCenterX := currentX + childWidth / 2 in
           let childY := y + ln_height layoutNode + verticalSpacing in
           layoutTree child childCenterX childY (depth + 1)
                      horizontalSpacing verticalSpacing
           :: each cs' (currentX + childWidth + horizontalSpacing)
       end) (ln_children layoutNode) (x - totalWidth / 2) in
  {| ln_id := ln_id layoutNode; ln_node := ln_node layoutNode;
     ln_children := placed; ln_depth := depth; ln_x := x; ln_y := y;
     ln_width := ln_width layoutNode; ln_height := ln_height layoutNode |}.

(** [collectPositions]: a later write to the same id replaces an earlier one. *)
Fixpoint collectPositions (layoutNode : LayoutNode)
    (positions : gmap string Position) : gmap string Position :=
  (fix each (cs : list LayoutNode) (acc : gmap string Position) :=
     match cs with
     | [] => acc
     | child :: cs' => each cs' (collectPositions child acc)
     end)
    (ln_children layoutNode)
    (<[ln_id layoutNode := {| px := ln_x layoutNode; py := ln_y layoutNode |}]>
       positions).

Record Options : Type := mkOptions {
  horizontalSpacing : option Z;
  verticalSpacing : option Z;
}.

Definition no_options : Options :=
  {| horizontalSpacing := None; verticalSpacing := None |}.

Definition autoLayout (fuel : nat) (nodes : gmap string ChatNode)
    (rootId : string) (options : Options)
    : option (gmap string Position) :=
  let hs := default 100 (horizontalSpacing options) in
  let vs := default 80 (verticalSpacing options) in
  match buildTree fuel nodes rootId with
  | None => None
  | Some tree =>
      let tree' := layoutTree tree 300 50 0 hs vs in
      Some (collectPositions tree' ∅)
  end.

End Layout.

(** ** Node store and session coordinator ([src/stores/chatStore.ts])

    Each operation of the store is a function on [World].  An operation
    that awaits [sessionAPI] appends the call to the log, and the oracle
    [api_ok] tells whether the call succeeds; a failed call is caught by
    the operation and only logged to the console. *)

(** [Partial<ChatNode>]: the fields an update carries.  An optional field
    can be set to [undefined], which is [Some None]. *)
Record NodeUpdates : Type := mkNodeUpdates {
  u_id : option string;
  u_type : option NodeType;
  u_content : option string;
  u_parentId : option (option string);
  u_children : option (list string);
  u_model : option string;
  u_timestamp : option Z;
  u_position : option Position;
  u_userMessage : option (option string);
  u_assistantMessage : option (option string);
  u_thinkingContent : option (option string);
  u_quotedContent : option (option QuotedContent);
}.

(** [{ ...node, ...updates }]. *)
Definition spread (node : ChatNode) (updates : NodeUpdates) : ChatNode :=
  {| n_id := default (n_id node) (u_id updates);
     n_type := default (n_type node) (u_type updates);
     n_content := default (n_content node) (u_content updates);
     n_parentId := default (n_parentId node) (u_parentId updates);
     n_children := default (n_children node) (u_children updates);
     n_model := default (n_model node) (u_model updates);
     n_timestamp := default (n_timestamp node) (u_timestamp updates);
     n_position := default (n_position node) (u_position updates);
     n_userMessage := default (n_userMessage node) (u_userMessage updates);
     n_assistantMessage :=
       default (n_assistantMessage node) (u_assistantMessage updates);
     n_thinkingContent :=
       default (n_thinkingContent node) (u_thinkingContent updates);
     n_quotedContent :=
       default (n_quotedContent node) (u_quotedContent updates) |}.

(** [{ ...node, children }]. *)
Definition with_children (node : ChatNode) (children : list string) : ChatNode :=
  spread node
    (mkNodeUpdates None None None None (Some children) None None None
                   None None None None).

(** [{ ...node, position }]. *)
Definition with_position (node : ChatNode) (position : Position) : ChatNode :=
  spread node
    (mkNodeUpdates None None None None None None None (Some position)
                   None None None None).

(** [{ ...node, type, content }]. *)
Definition with_type_content (node : ChatNode) (type : NodeType)
    (text : string) : ChatNode :=
  spread node
    (mkNodeUpdates None (Some type) (Some text) None None None None None
                   None None None None).

(** [{ ...session, nodes, updatedAt }]. *)
Definition with_nodes (session : ChatSession) (nodes : gmap string ChatNode)
    (now : Z) : ChatSession :=
  {| s_id := s_id session; s_title := s_title session; s_nodes := nodes;
     s_rootNodeId := s_rootNodeId session; s_createdAt := s_createdAt session;
     s_updatedAt := now; s_defaultModelId := s_defaultModelId session |}.

(** [{ ...session, title, updatedAt }]. *)
Definition with_title (session : ChatSession) (title : string) (now : Z)
    : ChatSession :=
  {| s_id := s_id session; s_title := title; s_nodes := s_nodes session;
     s_rootNodeId := s_rootNodeId session; s_createdAt := s_createdAt session;
     s_updatedAt := now; s_defaultModelId := s_defaultModelId session |}.

(** [{ ...session, defaultModelId: modelId, updatedAt }]. *)
Definition with_defaultModelId (session : ChatSession) (modelId : string)
    (now : Z) : ChatSession :=
  {| s_id := s_id session; s_title := s_title session;
     s_nodes := s_nodes session; s_rootNodeId := s_rootNodeId session;
     s_createdAt := s_createdAt session; s_updatedAt := now;
     s_defaultModelId := Some modelId |}.

Record ChatStore : Type := mkChatStore {
  sessions : gmap string ChatSession;
  currentSessionId : option string;
  currentSession : option ChatSession;
  selectedNodeId : option string;
  quotedContent : option QuotedContent;
  isLoading : bool;
}.

(** The calls received by the persistence collaborator [sessionAPI]. *)
Inductive ApiCall : Type :=
  | api_createSession (session : ChatSession)
  | api_updateSession (session : ChatSession)
  | api_deleteSession (id : string).

(** The store together with what its collaborators have seen: the calls to
    [sessionAPI], in order, the message lists handed to [sendAIMessage],
    and the texts shown with [alert]. *)
Record World : Type := mkWorld {
  store : ChatStore;
  api_log : list ApiCall;
  ai_log : list (list AIMessage);
  alerts : list string;
}.

Definition initial_store : ChatStore :=
  {| sessions := ∅; currentSessionId := None; currentSession := None;
     selectedNodeId := None; quotedContent := None; isLoading := false |}.

Definition initial_world : World :=
  {| store := initial_store; api_log := []; ai_log := []; alerts := [] |}.

Definition with_store (w : World) (st : ChatStore) : World :=
  {| store := st; api_log := api_log w; ai_log := ai_log w;
     alerts := alerts w |}.

Definition with_alert (w : World) (message : string) : World :=
  {| store := store w; api_log := api_log w; ai_log := ai_log w;
     alerts := alerts w ++ [message] |}.

Definition with_request (w : World) (messages : list AIMessage) : World :=
  {| store := store w; api_log := api_log w;
     ai_log := ai_log w ++ [messages]; alerts := alerts w |}.

(** [set({ sessions, currentSession })]. *)
Definition set_sessions (st : ChatStore) (ss : gmap string ChatSession)
    (cur : option ChatSession) : ChatStore :=
  {| sessions := ss; currentSessionId := currentSessionId st;
     currentSession := cur; selectedNodeId := selectedNodeId st;
     quotedContent := quotedContent st; isLoading := isLoading st |}.

(** [set({ selectedNodeId })]. *)
Definition set_selected (st : ChatStore) (sel : option string) : ChatStore :=
  {| sessions := sessions st; currentSessionId := currentSessionId st;
     currentSession := currentSession st; selectedNodeId := sel;
     quotedContent := quotedContent st; isLoading := isLoading st |}.

(** The current session and its id, when neither is falsy: the guard
    [if (!currentSession || !currentSessionId) return]. *)
Definition current (st : ChatStore) : option (string * ChatSession) :=
  match currentSession st, currentSessionId st with
  | Some session, Some sid =>
      if JS.truthy sid then Some (sid, session) else None
  | _, _ => None
  end.

Module Store.

(** The helper [deleteChildren] of [deleteNode]: it removes the children of
    [id], and their descendants, from the working copy [updatedNodes]; the
    node [id] itself is left to the caller.  The recursion follows child
    ids through the map, so it is bounded by [fuel]: [None] is a call that
    does not return. *)
Fixpoint deleteChildren (fuel : nat) (id : string)
    (updatedNodes : gmap string ChatNode) : option (gmap string ChatNode) :=
  match fuel with
  | O => None
  | S fuel' =>
      match updatedNodes !! id with
      | Some node =>
          (fix each (cs : list string) (acc : gmap string ChatNode) :=
             match cs with
             | [] => Some acc
             | childId :: cs' =>
                 match deleteChildren fuel' childId acc with
                 | None => None
                 | Some acc' => each cs' (delete childId acc')
                 end
             end) (n_children node) updatedNodes
      | None => Some updatedNodes
      end
  end.

(** [nodeToDelete.children.forEach(childId => deleteChildren(childId))]. *)
Fixpoint deleteChildren_each (fuel : nat) (cs : list string)
    (updatedNodes : gmap string ChatNode) : option (gmap string ChatNode) :=
  match cs with
  | [] => Some updatedNodes
  | childId :: cs' =>
      match deleteChildren fuel childId updatedNodes with
      | None => None
      | Some acc => deleteChildren_each fuel cs' acc
      end
  end.

(** The node map [deleteNode] builds before it saves. *)
Definition deleteNode_nodes (fuel : nat) (nodes : gmap string ChatNode)
    (nodeId : string) (nodeToDelete : ChatNode)
    : option (gmap string ChatNode) :=
  let updatedNodes := nodes in
  let updatedNodes :=
    match n_parentId nodeToDelete with
    | Some parentId =>
        if JS.truthy parentId then
          match updatedNodes !! parentId with
          | Some parent =>
              <[parentId :=
                  with_children parent
                    (filter (fun id => id ≠ nodeId) (n_children parent))]>
                updatedNodes
          | None => updatedNodes
          end
        else updatedNodes
    | None => updatedNodes
    end in
  let updatedNodes := delete nodeId updatedNodes in
  deleteChildren_each fuel (n_children nodeToDelete) updatedNodes.

(** The node map [addNode] builds before it saves. *)
Definition addNode_nodes (nodes : gmap string ChatNode) (node : ChatNode)
    : gmap string ChatNode :=
  let updatedNodes := <[n_id node := node]> nodes in
  match n_parentId node with
  | Some parentId =>
      if JS.truthy parentId then
        match updatedNodes !! parentId with
        | Some parent =>
            <[parentId :=
                with_children parent (n_children parent ++ [n_id node])]>
              updatedNodes
        | None => updatedNodes
        end
      else updatedNodes
  | None => updatedNodes
  end.

(** One turn of the loop of [getConversationPath]: what the node puts in
    front of the path. *)
Definition path_entries (node : ChatNode) : list ChatNode :=
  match n_type node, n_userMessage node, n_assistantMessage node with
  | conversation, Some userMessage, Some assistantMessage =>
      if JS.truthy userMessage && JS.truthy assistantMessage then
        let userNode := with_type_content node user userMessage in
        let assistantNode := with_type_content node assistant assistantMessage in
        (* path.unshift(userNode); path.unshift(assistantNode) *)
        [assistantNode; userNode]
      else [node]
  | system, _, _ => []
  | input, _, _ => []
  | _, _, _ => [node]
  end.

(** The [while (currentId)] loop; [fuel] bounds the number of turns. *)
Fixpoint path_walk (fuel : nat) (nodes : gmap string ChatNode)
    (currentId : option string) (path : list ChatNode)
    : option (list ChatNode) :=
  match fuel with
  | O => None
  | S fuel' =>
      match currentId with
      | Some id =>
          if JS.truthy id then
            match nodes !! id with
            | None => Some path
            | Some node =>
                path_walk fuel' nodes (n_parentId node)
                          (path_entries node ++ path)
            end
          else Some path
      | None => Some path
      end
  end.

Definition is_turn (node : ChatNode) : bool :=
  match n_type node with
  | user | assistant => true
  | _ => false
  end.

Definition getConversationPath (fuel : nat) (st : ChatStore)
    : option (list ChatNode) :=
  match currentSession st, selectedNodeId st with
  | Some session, Some selected =>
      if JS.truthy selected then
        match path_walk fuel (s_nodes session) (Some selected) [] with
        | Some path => Some (List.filter is_turn path)
        | None => None
        end
      else Some []
  | _, _ => Some []
  end.

(** [selectNode]. *)
Definition selectNode (nodeId : string) (w : World) : World :=
  with_store w (set_selected (store w) (Some nodeId)).

(** [setQuotedContent]. *)
Definition setQuotedContent (quoted : option QuotedContent) (w : World) : World :=
  let st := store w in
  with_store w
    {| sessions := sessions st; currentSessionId := currentSessionId st;
       currentSession := currentSession st; selectedNodeId := selectedNodeId st;
       quotedContent := quoted; isLoading := isLoading st |}.

(** [switchSession]. *)
Definition switchSession (sessionId : string) (w : World) : World :=
  let st := store w in
  match sessions st !! sessionId with
  | Some session =>
      with_store w
        {| sessions := sessions st; currentSessionId := Some sessionId;
           currentSession := Some session;
           selectedNodeId := Some (s_rootNodeId session);
           quotedContent := None; isLoading := isLoading st |}
  | None => w
  end.

Section Operations.

(** [api_ok k] tells whether the call number [k] to [sessionAPI] succeeds. *)
Variable api_ok : nat -> bool.

(** A call to [sessionAPI]: it is logged, and the oracle gives its outcome. *)
Definition call (w : World) (c : ApiCall) : World * bool :=
  ({| store := store w; api_log := api_log w ++ [c]; ai_log := ai_log w;
      alerts := alerts w |},
   api_ok (List.length (api_log w))).

(** [createSession]. *)
Definition createSession (defaultModelConfig : option ModelConfig) (now : Z)
    (w : World) : World :=
  let rootNode :=
    {| n_id := "root"; n_type := input; n_content := ""; n_parentId := None;
       n_children := []; n_model := ""; n_timestamp := now;
       n_position := {| px := 250; py := 50 |};
       n_userMessage := None; n_assistantMessage := None;
       n_thinkingContent := None; n_quotedContent := None |} in
  let sessionId := JS.with_number "session-" now in
  let session :=
    {| s_id := sessionId; s_title := "新对话";
       s_nodes := {["root" := rootNode]}; s_rootNodeId := "root";
       s_createdAt := now; s_updatedAt := now;
       s_defaultModelId := mc_id <$> defaultModelConfig |} in
  let '(w1, ok) := call w (api_createSession session) in
  if ok then
    let st := store w1 in
    with_store w1
      {| sessions := <[sessionId := session]> (sessions st);
         currentSessionId := Some sessionId; currentSession := Some session;
         selectedNodeId := Some "root";
         quotedContent := quotedContent st; isLoading := isLoading st |}
  else w1.

(** [updateSessionTitle]. *)
Definition updateSessionTitle (sessionId title : string) (now : Z)
    (w : World) : World :=
  let st := store w in
  match sessions st !! sessionId with
  | Some session =>
      let updatedSession := with_title session title now in
      let '(w1, ok) := call w (api_updateSession updatedSession) in
      if ok then
        let newSessions := <[sessionId := updatedSession]> (sessions st) in
        with_store w1
          (set_sessions (store w1) newSessions
             (if decide (currentSessionId st = Some sessionId)
              then Some updatedSession else currentSession (store w1)))
      else w1
  | None => w
  end.

(** [addNode] up to its [await]: the session it is about to save, with
    the session id and the [sessions] map it has read. *)
Definition addNode_request (st : ChatStore) (node : ChatNode) (now : Z)
    : option (gmap string ChatSession * string * ChatSession) :=
  match current st with
  | None => None
  | Some (sid, session) =>
      Some (sessions st, sid,
            with_nodes session (addNode_nodes (s_nodes session) node) now)
  end.

(** [addNode] after its [await]: the [set] made when the save succeeded. *)
Definition addNode_response (ok : bool)
    (request : gmap string ChatSession * string * ChatSession)
    (st : ChatStore) : ChatStore :=
  let '(snapshot, sid, updatedSession) := request in
  if ok then
    set_sessions st (<[sid := updatedSession]> snapshot) (Some updatedSession)
  else st.

(** [addNode], awaited: the store changes only when the save succeeds. *)
Definition addNode (node : ChatNode) (now : Z) (w : World) : World :=
  match addNode_request (store w) node now with
  | None => w
  | Some request =>
      let '(w1, ok) := call w (api_updateSession (snd request)) in
      with_store w1 (addNode_response ok request (store w1))
  end.

(** [updateNode]: the store changes at once; the save is optional and its
    failure is only logged. *)
Definition updateNode (nodeId : string) (updates : NodeUpdates)
    (saveToDb : bool) (now : Z) (w : World) : World :=
  let st := store w in
  match current st with
  | None => w
  | Some (sid, session) =>
      match s_nodes session !! nodeId with
      | None => w
      | Some node =>
          let updatedNodes := <[nodeId := spread node updates]> (s_nodes session) in
          let updatedSession := with_nodes session updatedNodes now in
          let w1 :=
            with_store w
              (set_sessions st (<[sid := updatedSession]> (sessions st))
                            (Some updatedSession)) in
          if saveToDb then fst (call w1 (api_updateSession updatedSession))
          else w1
      end
  end.

(** [deleteNode]: the store changes only when the save succeeds. *)
Definition deleteNode (fuel : nat) (nodeId : string) (now : Z) (w : World)
    : option World :=
  let st := store w in
  match current st with
  | None => Some w
  | Some (sid, session) =>
      match s_nodes session !! nodeId with
      | None => Some w
      | Some nodeToDelete =>
          match deleteNode_nodes fuel (s_nodes session) nodeId nodeToDelete with
          | None => None
          | Some updatedNodes =>
              let updatedSession := with_nodes session updatedNodes now in
              let '(w1, ok) := call w (api_updateSession updatedSession) in
              Some
                (if ok then
                   with_store w1
                     {| sessions := <[sid := updatedSession]> (sessions st);
                        currentSessionId := currentSessionId st;
                        currentSession := Some updatedSession;
                        selectedNodeId :=
                          Some (JS.or_else (n_parentId nodeToDelete)
                                           (s_rootNodeId session));
                        quotedContent := quotedContent st;
                        isLoading := isLoading st |}
                 else w1)
          end
      end
  end.

(** The loop of [rearrangeNodes] over [Object.keys(newPositions)]: every
    node that has a new position takes it; the keys are distinct, so the
    order of the turns does not matter. *)
Definition apply_positions (nodes : gmap string ChatNode)
    (newPositions : gmap string Position) : gmap string ChatNode :=
  map_imap
    (fun nodeId node =>
       Some (match newPositions !! nodeId with
             | Some position => with_position node position
             | None => node
             end)) nodes.

(** [rearrangeNodes]. *)
Definition rearrangeNodes (fuel : nat) (now : Z) (w : World) : option World :=
  let st := store w in
  match current st with
  | None => Some w
  | Some (sid, session) =>
      match Layout.autoLayout fuel (s_nodes session) (s_rootNodeId session)
                              Layout.no_options with
      | None => None
      | Some newPositions =>
          let updatedSession :=
            with_nodes session (apply_positions (s_nodes session) newPositions)
                       now in
          let '(w1, ok) := call w (api_updateSession updatedSession) in
          Some
            (if ok then
               with_store w1
                 (set_sessions (store w1)
                               (<[sid := updatedSession]> (sessions st))
                               (Some updatedSession))
             else w1)
      end
  end.

(** [updateSessionDefaultModel]. *)
Definition updateSessionDefaultModel (sessionId modelId : string) (now : Z)
    (w : World) : World :=
  let st := store w in
  match sessions st !! sessionId with
  | Some session =>
      let updatedSession := with_defaultModelId session modelId now in
      let '(w1, ok) := call w (api_updateSession updatedSession) in
      if ok then
        let newSessions := <[sessionId := updatedSession]> (sessions st) in
        with_store w1
          (set_sessions (store w1) newSessions
             (if decide (currentSessionId st = Some sessionId)
              then Some updatedSession else currentSession (store w1)))
      else w1
  | None => w
  end.

(** [saveCurrentSession]: the current session is saved as it is. *)
Definition saveCurrentSession (w : World) : World :=
  match current (store w) with
  | None => w
  | Some (_, session) => fst (call w (api_updateSession session))
  end.

(** [deleteSession].  [Object.keys(newSessions)[0]] is the first key of the
    object in the order of insertion, which a [gmap] does not record:
    [first_key] stands for that choice.  A key it names that the map does
    not hold makes the read of [rootNodeId] throw, which the handler
    catches.  [defaultModelConfig] is what [createSession] reads from the
    settings store. *)
Definition deleteSession
    (first_key : gmap string ChatSession -> option string)
    (defaultModelConfig : option ModelConfig)
    (sessionId : string) (now : Z) (w : World) : World :=
  let '(w1, ok) := call w (api_deleteSession sessionId) in
  if ok then
    let st := store w1 in
    let newSessions := delete sessionId (sessions st) in
    if decide (currentSessionId st = Some sessionId) then
      match first_key newSessions with
      | Some nextSessionId =>
          match newSessions !! nextSessionId with
          | Some next =>
              with_store w1
                {| sessions := newSessions;
                   currentSessionId := Some nextSessionId;
                   currentSession := Some next;
                   selectedNodeId := Some (s_rootNodeId next);
                   quotedContent := quotedContent st;
                   isLoading := isLoading st |}
          | None => w1
          end
      | None =>
          createSession defaultModelConfig now
            (with_store w1 (set_sessions st newSessions (currentSession st)))
      end
    else with_store w1 (set_sessions st newSessions (currentSession st))
  else w1.

End Operations.

End Store.

(** ** The send handler of a chat node ([src/components/ChatNode/index.tsx])

    [handleSend] is an asynchronous function.  It is cut at its one long
    [await], the call of [sendAIMessage]: [handleSend_begin] runs up to the
    call, [onChunk] is the callback the transport invokes for each chunk,
    and [handleSend_end] runs from the resolution or rejection of the call
    to the end of the [finally] block.

    - The store is read through [get()] at each store operation; the values
      the component holds from its last render ([node], [currentSession],
      [quotedContent]) are the prop [node] and the store at the start.
    - A save that is not awaited ([updateNode] and [updateSessionTitle] at
      the start) is taken to answer before the next chunk arrives.  The two
      [addNode] calls at the end of a completed stream are not awaited
      either, and both read the store before either answers; their [set]
      calls are applied in the order of the calls.
    - The display state of the component (the input box, the sending and
      thinking flags) is left out. *)

Module ChatNodeComponent.

(** [AIResponse] of [src/services/ai.ts]. *)
Record AIResponse : Type := mkAIResponse {
  r_content : string;
  r_thinkingContent : option string;
}.

(** One call of the [onChunk] callback. *)
Inductive Chunk : Type :=
  | thinking (chunk : string)
  | content_chunk (chunk : string).

(** What a rejected [sendAIMessage] throws: an [Error] with its [name] and
    [message], or some other value. *)
Inductive Thrown : Type :=
  | an_Error (name message : string)
  | not_an_Error.

(** How the awaited [sendAIMessage] ends. *)
Inductive Outcome : Type :=
  | resolved (response : AIResponse)
  | rejected (error : Thrown).

(** The variables [handleSend] lifts out of its [try] block. *)
Record Locals : Type := mkLocals {
  conversationNodeId : string;
  streamedContent : string;
  streamedThinking : string;
  baseY : Z;
  userMessage : string;
}.

(** The values of [Date.now()] at the points where [handleSend] reads it:
    when the message is sent, when the stream has ended, and at each of the
    two places that name a new input node. *)
Record Clock : Type := mkClock {
  at_send : Z;
  at_end : Z;
  at_input : Z;
  at_input_again : Z;
}.

Definition provider_name (p : Provider) : string :=
  match p with
  | openai => "openai"
  | anthropic => "anthropic"
  | deepseek => "deepseek"
  | local => "local"
  | custom => "custom"
  end.

(** [`${modelToUse.provider}:${modelToUse.model}`]. *)
Definition model_label (m : ModelConfig) : string :=
  provider_name (mc_provider m) +:+ ":" +:+ mc_model m.

Definition quotes3 : string :=
  let q := ascii_of_nat 34 in String q (String q (String q EmptyString)).

(** The text of the outgoing user turn, with the quoted context if any. *)
Definition finalUserMessage (quoted : option QuotedContent)
    (userMessage : string) : string :=
  match quoted with
  | None => userMessage
  | Some q =>
      let sourceLabel :=
        match q_sourceType q with
        | source_user => "用户"
        | source_assistant => "AI助手"
        end in
      let whole :=
        match q_fullContext q with
        | Some fullContext =>
            if JS.truthy fullContext && negb (String.eqb fullContext (q_text q))
            then Some fullContext else None
        | None => None
        end in
      match whole with
      | Some fullContext =>
          "[引用上下文]" +:+ JS.nl +:+
          "来源：" +:+ sourceLabel +:+ "的回复" +:+ JS.nl +:+
          "完整内容：" +:+ JS.nl +:+
          quotes3 +:+ JS.nl +:+ fullContext +:+ JS.nl +:+ quotes3 +:+ JS.nl +:+
          JS.nl +:+
          "选中部分：" +:+ JS.nl +:+
          quotes3 +:+ JS.nl +:+ q_text q +:+ JS.nl +:+ quotes3 +:+ JS.nl +:+
          JS.nl +:+
          "[我的问题]" +:+ JS.nl +:+ userMessage
      | None =>
          "[引用内容]" +:+ JS.nl +:+
          "来源：" +:+ sourceLabel +:+ "的回复" +:+ JS.nl +:+
          quotes3 +:+ JS.nl +:+ q_text q +:+ JS.nl +:+ quotes3 +:+ JS.nl +:+
          JS.nl +:+
          "[我的问题]" +:+ JS.nl +:+ userMessage
      end
  end.

(** The mark appended to the text of a stopped generation. *)
Definition stop_mark : string :=
  JS.nl +:+ JS.nl +:+ "---" +:+ JS.nl +:+ "*[生成已停止]*".

(** The updates [handleSend] passes to [updateNode]. *)
Definition to_conversation (userMessage : string)
    (quoted : option QuotedContent) (label : string) (now : Z) : NodeUpdates :=
  {| u_id := None; u_type := Some conversation; u_content := Some userMessage;
     u_parentId := None; u_children := None; u_model := Some label;
     u_timestamp := Some now; u_position := None;
     u_userMessage := Some (Some userMessage);
     u_assistantMessage := Some None; u_thinkingContent := None;
     u_quotedContent := Some quoted |}.

Definition set_thinking (text : string) : NodeUpdates :=
  {| u_id := None; u_type := None; u_content := None; u_parentId := None;
     u_children := None; u_model := None; u_timestamp := None;
     u_position := None; u_userMessage := None; u_assistantMessage := None;
     u_thinkingContent := Some (Some text); u_quotedContent := None |}.

Definition set_assistant (text : string) : NodeUpdates :=
  {| u_id := None; u_type := None; u_content := None; u_parentId := None;
     u_children := None; u_model := None; u_timestamp := None;
     u_position := None; u_userMessage := None;
     u_assistantMessage := Some (Some text);
     u_thinkingContent := None; u_quotedContent := None |}.

Definition set_final (text : string) (thought : option string) (now : Z)
    : NodeUpdates :=
  {| u_id := None; u_type := None; u_content := None; u_parentId := None;
     u_children := None; u_model := None; u_timestamp := Some now;
     u_position := None; u_userMessage := None;
     u_assistantMessage := Some (Some text);
     u_thinkingContent := Some thought; u_quotedContent := None |}.

(** The new input node placed under the conversation node. *)
Definition newInputNode (node : ChatNode) (l : Locals) (now : Z) : ChatNode :=
  let userHeight := Layout.estimateContentHeight (userMessage l) in
  let assistantHeight := Layout.estimateContentHeight (streamedContent l) in
  let estimatedHeight := 120 + userHeight + assistantHeight + 100 in
  {| n_id := JS.with_number "input-" now; n_type := input; n_content := "";
     n_parentId := Some (conversationNodeId l); n_children := [];
     n_model := ""; n_timestamp := now;
     n_position := {| px := px (n_position node);
                      py := baseY l + estimatedHeight |};
     n_userMessage := None; n_assistantMessage := None;
     n_thinkingContent := None; n_quotedContent := None |}.

(** The [onChunk] callback: the chunk is added to the text streamed so far
    and the node is updated in the store, without a save. *)
Definition onChunk (api_ok : nat -> bool) (arrival : Z * Chunk)
    (lw : Locals * World) : Locals * World :=
  let '(l, w) := lw in
  let '(now, chunk) := arrival in
  match chunk with
  | thinking text =>
      let streamedThinking' := streamedThinking l +:+ text in
      ({| conversationNodeId := conversationNodeId l;
          streamedContent := streamedContent l;
          streamedThinking := streamedThinking';
          baseY := baseY l; userMessage := userMessage l |},
       Store.updateNode api_ok (conversationNodeId l)
                        (set_thinking streamedThinking') false now w)
  | content_chunk text =>
      let streamedContent' := streamedContent l +:+ text in
      ({| conversationNodeId := conversationNodeId l;
          streamedContent := streamedContent';
          streamedThinking := streamedThinking l;
          baseY := baseY l; userMessage := userMessage l |},
       Store.updateNode api_ok (conversationNodeId l)
                        (set_assistant streamedContent') false now w)
  end.

(** The chunks of a stream, merged in the order of their arrival. *)
Definition stream (api_ok : nat -> bool) (arrivals : list (Z * Chunk))
    (lw : Locals * World) : Locals * World :=
  fold_left (fun acc arrival => onChunk api_ok arrival acc) arrivals lw.

Section Handler.

Variable api_ok : nat -> bool.

(** The component's props and state read by [handleSend]. *)
Variable node : ChatNode.
Variable input_text : string.
Variable modelToUse : option ModelConfig.

(** [handleSend] up to the call of [sendAIMessage].  The left side is a
    handler that went no further: it returned early, or its walk of the
    parent links ran out of [fuel]. *)
Definition handleSend_begin (fuel : nat) (now : Z) (w : World)
    : World + (Locals * World) :=
  match negb (JS.truthy (JS.trim input_text)), currentSession (store w) with
  | true, _ | _, None => inl w
  | false, Some session =>
      match modelToUse with
      | None => inl (with_alert w "请先在设置中配置并设置默认 AI 模型")
      | Some model =>
          let userMessage := JS.trim input_text in
          let quoted := quotedContent (store w) in
          let '(l, w1) :=
            match n_type node with
            | input =>
                let w1 :=
                  Store.updateNode api_ok (n_id node)
                    (to_conversation userMessage quoted (model_label model) now)
                    true now w in
                let w2 :=
                  if String.eqb (s_title session) "新对话"
                     && String.eqb (n_id node) "root"
                  then
                    let title :=
                      if Z.ltb 30 (JS.length userMessage)
                      then JS.slice0 30 userMessage +:+ "..."
                      else userMessage in
                    Store.updateSessionTitle api_ok (s_id session) title now w1
                  else w1 in
                ({| conversationNodeId := n_id node; streamedContent := "";
                    streamedThinking := ""; baseY := py (n_position node);
                    userMessage := userMessage |}, w2)
            | _ =>
                let conversationNodeId := JS.with_number "conversation-" now in
                let baseY := py (n_position node) + 200 in
                let conversationNode :=
                  {| n_id := conversationNodeId; n_type := conversation;
                     n_content := userMessage;
                     n_parentId := Some (n_id node); n_children := [];
                     n_model := model_label model; n_timestamp := now;
                     n_position := {| px := px (n_position node); py := baseY |};
                     n_userMessage := Some userMessage;
                     n_assistantMessage := None; n_thinkingContent := None;
                     n_quotedContent := quoted |} in
                ({| conversationNodeId := conversationNodeId;
                    streamedContent := ""; streamedThinking := "";
                    baseY := baseY; userMessage := userMessage |},
                 Store.addNode api_ok conversationNode now w)
            end in
          let w2 := Store.setQuotedContent None w1 in
          match Store.getConversationPath fuel (store w2) with
          | None => inl w2
          | Some conversationPath =>
              let messages :=
                (map (fun n => {| role := n_type n; content := n_content n |})
                     conversationPath
                 ++ [{| role := user;
                        content := finalUserMessage quoted userMessage |}])%list
              in
              inr (l, with_request w2 messages)
          end
      end
  end.

(** The [addNode] and [selectNode] of the [finally] block. *)
Definition continue_with_input (l : Locals) (now : Z) (w : World) : World :=
  if JS.truthy (conversationNodeId l) then
    let child := newInputNode node l now in
    Store.selectNode (n_id child) (Store.addNode api_ok child now w)
  else w.

(** [handleSend] from the end of the stream on. *)
Definition handleSend_end (clock : Clock) (outcome : Outcome)
    (lw : Locals * World) : World :=
  let '(l, w) := lw in
  match outcome with
  | resolved response =>
      let w1 :=
        Store.updateNode api_ok (conversationNodeId l)
          (set_final (r_content response) (r_thinkingContent response)
                     (at_end clock))
          true (at_end clock) w in
      (* addNode(newInputNode); selectNode(newInputNodeId): the save is not
         awaited, so the [finally] block reads the store before the first
         save has answered *)
      let child := newInputNode node l (at_input clock) in
      let first := Store.addNode_request (store w1) child (at_input clock) in
      let '(w2, ok) :=
        match first with
        | Some request => Store.call api_ok w1 (api_updateSession (snd request))
        | None => (w1, false)
        end in
      let w3 := Store.selectNode (n_id child) w2 in
      if JS.truthy (conversationNodeId l) then
        let child' := newInputNode node l (at_input_again clock) in
        let again :=
          Store.addNode_request (store w3) child' (at_input_again clock) in
        let '(w4, ok') :=
          match again with
          | Some request => Store.call api_ok w3 (api_updateSession (snd request))
          | None => (w3, false)
          end in
        let w5 := Store.selectNode (n_id child') w4 in
        let st6 :=
          match first with
          | Some request => Store.addNode_response ok request (store w5)
          | None => store w5
          end in
        let st7 :=
          match again with
          | Some request => Store.addNode_response ok' request st6
          | None => st6
          end in
        with_store w5 st7
      else
        match first with
        | Some request =>
            with_store w3 (Store.addNode_response ok request (store w3))
        | None => w3
        end
  | rejected (an_Error name message) =>
      if String.eqb name "AbortError" then
        if JS.truthy (conversationNodeId l) && JS.truthy (streamedContent l)
        then
          let contentWithStopMark := streamedContent l +:+ stop_mark in
          let w1 :=
            Store.updateNode api_ok (conversationNodeId l)
              (set_final contentWithStopMark
                 (if JS.truthy (streamedThinking l)
                  then Some (streamedThinking l) else None)
                 (at_end clock))
              true (at_end clock) w in
          continue_with_input l (at_input_again clock) w1
        else w
      else with_alert w ("发送失败: " +:+ message)
  | rejected not_an_Error => with_alert w "发送失败: 未知错误"
  end.

(** [handleSend]: the message is sent, the chunks arrive, the call ends. *)
Definition handleSend (fuel : nat) (clock : Clock)
    (arrivals : list (Z * Chunk)) (outcome : Outcome) (w : World) : World :=
  match handleSend_begin fuel (at_send clock) w with
  | inl w' => w'
  | inr lw => handleSend_end clock outcome (stream api_ok arrivals lw)
  end.

(** The loop of [createBranchNode] over the children of [node]: the lowest
    child below [node] so far, with its height. *)
Definition lowest_child (session : ChatSession) (acc : Z * option ChatNode)
    (childId : string) : Z * option ChatNode :=
  match s_nodes session !! childId with
  | Some child =>
      if Z.ltb (fst acc) (py (n_position child))
      then (py (n_position child), Some child) else acc
  | None => acc
  end.

(** The position [createBranchNode] gives the new input node. *)
Definition branch_position (session : ChatSession) : Position :=
  let childrenCount := Z.of_nat (List.length (n_children node)) in
  let parentNodeHeight := Layout.estimateNodeHeight node in
  let newX := px (n_position node) in
  let newY := py (n_position node) + parentNodeHeight + 80 in
  if Z.ltb 0 childrenCount then
    let '(maxY, maxYChildNode) :=
      fold_left (lowest_child session) (n_children node)
                (py (n_position node), None) in
    match maxYChildNode with
    | Some child =>
        let estimatedHeight := Layout.estimateNodeHeight child in
        let baseXOffset := 400 in
        let offsetMultiplier := childrenCount mod 4 - 1 in
        {| px := px (n_position node) + offsetMultiplier * baseXOffset;
           py := maxY + estimatedHeight + 100 |}
    | None => {| px := newX; py := newY |}
    end
  else {| px := newX; py := newY |}.

(** [createBranchNode]: [addNode] is not awaited, and [selectNode] sets
    another field of the store, so the order of the two does not show.
    The handler runs in one go, and [now] is what [Date.now()] gives at
    each of its reads. *)
Definition createBranchNode (now : Z) (w : World) : World :=
  match currentSession (store w) with
  | None => w
  | Some session =>
      let newInputNodeId := JS.with_number "input-" now in
      let newInputNode :=
        {| n_id := newInputNodeId; n_type := input; n_content := "";
           n_parentId := Some (n_id node); n_children := [];
           n_model := ""; n_timestamp := now;
           n_position := branch_position session;
           n_userMessage := None; n_assistantMessage := None;
           n_thinkingContent := None; n_quotedContent := None |} in
      Store.selectNode newInputNodeId (Store.addNode api_ok newInputNode now w)
  end.

(** [handleCloseInputNode]. *)
Definition handleCloseInputNode (fuel : nat) (now : Z) (w : World)
    : option World :=
  if bool_decide (n_type node = input) && negb (String.eqb (n_id node) "root")
  then Store.deleteNode api_ok fuel (n_id node) now w
  else Some w.

End Handler.

End ChatNodeComponent.

(** ** The streaming loops of the providers ([src/services/ai.ts])

    A provider reads the body of the response piece by piece, splits each
    piece into lines and handles the lines that start with [data: ].  The
    pieces are given here as the list of the texts [decoder.decode(value)]
    returns.  [JSON.parse] and the reads of the fields of its result are a
    parameter: [None] is a line on which one of them throws, which the
    loop ignores; a field that is missing or [null] is [None]. *)

Module AIService.

Import ChatNodeComponent.

(** The variables of the loop, and the calls of [onChunk] made so far. *)
Record Progress : Type := mkProgress {
  fullContent : string;
  thinkingContent : string;
  delivered : list Chunk;
}.

Definition start : Progress :=
  {| fullContent := ""; thinkingContent := ""; delivered := [] |}.

(** [chunk.split('\n').filter(line => line.trim() !== '')]. *)
Definition lines_of (chunk : string) : list string :=
  List.filter (fun line => negb (JS.trim_is_empty line)) (JS.split_lines chunk).

Definition add_content (text : option string) (p : Progress) : Progress :=
  if JS.truthy_opt text then
    {| fullContent := fullContent p +:+ default "" text;
       thinkingContent := thinkingContent p;
       delivered := delivered p ++ [content_chunk (default "" text)] |}
  else p.

Definition add_thinking (text : option string) (p : Progress) : Progress :=
  if JS.truthy_opt text then
    {| fullContent := fullContent p;
       thinkingContent := thinkingContent p +:+ default "" text;
       delivered := delivered p ++ [thinking (default "" text)] |}
  else p.

(** [{ content: fullContent, thinkingContent: thinkingContent || undefined }]. *)
Definition response_of (p : Progress) : AIResponse :=
  {| r_content := fullContent p;
     r_thinkingContent :=
       if JS.truthy (thinkingContent p) then Some (thinkingContent p)
       else None |}.

Section Providers.

(** The fields [choices[0]?.delta?.content] and
    [choices[0]?.delta?.reasoning_content] of a parsed line. *)
Variable parse_delta : string -> option (option string * option string).

(** One line of the loop of [DeepSeekProvider]. *)
Definition deepseek_line (p : Progress) (line : string) : Progress :=
  if JS.startsWith "data: " line then
    let data := JS.slice_from 6 line in
    if String.eqb data "[DONE]" then p
    else
      match parse_delta data with
      | Some (content, reasoning) =>
          add_content content (add_thinking reasoning p)
      | None => p
      end
  else p.

(** One line of the loop of [OpenAIProvider], which reads the content
    only. *)
Definition openai_line (p : Progress) (line : string) : Progress :=
  if JS.startsWith "data: " line then
    let data := JS.slice_from 6 line in
    if String.eqb data "[DONE]" then p
    else
      match parse_delta data with
      | Some (content, _) => add_content content p
      | None => p
      end
  else p.

(** The [while] loop over the pieces read from the body. *)
Definition read_all (line : Progress -> string -> Progress)
    (pieces : list string) (p : Progress) : Progress :=
  fold_left (fun acc piece => fold_left line (lines_of piece) acc) pieces p.

(** The streaming branch of [DeepSeekProvider.sendMessage], from the first
    read to the end of the body. *)
Definition deepseek_stream (pieces : list string) : Progress :=
  read_all deepseek_line pieces start.

(** The streaming branch of [OpenAIProvider.sendMessage]; its response has
    no [thinkingContent]. *)
Definition openai_stream (pieces : list string) : Progress :=
  read_all openai_line pieces start.

Definition openai_response (p : Progress) : AIResponse :=
  {| r_content := fullContent p; r_thinkingContent := None |}.

End Providers.

End AIService.

(** ** The model-configuration table ([server/database.ts]) *)

Module Database.

(** A row of [model_configs] without its primary key [id]; the table is the
    map from the key to the rest of the row. *)
Record ModelConfigRow : Type := mkModelConfigRow {
  row_name : string;
  row_provider : string;
  row_model : string;
  row_apiKey : option string;
  row_baseURL : option string;
  row_temperature : Q;
  row_maxTokens : Z;
  row_isDefault : Z;
  row_createdAt : Z;
}.

(** [SET isDefault = v] on one row. *)
Definition set_isDefault (v : Z) (row : ModelConfigRow) : ModelConfigRow :=
  {| row_name := row_name row; row_provider := row_provider row;
     row_model := row_model row; row_apiKey := row_apiKey row;
     row_baseURL := row_baseURL row; row_temperature := row_temperature row;
     row_maxTokens := row_maxTokens row; row_isDefault := v;
     row_createdAt := row_createdAt row |}.

(** The flag as [getAllModelConfigs] reports it: [row.isDefault === 1]. *)
Definition isDefault (row : ModelConfigRow) : bool :=
  Z.eqb (row_isDefault row) 1.

(** [setDefaultModelConfig]:
    [UPDATE model_configs SET isDefault = 0], then
    [UPDATE model_configs SET isDefault = 1 WHERE id = ?]. *)
Definition setDefaultModelConfig (id : string)
    (table : gmap string ModelConfigRow) : gmap string ModelConfigRow :=
  let cleared := set_isDefault 0 <$> table in
  alter (set_isDefault 1) id cleared.

(** The ids of the rows selected by [WHERE isDefault = 1]. *)
Definition default_ids (table : gmap string ModelConfigRow) : list string :=
  (map_to_list (filter (fun kv => isDefault (snd kv) = true) table)).*1.

(** [deleteModelConfig]: [DELETE FROM model_configs WHERE id = ?]. *)
Definition deleteModelConfig (id : string)
    (table : gmap string ModelConfigRow) : gmap string ModelConfigRow :=
  delete id table.

(** [ModelConfig] as the server finds it in the body of a request, where
    the provider and the protocol are strings. *)
Record Config : Type := mkConfig {
  c_id : string;
  c_name : string;
  c_provider : string;
  c_apiProtocol : option string;
  c_model : string;
  c_apiKey : option string;
  c_baseURL : option string;
  c_temperature : Q;
  c_maxTokens : Z;
  c_isDefault : option bool;
  c_createdAt : Z;
}.

(** [v || null] on an optional string. *)
Definition or_null (v : option string) : option string :=
  if JS.truthy_opt v then v else None.

(** The values [createModelConfig] and [updateModelConfig] bind, with the
    [createdAt] the row is to carry. *)
Definition row_of (config : Config) (createdAt : Z) : ModelConfigRow :=
  {| row_name := c_name config; row_provider := c_provider config;
     row_model := c_model config; row_apiKey := or_null (c_apiKey config);
     row_baseURL := or_null (c_baseURL config);
     row_temperature := c_temperature config;
     row_maxTokens := c_maxTokens config;
     row_isDefault := if default false (c_isDefault config) then 1 else 0;
     row_createdAt := createdAt |}.

(** The object [getModelConfig] builds from a row. *)
Definition config_of (id : string) (row : ModelConfigRow) : Config :=
  {| c_id := id; c_name := row_name row; c_provider := row_provider row;
     c_apiProtocol := None; c_model := row_model row;
     c_apiKey := or_null (row_apiKey row);
     c_baseURL := or_null (row_baseURL row);
     c_temperature := row_temperature row;
     c_maxTokens := row_maxTokens row;
     c_isDefault := Some (isDefault row);
     c_createdAt := row_createdAt row |}.

(** [getModelConfig]. *)
Definition getModelConfig (id : string) (table : gmap string ModelConfigRow)
    : option Config :=
  config_of id <$> table !! id.

(** [createModelConfig]: the [INSERT] throws when the key is taken, which
    is [None]. *)
Definition createModelConfig (config : Config)
    (table : gmap string ModelConfigRow)
    : option (gmap string ModelConfigRow) :=
  match table !! c_id config with
  | Some _ => None
  | None => Some (<[c_id config := row_of config (c_createdAt config)]> table)
  end.

(** [updateModelConfig]: an [UPDATE] of every column but [id] and
    [createdAt]; it changes nothing when no row has the key. *)
Definition updateModelConfig (config : Config)
    (table : gmap string ModelConfigRow) : gmap string ModelConfigRow :=
  alter (fun row => row_of config (row_createdAt row)) (c_id config) table.

(** A row of [sessions] without its primary key.  The column [nodes] holds
    [JSON.stringify(session.nodes)] and is read back with [JSON.parse]; it
    is kept here as the node map that text stands for. *)
Record SessionRow : Type := mkSessionRow {
  srow_title : string;
  srow_nodes : gmap string ChatNode;
  srow_rootNodeId : string;
  srow_createdAt : Z;
  srow_updatedAt : Z;
}.

(** The object [getSession] builds from a row: it has no [defaultModelId]. *)
Definition session_of (id : string) (row : SessionRow) : ChatSession :=
  {| s_id := id; s_title := srow_title row; s_nodes := srow_nodes row;
     s_rootNodeId := srow_rootNodeId row; s_createdAt := srow_createdAt row;
     s_updatedAt := srow_updatedAt row; s_defaultModelId := None |}.

(** [getSession]. *)
Definition getSession (id : string) (table : gmap string SessionRow)
    : option ChatSession :=
  session_of id <$> table !! id.

(** [createSession]: the [INSERT] throws when the key is taken. *)
Definition createSession (session : ChatSession)
    (table : gmap string SessionRow) : option (gmap string SessionRow) :=
  match table !! s_id session with
  | Some _ => None
  | None =>
      Some (<[s_id session :=
                {| srow_title := s_title session;
                   srow_nodes := s_nodes session;
                   srow_rootNodeId := s_rootNodeId session;
                   srow_createdAt := s_createdAt session;
                   srow_updatedAt := s_updatedAt session |}]> table)
  end.

(** [updateSession]: an [UPDATE] of the title, the nodes, the root id and
    [updatedAt]; it changes nothing when no row has the key. *)
Definition updateSession (session : ChatSession)
    (table : gmap string SessionRow) : gmap string SessionRow :=
  alter (fun row =>
           {| srow_title := s_title session; srow_nodes := s_nodes session;
              srow_rootNodeId := s_rootNodeId session;
              srow_createdAt := srow_createdAt row;
              srow_updatedAt := s_updatedAt session |})
        (s_id session) table.

(** [deleteSession]. *)
Definition deleteSession (id : string) (table : gmap string SessionRow)
    : gmap string SessionRow :=
  delete id table.

(** The routes of [server/index.ts] behind [sessionAPI]: the table after
    the request, and whether the answer is a success.  A [POST] answers 500
    when the insert throws; a [PUT] and a [DELETE] always succeed. *)
Definition serve (request : ApiCall) (table : gmap string SessionRow)
    : gmap string SessionRow * bool :=
  match request with
  | api_createSession session =>
      match createSession session table with
      | Some table' => (table', true)
      | None => (table, false)
      end
  | api_updateSession session => (updateSession session table, true)
  | api_deleteSession id => (deleteSession id table, true)
  end.

End Database.

(** * Properties of the program *)

Import Layout.
Import ChatNodeComponent.

(** ** Well-formed node maps *)

(** The nodes of the current session. *)
Definition current_nodes (w : World) : gmap string ChatNode :=
  match currentSession (store w) with
  | Some session => s_nodes session
  | None => ∅
  end.

(** Every node is stored under its own id. *)
Definition keyed (nodes : gmap string ChatNode) : Prop :=
  ∀ k n, nodes !! k = Some n → n_id n = k.

(** A node with parent p is listed among the children of p. *)
Definition listed_by_parent (nodes : gmap string ChatNode) : Prop :=
  ∀ k n p, nodes !! k = Some n → n_parentId n = Some p →
    ∃ pn, nodes !! p = Some pn ∧ n_id n ∈ n_children pn.

(** A child id listed by p names a node whose parent is p. *)
Definition children_point_back (nodes : gmap string ChatNode) : Prop :=
  ∀ k pn c, nodes !! k = Some pn → c ∈ n_children pn →
    ∃ cn, nodes !! c = Some cn ∧ n_parentId cn = Some (n_id pn).

(** Parent/child symmetry. *)
Definition symmetric (nodes : gmap string ChatNode) : Prop :=
  keyed nodes ∧ listed_by_parent nodes ∧ children_point_back nodes.

(** The messages [handleSend] derives from a path. *)
Definition turns (path : list ChatNode) : list (NodeType * string) :=
  map (fun n => (n_type n, n_content n)) path.

(** ** Streams

    The text delivered by the content chunks of a stream, and by its
    thinking chunks. *)
Fixpoint received_content (arrivals : list (Z * Chunk))
    : string :=
  match arrivals with
  | [] => ""
  | (_, content_chunk text) :: rest =>
      text +:+ received_content rest
  | (_, thinking _) :: rest => received_content rest
  end.

Fixpoint received_thinking (arrivals : list (Z * Chunk))
    : string :=
  match arrivals with
  | [] => ""
  | (_, thinking text) :: rest =>
      text +:+ received_thinking rest
  | (_, content_chunk _) :: rest => received_thinking rest
  end.

Definition is_content (arrival : Z * Chunk) : bool :=
  match snd arrival with
  | content_chunk _ => true
  | thinking _ => false
  end.

Definition is_thinking (arrival : Z * Chunk) : bool :=
  match snd arrival with
  | thinking _ => true
  | content_chunk _ => false
  end.

(** The fields of a node that a chunk merge leaves alone. *)
Definition same_frame (n n' : ChatNode) : Prop :=
  n_id n' = n_id n ∧ n_type n' = n_type n ∧ n_content n' = n_content n
  ∧ n_parentId n' = n_parentId n ∧ n_children n' = n_children n
  ∧ n_userMessage n' = n_userMessage n.

(** The test [error instanceof Error && error.name === 'AbortError']. *)
Definition is_abort (error : Thrown) : bool :=
  match error with
  | an_Error name _ => String.eqb name "AbortError"
  | not_an_Error => false
  end.

(** The text of the [alert] that reports a failed request. *)
Definition failure_text (error : Thrown) : string :=
  match error with
  | an_Error _ message => "发送失败: " +:+ message
  | not_an_Error => "发送失败: 未知错误"
  end.

(** The calls made to [sessionAPI] between two worlds. *)
Definition saves_between (before after : World) : list ApiCall :=
  drop (List.length (api_log before)) (api_log after).

(** The assistant text of node [id] in the session a call saves. *)
Definition saved_text (id : string) (c : ApiCall) : option (option string) :=
  match c with
  | api_updateSession session => n_assistantMessage <$> s_nodes session !! id
  | _ => None
  end.

(** ** The geometry of a layout tree *)

(** The loop of [layoutTree] over the children, with the placement of one
    child as a parameter. *)
Definition place (f : LayoutNode → Z → LayoutNode) (hs : Z)
    : list LayoutNode → Z → list LayoutNode :=
  fix each cs currentX :=
    match cs with
    | [] => []
    | child :: cs' =>
        f child (currentX + calculateSubtreeWidth child hs / 2)
        :: each cs' (currentX + calculateSubtreeWidth child hs + hs)
    end.

(** The nodes of a tree, the root first. *)
Fixpoint subtree_nodes (t : LayoutNode) : list LayoutNode :=
  t :: flat_map subtree_nodes (ln_children t).

(** The width of the children of a node, side by side. *)
Definition totalWidth (hs : Z) (cs : list LayoutNode) : Z :=
  sumZ (map (fun c => calculateSubtreeWidth c hs) cs)
  + (Z.of_nat (List.length cs) - 1) * hs.

(** The distance from the left edge of the children's span to the slot of
    child number k. *)
Definition offset (hs : Z) (k : nat) (cs : list LayoutNode) : Z :=
  sumZ (map (fun c => calculateSubtreeWidth c hs + hs) (take k cs)).

(** The children of p sit side by side, in order, under p. *)
Definition arranged_at (hs : Z) (p : LayoutNode) : Prop :=
  ∀ k c, ln_children p !! k = Some c →
    ln_x c = ln_x p - totalWidth hs (ln_children p) / 2
             + offset hs k (ln_children p)
             + calculateSubtreeWidth c hs / 2.

(** Every box of the tree is 600 wide, as [buildTree] makes them. *)
Definition uniform (t : LayoutNode) : Prop :=
  Forall (fun m => ln_width m = 600) (subtree_nodes t).

(** The horizontal interval of a subtree: its extent, centred on the
    position the map gives to its root. *)
Definition extent (positions : gmap string Position) (hs : Z)
    (t : LayoutNode) : option (Z * Z) :=
  (fun pos => (px pos - calculateSubtreeWidth t hs / 2,
               px pos + calculateSubtreeWidth t hs / 2))
    <$> positions !! ln_id t.

(** A node without content, for trees whose node objects do not matter. *)
Definition blank_node : ChatNode :=
  {| n_id := ""; n_type := input; n_content := ""; n_parentId := None;
     n_children := []; n_model := ""; n_timestamp := 0;
     n_position := {| px := 0; py := 0 |}; n_userMessage := None;
     n_assistantMessage := None; n_thinkingContent := None;
     n_quotedContent := None |}.

(** What the layout reads of a node. *)
Definition layout_view (n : ChatNode)
    : string * NodeType * option string * option string * option string
      * list string :=
  (n_id n, n_type n, n_userMessage n, n_assistantMessage n,
   n_thinkingContent n, n_children n).

(** Two node maps with the same tree shape and the same node content. *)
Definition same_layout_input (nodes nodes' : gmap string ChatNode) : Prop :=
  ∀ k, layout_view <$> nodes !! k = layout_view <$> nodes' !! k.

(** A layout tree without the node objects it refers to. *)
Fixpoint forget (t : LayoutNode) : LayoutNode :=
  {| ln_id := ln_id t; ln_node := blank_node;
     ln_children := map forget (ln_children t); ln_depth := ln_depth t;
     ln_x := ln_x t; ln_y := ln_y t; ln_width := ln_width t;
     ln_height := ln_height t |}.

(** A node map without cycles: [rank] decreases from a node to each of the
    ids its child list names. *)
Definition acyclic (rank : string → nat) (nodes : gmap string ChatNode)
    : Prop :=
  ∀ k n c, nodes !! k = Some n → c ∈ n_children n → (rank c < rank k)%nat.

(** ** Stores, streams and trees used as examples *)

Module Scenario.

(** A persistence collaborator that never fails. *)
Definition always_ok (k : nat) : bool := true.

Definition plain (id : string) (type : NodeType) (text : string)
    (parentId : option string) (children : list string) : ChatNode :=
  {| n_id := id; n_type := type; n_content := text; n_parentId := parentId;
     n_children := children; n_model := ""; n_timestamp := 0;
     n_position := {| px := 0; py := 0 |}; n_userMessage := None;
     n_assistantMessage := None; n_thinkingContent := None;
     n_quotedContent := None |}.

Definition turn (id : string) (parentId : option string)
    (children : list string) (question answer : string) : ChatNode :=
  {| n_id := id; n_type := conversation; n_content := question;
     n_parentId := parentId; n_children := children; n_model := "";
     n_timestamp := 0; n_position := {| px := 0; py := 0 |};
     n_userMessage := Some question; n_assistantMessage := Some answer;
     n_thinkingContent := None; n_quotedContent := None |}.

Definition store_of (nodes : gmap string ChatNode) (selected : string)
    : ChatStore :=
  let session :=
    {| s_id := "s"; s_title := "chat"; s_nodes := nodes;
       s_rootNodeId := "root"; s_createdAt := 0; s_updatedAt := 0;
       s_defaultModelId := None |} in
  {| sessions := {["s" := session]}; currentSessionId := Some "s";
     currentSession := Some session; selectedNodeId := Some selected;
     quotedContent := None; isLoading := false |}.

(** root, A (user), B (conversation: "Q", "R"), C (input), selected at C. *)
Definition chain : ChatStore :=
  store_of
    (<["root" := plain "root" input "" None ["A"]]>
     (<["A" := plain "A" user "A.content" (Some "root") ["B"]]>
      (<["B" := turn "B" (Some "A") ["C"] "Q" "R"]>
       (<["C" := plain "C" input "" (Some "B") []]> ∅))))
    "C".

(** A new session. *)
Definition fresh : World :=
  Store.createSession always_ok None 1000 initial_world.

(** root, X, Y, Z, each the only child of the one before, built with
    [addNode]. *)
Definition family : World :=
  Store.addNode always_ok (plain "Z" user "" (Some "Y") []) 1003
    (Store.addNode always_ok (plain "Y" user "" (Some "X") []) 1002
       (Store.addNode always_ok (plain "X" user "" (Some "root") []) 1001
          fresh)).

(** A table in which A is the default and B is not. *)
Definition row (isDefault : Z) : Database.ModelConfigRow :=
  {| Database.row_name := "model"; Database.row_provider := "openai";
     Database.row_model := "gpt"; Database.row_apiKey := None;
     Database.row_baseURL := None; Database.row_temperature := 0%Q;
     Database.row_maxTokens := 2000; Database.row_isDefault := isDefault;
     Database.row_createdAt := 0 |}.

Definition table_A_default : gmap string Database.ModelConfigRow :=
  <["A" := row 1]> (<["B" := row 0]> (<["C" := row 0]> ∅)).

(** The current session of a world and one of its nodes, for worlds that
    have them. *)
Definition session_of (w : World) : ChatSession :=
  default (mkChatSession "" "" ∅ "" 0 0 None) (currentSession (store w)).

Definition node_of (w : World) (id : string) : ChatNode :=
  default (plain "" input "" None []) (current_nodes w !! id).

(** A model configuration, and the root of a new session as the component
    of the root node holds it. *)
Definition model : ModelConfig :=
  {| mc_id := "m1"; mc_name := "Model"; mc_provider := openai;
     mc_model := "gpt"; mc_apiKey := Some "key"; mc_baseURL := None;
     mc_temperature := 0%Q; mc_maxTokens := 2000; mc_isDefault := Some true;
     mc_createdAt := 0 |}.

Definition root_node : ChatNode :=
  {| n_id := "root"; n_type := input; n_content := ""; n_parentId := None;
     n_children := []; n_model := ""; n_timestamp := 1000;
     n_position := {| px := 250; py := 50 |}; n_userMessage := None;
     n_assistantMessage := None; n_thinkingContent := None;
     n_quotedContent := None |}.

Definition clock : Clock :=
  {| at_send := 2000; at_end := 3000;
     at_input := 3001;
     at_input_again := 3001 |}.

(** "Hi" is sent from the root of a new session. *)
Definition no_locals : Locals :=
  {| conversationNodeId := "";
     streamedContent := "";
     streamedThinking := "";
     baseY := 0; userMessage := "" |}.

Definition sent : Locals * World :=
  match handleSend_begin always_ok root_node "Hi"
          (Some model) 5 2000 fresh with
  | inr lw => lw
  | inl w => (no_locals, w)
  end.

Definition hel_lo : list (Z * Chunk) :=
  [(2100, content_chunk "Hel");
   (2200, content_chunk "lo")].

Definition abort : Outcome :=
  rejected (an_Error "AbortError" "aborted").

Definition run (arrivals : list (Z * Chunk))
    (outcome : Outcome) : World :=
  handleSend always_ok root_node "Hi" (Some model) 5 clock
    arrivals outcome fresh.

(** The stream "Hel", "lo" is stopped by the user. *)
Definition cancelled : World := run hel_lo abort.

(** The stream is stopped after a thinking chunk, before any text. *)
Definition cancelled_early : World :=
  run [(2100, thinking "hmm")] abort.

(** The stream "Hel", "lo" ends normally. *)
Definition completed : World :=
  run hel_lo
      (resolved
         {| r_content := "Hello";
            r_thinkingContent := None |}).

(** The request fails after the chunk "Hel". *)
Definition failed : World :=
  run [(2100, content_chunk "Hel")]
      (rejected
         (an_Error "TypeError" "Failed to fetch")).

(** [deleteNode "Z"] in the session root, X, Y, Z. *)
Definition without_Z : World :=
  default family (Store.deleteNode always_ok 10 "Z" 1004 family).

(** A tree with two levels of siblings: root has the children A and B,
    and A has the children C and D. *)
Definition bushy : gmap string ChatNode :=
  <["root" := turn "root" None ["A"; "B"] "Q0" "R0"]>
  (<["A" := turn "A" (Some "root") ["C"; "D"] "Q1" "R1"]>
   (<["B" := turn "B" (Some "root") [] "Q2" "R2"]>
    (<["C" := plain "C" input "" (Some "A") []]>
     (<["D" := plain "D" input "" (Some "A") []]> ∅)))).

Definition blank_tree : LayoutNode :=
  mkLayoutNode "" blank_node [] 0 0 0 0 0.

Definition bushy_tree : LayoutNode :=
  default blank_tree (buildTree 5 bushy "root").

Definition bushy_positions : gmap string Position :=
  default ∅ (autoLayout 5 bushy "root" no_options).

(** The placed tree of [bushy] and the placed subtrees of A and B. *)
Definition bushy_laid : LayoutNode :=
  layoutTree bushy_tree 300 50 0 100 80.

Definition bushy_child (k : nat) : LayoutNode :=
  default blank_tree (ln_children bushy_laid !! k).

End Scenario.

(** ** More properties of the store *)

(** The current session is the entry of [sessions] under the current id. *)
Definition coherent (st : ChatStore) : Prop :=
  ∀ sid session,
    current st = Some (sid, session) → sessions st !! sid = Some session.

(** The links of a node: its id, its parent and its children. *)
Definition links (n : ChatNode) : string * option string * list string :=
  (n_id n, n_parentId n, n_children n).

(** Two node maps with the same ids and the same links. *)
Definition same_links (nodes nodes' : gmap string ChatNode) : Prop :=
  ∀ k, links <$> nodes !! k = links <$> nodes' !! k.

(** Updates that leave the links of a node alone. *)
Definition keeps_links (updates : NodeUpdates) : Prop :=
  u_id updates = None ∧ u_parentId updates = None ∧ u_children updates = None.

(** The chain of nodes [getConversationPath] walks from an id: the node of
    the id, then the node of its [parentId], and so on, up to a null or
    empty id or an id the map does not hold. *)
Inductive lineage (nodes : gmap string ChatNode)
    : option string → list ChatNode → Prop :=
  | lineage_null : lineage nodes None []
  | lineage_empty id :
      JS.truthy id = false → lineage nodes (Some id) []
  | lineage_missing id :
      JS.truthy id = true → nodes !! id = None → lineage nodes (Some id) []
  | lineage_step id node rest :
      JS.truthy id = true → nodes !! id = Some node →
      lineage nodes (n_parentId node) rest →
      lineage nodes (Some id) (node :: rest).

(** What a node on the chain adds to the history sent to the model. *)
Definition said (node : ChatNode) : list (NodeType * string) :=
  turns (List.filter Store.is_turn (Store.path_entries node)).

(** All of a node but its position is kept. *)
Definition moved (n n' : ChatNode) : Prop :=
  n' = with_position n (n_position n').

(** ** More geometry *)

(** The number of leaves of a tree. *)
Fixpoint leaves (t : LayoutNode) : Z :=
  match ln_children t with
  | [] => 1
  | _ :: _ => sumZ (map leaves (ln_children t))
  end.

(** The children of p are one row below p. *)
Definition stacked_at (vs : Z) (p : LayoutNode) : Prop :=
  ∀ k c, ln_children p !! k = Some c →
    ln_y c = ln_y p + ln_height p + vs ∧ ln_depth c = ln_depth p + 1.

(** The height of every box is the estimate for its node, as [buildTree]
    sets it. *)
Definition measured (t : LayoutNode) : Prop :=
  Forall (fun m => ln_height m = estimateNodeHeight (ln_node m))
         (subtree_nodes t).

(** ** More on [handleSend] *)

(** A text made of white space only: it is some characters that [trim]
    removes, one after another. *)
Definition blank (s : string) : Prop :=
  ∃ spaces, Forall (fun p => p ∈ JS.white_space) spaces
            ∧ s = foldr append "" spaces.

(** The title [handleSend] gives a session from its first message. *)
Definition title_of (userMessage : string) : string :=
  if Z.ltb 30 (JS.length userMessage)
  then JS.slice0 30 userMessage +:+ "..."
  else userMessage.

(** ** The database and the store *)

(** A session as [getSession] gives it back: with the [createdAt] of its
    row and without [defaultModelId]. *)
Definition as_stored (session : ChatSession) (createdAt : Z) : ChatSession :=
  {| s_id := s_id session; s_title := s_title session;
     s_nodes := s_nodes session; s_rootNodeId := s_rootNodeId session;
     s_createdAt := createdAt; s_updatedAt := s_updatedAt session;
     s_defaultModelId := None |}.

(** The server handles the requests in the order they were made. *)
Definition replay (requests : list ApiCall)
    (table : gmap string Database.SessionRow)
    : gmap string Database.SessionRow :=
  fold_left (fun t request => fst (Database.serve request t)) requests table.

(** The row of the current session holds what the store holds. *)
Definition synced (st : ChatStore) (table : gmap string Database.SessionRow)
    : Prop :=
  ∃ session row,
    currentSession st = Some session ∧ table !! s_id session = Some row
    ∧ Database.getSession (s_id session) table
      = Some (as_stored session (Database.srow_createdAt row)).

(** A configuration as [getModelConfig] gives it back after
    [createModelConfig] or [updateModelConfig]. *)
Definition config_as_stored (config : Database.Config) (createdAt : Z)
    : Database.Config :=
  Database.config_of (Database.c_id config) (Database.row_of config createdAt).

(** ** Streams of the providers *)

(** The chunks a provider has delivered, as arrivals (the times do not
    matter to the text they make). *)
Definition at_zero (chunks : list Chunk) : list (Z * Chunk) :=
  map (fun c => (0, c)) chunks.

Definition chunk_text (c : Chunk) : string :=
  match c with
  | thinking text => text
  | content_chunk text => text
  end.

(** The two texts of the loop are the chunks delivered so far, put
    together, and no chunk delivered is empty. *)
Definition accounted (p : AIService.Progress) : Prop :=
  received_content (at_zero (AIService.delivered p)) = AIService.fullContent p
  ∧ received_thinking (at_zero (AIService.delivered p))
    = AIService.thinkingContent p
  ∧ Forall (fun c => JS.truthy (chunk_text c) = true) (AIService.delivered p).

(** A layout node stands for the node of the map under its id, and its
    children for the child ids of that node that the map holds. *)
Definition mirrors (nodes : gmap string ChatNode) (m : LayoutNode) : Prop :=
  nodes !! ln_id m = Some (ln_node m)
  ∧ map ln_id (ln_children m)
    = filter (fun childId => is_Some (nodes !! childId))
             (n_children (ln_node m)).

(** ** More stores, trees and tables used as examples *)

Module Sample.

(** The id and the session of the world [Scenario.family]. *)
Definition sid : string := JS.with_number "session-" 1000.

Definition session : ChatSession := Scenario.session_of Scenario.family.

(** A new leaf under Z. *)
Definition leaf : ChatNode := Scenario.plain "W" user "" (Some "Z") [].

Definition node_Z : ChatNode := Scenario.plain "Z" user "" (Some "Y") [].

Definition node_X : ChatNode := Scenario.plain "X" user "" (Some "root") ["Y"].

Definition node_Y : ChatNode := Scenario.plain "Y" user "" (Some "X") ["Z"].

(** A persistence collaborator that always fails. *)
Definition never_ok (k : nat) : bool := false.

(** The depth below which a node of [Scenario.family] and of
    [Scenario.bushy] has no descendant. *)
Definition rank (id : string) : nat :=
  if String.eqb id "root" then 3
  else if String.eqb id "X" then 2
  else if String.eqb id "A" then 2
  else if String.eqb id "Y" then 1
  else 0.

(** An update of the text of a node. *)
Definition retext : NodeUpdates :=
  mkNodeUpdates None None (Some "edited") None None None None None
                None None None None.

(** The world [Scenario.family] after [rearrangeNodes], and its session. *)
Definition arranged : World :=
  default Scenario.family
          (Store.rearrangeNodes Scenario.always_ok 10 1005 Scenario.family).

(** The world after [deleteNode "X"]. *)
Definition without_X : World :=
  default Scenario.family
          (Store.deleteNode Scenario.always_ok 10 "X" 1004 Scenario.family).

(** The chain of [Scenario.chain] above its selected node C. *)
Definition chain_session : ChatSession :=
  default (mkChatSession "" "" ∅ "" 0 0 None)
          (currentSession Scenario.chain).

Definition chain_node (id : string) : ChatNode :=
  default (Scenario.plain "" input "" None [])
          (s_nodes chain_session !! id).

Definition chain_lineage : list ChatNode :=
  [chain_node "C"; chain_node "B"; chain_node "A"; chain_node "root"].

(** The world and the locals of "Hi" sent from the root of a new session. *)
Definition sent_session : ChatSession :=
  Scenario.session_of (snd Scenario.sent).

Definition sent_root : ChatNode := Scenario.node_of (snd Scenario.sent) "root".

Definition hello : AIResponse :=
  {| r_content := "Hello"; r_thinkingContent := None |}.

(** The session of a new store and its root. *)
Definition fresh_session : ChatSession := Scenario.session_of Scenario.fresh.

(** A database that holds the row of the session of [Scenario.family] as
    [createSession] has saved it. *)
Definition table : gmap string Database.SessionRow :=
  replay (take 1 (api_log Scenario.family)) ∅.

(** A stream of two lines and an end mark, in two pieces. *)
Definition parse_delta (data : string)
    : option (option string * option string) :=
  if String.eqb data "1" then Some (Some "Hel", None)
  else if String.eqb data "2" then Some (Some "lo", None)
  else None.

Definition pieces : list string :=
  ["data: 1" +:+ JS.nl +:+ "data: 2" +:+ JS.nl; "data: [DONE]"].

(** The conversation node of "Hi", as a component holds it once the
    answer "Hello" has been stored, without children. *)
Definition answered : ChatNode :=
  Scenario.turn "root" None [] "Hi" "Hello".

(** A character outside the basic plane (U+1F600), of four bytes and two
    code units. *)
Definition emoji : string := "😀".

(** A first message of 32 characters, as it is typed, with an ideographic
    space (U+3000) before it and a space behind it; the title it gives a
    session; and the store after it is sent from the root of a new
    session. *)
Definition long_message : string :=
  "一二三四五六七八九十一二三四五六七八九十一二三四五六七八九十一二".

Definition typed : string := "　" +:+ long_message +:+ " ".

Definition long_title : string :=
  "一二三四五六七八九十一二三四五六七八九十一二三四五六七八九十...".

Definition long_sent : Locals * World :=
  match handleSend_begin Scenario.always_ok Scenario.root_node
          typed (Some Scenario.model) 5 2000 Scenario.fresh with
  | inr lw => lw
  | inl w => (Scenario.no_locals, w)
  end.

End Sample.

(** ** Path resolver *)

(** C1.  On the chain root, A (user), B (conversation with user text "Q" and
    assistant text "R"), C (input), [getConversationPath] at C returns the
    turn of A, then the assistant text of B, then the user text of B: the
    two [unshift] calls put the assistant entry in front of the user entry. *)
Theorem getConversationPath_chain :
  turns <$> Store.getConversationPath 5 Scenario.chain
  = Some [(user, "A.content"); (assistant, "R"); (user, "Q")].
Proof. vm_compute. reflexivity. Qed.

(** The order the specification asks for is not the one returned. *)
Lemma getConversationPath_chain_not_user_first :
  turns <$> Store.getConversationPath 5 Scenario.chain
  ≠ Some [(user, "A.content"); (user, "Q"); (assistant, "R")].
Proof. vm_compute. discriminate. Qed.

(** Whatever the node, a conversation node that holds both texts puts its
    assistant entry in front of its user entry. *)
Lemma path_entries_conversation node question answer :
  n_type node = conversation →
  n_userMessage node = Some question → n_assistantMessage node = Some answer →
  JS.truthy question = true → JS.truthy answer = true →
  turns (Store.path_entries node) = [(assistant, answer); (user, question)].
Proof.
  intros Htype Hq Ha Htq Hta. unfold Store.path_entries.
  rewrite Htype, Hq, Ha, Htq, Hta. reflexivity.
Qed.

(** ** Node store: deletion *)

(** [deleteChildren] only removes entries. *)
Lemma deleteChildren_absent fuel :
  ∀ id (m m' : gmap string ChatNode) k,
    Store.deleteChildren fuel id m = Some m' → m !! k = None → m' !! k = None.
Proof.
  induction fuel as [|fuel IH]; intros id m m' k; simpl; [discriminate|].
  destruct (m !! id) as [node|]; [|intros [= <-]; trivial].
  generalize (n_children node). clear node.
  intros cs. revert m. induction cs as [|c cs IHcs]; intros m.
  - intros [= <-]; trivial.
  - destruct (Store.deleteChildren fuel c m) as [acc|] eqn:E; [|discriminate].
    intros Hrun Hk. apply (IHcs (delete c acc)); [exact Hrun|].
    destruct (decide (c = k)) as [->|Hne].
    + apply lookup_delete_eq.
    + rewrite lookup_delete_ne by exact Hne. eapply IH; eauto.
Qed.

Lemma deleteChildren_each_absent fuel cs :
  ∀ (m m' : gmap string ChatNode) k,
    Store.deleteChildren_each fuel cs m = Some m' →
    m !! k = None → m' !! k = None.
Proof.
  induction cs as [|c cs IH]; intros m m' k; simpl.
  - intros [= <-]; trivial.
  - destruct (Store.deleteChildren fuel c m) as [acc|] eqn:E; [|discriminate].
    intros Hrun Hk. eapply IH; [exact Hrun|].
    eapply deleteChildren_absent; eauto.
Qed.

(** The node passed to [deleteNode] is not in the map it builds. *)
Lemma deleteNode_nodes_removes fuel nodes nodeId nodeToDelete updatedNodes :
  Store.deleteNode_nodes fuel nodes nodeId nodeToDelete = Some updatedNodes →
  updatedNodes !! nodeId = None.
Proof.
  unfold Store.deleteNode_nodes. intros Hrun.
  eapply deleteChildren_each_absent; [exact Hrun|].
  apply lookup_delete_eq.
Qed.

(** C2.  In the session root, X, Y, Z (each the only child of the one
    before), [deleteNode "X"] removes X and the grandchild Z, and takes X out
    of the children of root, but the child Y stays in the map: its parent
    reference names the deleted X and its child list names the deleted Z. *)
Theorem deleteNode_keeps_direct_children :
  ∃ w', Store.deleteNode Scenario.always_ok 10 "X" 1004 Scenario.family = Some w'
    ∧ current_nodes w' !! "X" = None
    ∧ current_nodes w' !! "Z" = None
    ∧ n_children <$> current_nodes w' !! "root" = Some []
    ∧ current_nodes w' !! "Y"
      = Some (Scenario.plain "Y" user "" (Some "X") ["Z"]).
Proof.
  eexists. split; [vm_compute; reflexivity|].
  repeat split; vm_compute; reflexivity.
Qed.

(** ** Node store: parent/child symmetry *)


Lemma addNode_nodes_eq nodes node p pn :
  nodes !! n_id node = None → n_parentId node = Some p →
  nodes !! p = Some pn → JS.truthy p = true →
  Store.addNode_nodes nodes node
  = <[p := with_children pn (n_children pn ++ [n_id node])]>
      (<[n_id node := node]> nodes).
Proof.
  intros Hfresh Hpar Hp Ht. unfold Store.addNode_nodes.
  rewrite Hpar, Ht.
  assert (n_id node ≠ p) as Hne by congruence.
  rewrite lookup_insert_ne by exact Hne. rewrite Hp. reflexivity.
Qed.

Lemma addNode_nodes_symmetric nodes node p pn :
  symmetric nodes →
  nodes !! n_id node = None → n_children node = [] →
  n_parentId node = Some p → nodes !! p = Some pn → JS.truthy p = true →
  symmetric (Store.addNode_nodes nodes node).
Proof.
  intros (Hkey & Hup & Hdown) Hfresh Hleaf Hpar Hp Ht.
  rewrite (addNode_nodes_eq nodes node p pn) by assumption.
  assert (n_id node ≠ p) as Hne by congruence.
  assert (n_id pn = p) as Hpid by (eapply Hkey; eauto).
  set (pn' := with_children pn (n_children pn ++ [n_id node])).
  assert (∀ k n, <[p := pn']> (<[n_id node := node]> nodes) !! k = Some n →
            (k = p ∧ n = pn') ∨ (k = n_id node ∧ k ≠ p ∧ n = node)
            ∨ (k ≠ p ∧ k ≠ n_id node ∧ nodes !! k = Some n)) as Hcases.
  { intros k n Hk. destruct (decide (k = p)) as [->|Hkp].
    - rewrite lookup_insert_eq in Hk. left. split; congruence.
    - rewrite lookup_insert_ne in Hk by congruence.
      destruct (decide (k = n_id node)) as [->|Hki].
      + rewrite lookup_insert_eq in Hk. right; left. repeat split; congruence.
      + rewrite lookup_insert_ne in Hk by congruence. right; right; auto. }
  assert (∀ k n, nodes !! k = Some n →
            ∃ n', <[p := pn']> (<[n_id node := node]> nodes) !! k = Some n'
                  ∧ n_id n' = n_id n ∧ n_parentId n' = n_parentId n
                  ∧ (∀ c, c ∈ n_children n → c ∈ n_children n')) as Hkeep.
  { intros k n Hk. destruct (decide (k = p)) as [->|Hkp].
    - exists pn'. rewrite lookup_insert_eq.
      assert (n = pn) as -> by congruence.
      repeat split; trivial. intros c Hc. subst pn'. simpl. set_solver.
    - exists n. rewrite lookup_insert_ne by congruence.
      rewrite lookup_insert_ne by congruence. repeat split; trivial. }
  repeat split.
  - intros k n Hk. destruct (Hcases k n Hk) as [[-> ->]|[(-> & _ & ->)|(_ & _ & Hold)]].
    + exact Hpid.
    + reflexivity.
    + eapply Hkey; eauto.
  - intros k n q Hk Hq.
    destruct (Hcases k n Hk) as [[-> ->]|[(-> & _ & ->)|(_ & _ & Hold)]].
    + destruct (Hup p pn q Hp Hq) as (qn & Hqn & Hin).
      destruct (Hkeep q qn Hqn) as (qn' & Hqn' & _ & _ & Hch).
      exists qn'. split; [exact Hqn'|]. apply Hch. exact Hin.
    + assert (q = p) as -> by congruence.
      exists pn'. rewrite lookup_insert_eq. split; [reflexivity|].
      subst pn'. simpl. set_solver.
    + destruct (Hup k n q Hold Hq) as (qn & Hqn & Hin).
      destruct (Hkeep q qn Hqn) as (qn' & Hqn' & _ & _ & Hch).
      exists qn'. split; [exact Hqn'|]. apply Hch. exact Hin.
  - intros k n c Hk Hc.
    assert (∀ c0 n0, nodes !! k = Some n0 → n_id n0 = n_id n → c0 ∈ n_children n0 →
              ∃ cn, <[p := pn']> (<[n_id node := node]> nodes) !! c0 = Some cn
                    ∧ n_parentId cn = Some (n_id n)) as Hold_child.
    { intros c0 n0 Hn0 Hid Hc0.
      destruct (Hdown k n0 c0 Hn0 Hc0) as (cn & Hcn & Hcp).
      destruct (Hkeep c0 cn Hcn) as (cn' & Hcn' & _ & Hpar' & _).
      exists cn'. split; [exact Hcn'|]. congruence. }
    destruct (Hcases k n Hk) as [[-> ->]|[(-> & _ & ->)|(_ & _ & Hold)]].
    + subst pn'. simpl in Hc. apply elem_of_app in Hc as [Hc|Hc].
      * apply (Hold_child c pn); trivial.
      * apply list_elem_of_singleton in Hc as ->.
        exists node. rewrite lookup_insert_ne by congruence.
        rewrite lookup_insert_eq. split; [reflexivity|]. simpl. congruence.
    + rewrite Hleaf in Hc. inversion Hc.
    + apply (Hold_child c n); trivial.
Qed.

Lemma current_session st sid session :
  current st = Some (sid, session) → currentSession st = Some session.
Proof.
  unfold current. destruct (currentSession st) as [s|]; [|discriminate].
  destruct (currentSessionId st) as [i|]; [|discriminate].
  destruct (JS.truthy i); [|discriminate]. congruence.
Qed.

Lemma symmetric_empty : symmetric ∅.
Proof.
  repeat split; intros k n; intros; rewrite lookup_empty in *; discriminate.
Qed.

(** A new session holds the root alone, which has no parent and no child. *)
Lemma createSession_symmetric api_ok defaultModelConfig now w :
  symmetric (current_nodes w) →
  symmetric (current_nodes (Store.createSession api_ok defaultModelConfig now w)).
Proof.
  intros Hsym. unfold Store.createSession, Store.call.
  destruct (api_ok _); [|exact Hsym].
  unfold current_nodes; simpl.
  repeat split.
  - intros k n Hk. apply lookup_singleton_Some in Hk as [<- <-]. reflexivity.
  - intros k n p Hk Hp. apply lookup_singleton_Some in Hk as [<- <-].
    discriminate.
  - intros k n c Hk Hc. apply lookup_singleton_Some in Hk as [<- <-].
    inversion Hc.
Qed.

(** [addNode] of a childless node with a fresh id under an existing parent
    keeps the symmetry, whether or not the save succeeds. *)
Lemma addNode_symmetric api_ok node now w p pn :
  symmetric (current_nodes w) →
  current_nodes w !! n_id node = None → n_children node = [] →
  n_parentId node = Some p → current_nodes w !! p = Some pn →
  JS.truthy p = true →
  symmetric (current_nodes (Store.addNode api_ok node now w)).
Proof.
  intros Hsym Hfresh Hleaf Hpar Hp Ht.
  unfold Store.addNode, Store.addNode_request.
  destruct (current (store w)) as [[sid session]|] eqn:Hcur; [|exact Hsym].
  apply current_session in Hcur.
  unfold current_nodes in Hsym, Hfresh, Hp. rewrite Hcur in Hsym, Hfresh, Hp.
  unfold Store.call; simpl. destruct (api_ok _).
  - unfold current_nodes; simpl.
    eapply addNode_nodes_symmetric; eauto.
  - unfold current_nodes; simpl. rewrite Hcur. exact Hsym.
Qed.

(** The map [deleteNode] builds for a childless node: the node is removed
    and its parent, if it has one, no longer lists it. *)
Lemma deleteNode_nodes_leaf fuel nodes X nodeX :
  n_children nodeX = [] →
  Store.deleteNode_nodes fuel nodes X nodeX
  = Some (delete X
            (match n_parentId nodeX with
             | Some p =>
                 if JS.truthy p then
                   match nodes !! p with
                   | Some pn =>
                       <[p := with_children pn
                                (filter (fun id => id ≠ X) (n_children pn))]>
                         nodes
                   | None => nodes
                   end
                 else nodes
             | None => nodes
             end)).
Proof.
  intros Hleaf. unfold Store.deleteNode_nodes. rewrite Hleaf. reflexivity.
Qed.

(** [deleteNode] of a childless node keeps the symmetry. *)
Lemma deleteNode_nodes_leaf_symmetric fuel nodes X nodeX :
  symmetric nodes → nodes !! X = Some nodeX → n_children nodeX = [] →
  n_parentId nodeX ≠ Some "" →
  ∃ updatedNodes,
    Store.deleteNode_nodes fuel nodes X nodeX = Some updatedNodes
    ∧ symmetric updatedNodes.
Proof.
  intros (Hkey & Hup & Hdown) HX Hleaf Hpar.
  rewrite deleteNode_nodes_leaf by exact Hleaf.
  eexists. split; [reflexivity|].
  assert (∀ k n, nodes !! k = Some n → X ∈ n_children n →
            n_parentId nodeX = Some k) as Honly.
  { intros k n Hk Hin. destruct (Hdown k n X Hk Hin) as (cn & Hcn & Hp).
    assert (cn = nodeX) as -> by congruence.
    rewrite Hp. f_equal. eapply Hkey; eauto. }
  assert (∀ k n, nodes !! k = Some n → n_parentId n ≠ Some X) as Hnochild.
  { intros k n Hk Hp. destruct (Hup k n X Hk Hp) as (pn & Hpn & Hin).
    assert (pn = nodeX) as -> by congruence.
    rewrite Hleaf in Hin. inversion Hin. }
  (* every node that remains is a node of [nodes] with the same id and
     parent, and with the same children except X *)
  match goal with |- symmetric (delete X ?m1) => set (m := m1) end.
  assert (∀ k, k ≠ X → ∀ n, nodes !! k = Some n →
            ∃ n', m !! k = Some n' ∧ n_id n' = n_id n
                  ∧ n_parentId n' = n_parentId n
                  ∧ (∀ c, c ∈ n_children n' ↔ c ∈ n_children n ∧ c ≠ X))
    as Hfwd.
  { intros k HkX n Hk. subst m.
    assert (∀ c, c ∈ n_children n → n_parentId nodeX ≠ Some k → c ≠ X)
      as Hnot by (intros c Hc Hne ->; apply Hne, (Honly k n Hk Hc)).
    assert (∃ n', nodes !! k = Some n' ∧ n_id n' = n_id n
                  ∧ n_parentId n' = n_parentId n
                  ∧ (n_parentId nodeX ≠ Some k →
                     ∀ c, c ∈ n_children n' ↔ c ∈ n_children n ∧ c ≠ X))
      as Hsame.
    { exists n. split; [exact Hk|]. split; [reflexivity|].
      split; [reflexivity|]. intros Hne c.
      split; [intros Hc; split; [exact Hc|eapply Hnot; eauto]|tauto]. }
    destruct (n_parentId nodeX) as [p|] eqn:Ep.
    - destruct (JS.truthy p) eqn:Et.
      + destruct (Hup X nodeX p HX Ep) as (pn & Hpn & _). rewrite Hpn.
        destruct (decide (p = k)) as [->|Hne].
        * assert (pn = n) as -> by congruence.
          eexists. rewrite lookup_insert_eq. split; [reflexivity|].
          split; [reflexivity|]. split; [reflexivity|]. intros c. simpl.
          rewrite list_elem_of_filter. tauto.
        * destruct Hsame as (n' & Hn' & Hi & Hp' & Hc).
          exists n'. rewrite lookup_insert_ne by exact Hne.
          split; [exact Hn'|]. split; [exact Hi|]. split; [exact Hp'|].
          apply Hc. congruence.
      + destruct p; [contradiction|discriminate].
    - destruct Hsame as (n' & Hn' & Hi & Hp' & Hc).
      exists n'. split; [exact Hn'|]. split; [exact Hi|]. split; [exact Hp'|].
      apply Hc. discriminate. }
  assert (∀ k n', delete X m !! k = Some n' →
            k ≠ X ∧ ∃ n, nodes !! k = Some n ∧ m !! k = Some n'
                         ∧ n_id n' = n_id n
                         ∧ n_parentId n' = n_parentId n
                         ∧ (∀ c, c ∈ n_children n' ↔ c ∈ n_children n ∧ c ≠ X))
    as Hback.
  { intros k n' Hk. apply lookup_delete_Some in Hk as [HkX Hk].
    split; [congruence|].
    assert (is_Some (nodes !! k)) as [n Hn].
    { subst m. destruct (n_parentId nodeX) as [p|]; [|eauto].
      destruct (JS.truthy p); [|eauto].
      destruct (nodes !! p) as [pn|] eqn:Hp; [|eauto].
      destruct (decide (p = k)) as [->|Hne]; [eauto|].
      rewrite lookup_insert_ne in Hk by exact Hne. eauto. }
    destruct (Hfwd k ltac:(congruence) n Hn) as (n'' & Hn'' & Hrest).
    assert (n'' = n') as -> by congruence.
    exists n. split; [exact Hn|]. split; [exact Hk|]. exact Hrest. }
  repeat split.
  - intros k n' Hk. destruct (Hback k n' Hk) as (_ & n & Hn & _ & Hi & _).
    rewrite Hi. eapply Hkey; eauto.
  - intros k n' q Hk Hq.
    destruct (Hback k n' Hk) as (HkX & n & Hn & _ & Hi & Hp & _).
    rewrite Hp in Hq. destruct (Hup k n q Hn Hq) as (qn & Hqn & Hin).
    assert (q ≠ X) as HqX.
    { intros ->. assert (qn = nodeX) as -> by congruence.
      rewrite Hleaf in Hin. inversion Hin. }
    destruct (Hfwd q HqX qn Hqn) as (qn' & Hqn' & _ & _ & Hc).
    exists qn'. rewrite lookup_delete_ne by congruence.
    split; [exact Hqn'|]. apply Hc. split; [congruence|].
    rewrite Hi. rewrite (Hkey k n Hn). exact HkX.
  - intros k n' c Hk Hc.
    destruct (Hback k n' Hk) as (HkX & n & Hn & _ & Hi & _ & Hch).
    apply Hch in Hc as [Hc HcX].
    destruct (Hdown k n c Hn Hc) as (cn & Hcn & Hp).
    destruct (Hfwd c HcX cn Hcn) as (cn' & Hcn' & _ & Hp' & _).
    exists cn'. rewrite lookup_delete_ne by congruence.
    split; [exact Hcn'|]. congruence.
Qed.

Lemma deleteNode_leaf_symmetric api_ok fuel X nodeX now w :
  symmetric (current_nodes w) → current_nodes w !! X = Some nodeX →
  n_children nodeX = [] → n_parentId nodeX ≠ Some "" →
  ∃ w', Store.deleteNode api_ok fuel X now w = Some w'
        ∧ symmetric (current_nodes w').
Proof.
  intros Hsym HX Hleaf Hpar. unfold Store.deleteNode.
  destruct (current (store w)) as [[sid session]|] eqn:Hcur;
    [|exists w; split; [reflexivity|exact Hsym]].
  apply current_session in Hcur.
  unfold current_nodes in Hsym, HX. rewrite Hcur in Hsym, HX. rewrite HX.
  destruct (deleteNode_nodes_leaf_symmetric fuel _ X nodeX Hsym HX Hleaf Hpar)
    as (updatedNodes & -> & Hsym').
  unfold Store.call. eexists. split; [reflexivity|].
  destruct (api_ok _); unfold current_nodes; simpl; [exact Hsym'|].
  rewrite Hcur. exact Hsym.
Qed.

(** C3.  The session root, X, Y, Z built with [createSession] and
    [addNode] is symmetric, and [deleteNode "X"] breaks the symmetry: Y
    remains, with X as its parent, and X is gone. *)
Theorem deleteNode_breaks_symmetry :
  symmetric (current_nodes Scenario.family)
  ∧ ∃ w', Store.deleteNode Scenario.always_ok 10 "X" 1004 Scenario.family
          = Some w'
          ∧ ¬ symmetric (current_nodes w').
Proof.
  split.
  - unfold Scenario.family, Scenario.fresh.
    eapply addNode_symmetric; try (vm_compute; reflexivity).
    eapply addNode_symmetric; try (vm_compute; reflexivity).
    eapply addNode_symmetric; try (vm_compute; reflexivity).
    apply createSession_symmetric. exact symmetric_empty.
  - eexists. split; [vm_compute; reflexivity|].
    intros (_ & Hup & _).
    destruct (Hup "Y" (Scenario.plain "Y" user "" (Some "X") ["Z"]) "X")
      as (pn & Hpn & _); [vm_compute; reflexivity|reflexivity|].
    vm_compute in Hpn. discriminate.
Qed.

(** C10.  When [deleteNode] has removed the node X of the current session
    and the save has succeeded, the selection is the former parent of X if
    that is a non-empty id and the root id of the session otherwise; X is
    no longer in the map, and it is not left selected unless X is the root
    of the session or its own parent. *)
Theorem deleteNode_selects_parent api_ok fuel X now w w' sid session nodeX :
  current (store w) = Some (sid, session) →
  s_nodes session !! X = Some nodeX →
  api_ok (List.length (api_log w)) = true →
  Store.deleteNode api_ok fuel X now w = Some w' →
  selectedNodeId (store w')
  = Some (JS.or_else (n_parentId nodeX) (s_rootNodeId session))
  ∧ current_nodes w' !! X = None
  ∧ (X ≠ s_rootNodeId session → n_parentId nodeX ≠ Some X →
     selectedNodeId (store w') ≠ Some X).
Proof.
  intros Hcur HX Hok. unfold Store.deleteNode. rewrite Hcur, HX.
  destruct (Store.deleteNode_nodes fuel (s_nodes session) X nodeX)
    as [updatedNodes|] eqn:Hnodes; [|discriminate].
  unfold Store.call; simpl. rewrite Hok. intros [= <-]. simpl.
  split; [reflexivity|]. split.
  - unfold current_nodes; simpl.
    eapply deleteNode_nodes_removes; eauto.
  - intros Hroot Hself. unfold JS.or_else.
    destruct (n_parentId nodeX) as [p|]; [|congruence].
    destruct (JS.truthy p); congruence.
Qed.

(** Deleting the root of a new session leaves the deleted root selected. *)
Lemma deleteNode_root_stays_selected :
  ∃ w', Store.deleteNode Scenario.always_ok 10 "root" 1001 Scenario.fresh
        = Some w'
        ∧ current_nodes w' !! "root" = None
        ∧ selectedNodeId (store w') = Some "root".
Proof.
  eexists. split; [vm_compute; reflexivity|].
  split; vm_compute; reflexivity.
Qed.

Lemma deleteNode_selects_parent_witness :
  current (store Scenario.family)
  = Some (JS.with_number "session-" 1000, Scenario.session_of Scenario.family)
  ∧ s_nodes (Scenario.session_of Scenario.family) !! "Z"
    = Some (Scenario.plain "Z" user "" (Some "Y") [])
  ∧ Scenario.always_ok (List.length (api_log Scenario.family)) = true
  ∧ Store.deleteNode Scenario.always_ok 10 "Z" 1004 Scenario.family
    = Some Scenario.without_Z
  ∧ selectedNodeId (store Scenario.without_Z) = Some "Y"
  ∧ current_nodes Scenario.without_Z !! "Z" = None
  ∧ selectedNodeId (store Scenario.without_Z) ≠ Some "Z".
Proof.
  assert (current (store Scenario.family)
          = Some (JS.with_number "session-" 1000,
                  Scenario.session_of Scenario.family)) as H1
    by (vm_compute; reflexivity).
  assert (s_nodes (Scenario.session_of Scenario.family) !! "Z"
          = Some (Scenario.plain "Z" user "" (Some "Y") [])) as H2
    by (vm_compute; reflexivity).
  assert (Scenario.always_ok (List.length (api_log Scenario.family)) = true)
    as H3 by reflexivity.
  assert (Store.deleteNode Scenario.always_ok 10 "Z" 1004 Scenario.family
          = Some Scenario.without_Z) as H4 by (vm_compute; reflexivity).
  destruct (deleteNode_selects_parent Scenario.always_ok 10 "Z" 1004
              Scenario.family Scenario.without_Z _ _ _ H1 H2 H3 H4)
    as (Hsel & Hgone & Hnot).
  split; [exact H1|]. split; [exact H2|]. split; [exact H3|].
  split; [exact H4|]. split; [exact Hsel|]. split; [exact Hgone|].
  apply Hnot; vm_compute; discriminate.
Defined.

(** ** Node store: deletion returns on a map without cycles *)

Lemma deleteChildren_subseteq fuel :
  ∀ id (m m' : gmap string ChatNode),
    Store.deleteChildren fuel id m = Some m' → m' ⊆ m.
Proof.
  induction fuel as [|fuel IH]; intros id m m'; simpl; [discriminate|].
  destruct (m !! id) as [node|]; [|intros [= <-]; reflexivity].
  generalize (n_children node). clear node.
  intros cs. revert m. induction cs as [|c cs IHcs]; intros m.
  - intros [= <-]; reflexivity.
  - destruct (Store.deleteChildren fuel c m) as [acc|] eqn:E; [|discriminate].
    intros Hrun. etrans; [apply (IHcs _ Hrun)|].
    etrans; [apply delete_subseteq|]. eapply IH, E.
Qed.

Lemma acyclic_subseteq rank (m m' : gmap string ChatNode) :
  acyclic rank m → m' ⊆ m → acyclic rank m'.
Proof.
  intros Hr Hsub k n c Hk Hc. eapply Hr; [|exact Hc].
  eapply lookup_weaken; eauto.
Qed.

(** On a map without cycles [deleteChildren] returns, given enough fuel. *)
Lemma deleteChildren_returns rank fuel :
  ∀ id (m : gmap string ChatNode),
    acyclic rank m → (rank id < fuel)%nat →
    is_Some (Store.deleteChildren fuel id m).
Proof.
  induction fuel as [|fuel IH]; intros id m Hr Hlt; [lia|].
  simpl. destruct (m !! id) as [node|] eqn:Hn; [|eexists; reflexivity].
  assert (∀ c, c ∈ n_children node → (rank c < fuel)%nat) as Hcs.
  { intros c Hc. specialize (Hr _ _ _ Hn Hc). lia. }
  clear Hn. revert m Hr Hcs. generalize (n_children node). clear node.
  intros cs. induction cs as [|c cs IHcs]; intros m Hr Hcs.
  - eexists; reflexivity.
  - destruct (IH c m Hr (Hcs c ltac:(left))) as [acc Hacc].
    rewrite Hacc. apply IHcs.
    + eapply acyclic_subseteq; [exact Hr|].
      etrans; [apply delete_subseteq|].
      eapply deleteChildren_subseteq, Hacc.
    + intros d Hd. apply Hcs. right. exact Hd.
Qed.

Lemma deleteChildren_each_returns rank fuel cs :
  ∀ (m : gmap string ChatNode),
    acyclic rank m → (∀ c, c ∈ cs → (rank c < fuel)%nat) →
    is_Some (Store.deleteChildren_each fuel cs m).
Proof.
  induction cs as [|c cs IH]; intros m Hr Hcs; [eexists; reflexivity|].
  simpl.
  destruct (deleteChildren_returns rank fuel c m Hr (Hcs c ltac:(left)))
    as [acc Hacc].
  rewrite Hacc. apply IH.
  - eapply acyclic_subseteq; [exact Hr|].
    eapply deleteChildren_subseteq, Hacc.
  - intros d Hd. apply Hcs. right. exact Hd.
Qed.

(** On a session without cycles [deleteNode] returns, given enough fuel. *)
Lemma deleteNode_returns api_ok rank fuel nodeId now w :
  acyclic rank (current_nodes w) → (rank nodeId < fuel)%nat →
  is_Some (Store.deleteNode api_ok fuel nodeId now w).
Proof.
  intros Hr Hlt. unfold Store.deleteNode.
  destruct (current (store w)) as [[sid session]|] eqn:Hcur;
    [|eexists; reflexivity].
  apply current_session in Hcur.
  unfold current_nodes in Hr. rewrite Hcur in Hr.
  destruct (s_nodes session !! nodeId) as [nodeToDelete|] eqn:Hn;
    [|eexists; reflexivity].
  assert (is_Some (Store.deleteNode_nodes fuel (s_nodes session) nodeId
                     nodeToDelete)) as [updatedNodes ->].
  { unfold Store.deleteNode_nodes. apply (deleteChildren_each_returns rank).
    - intros k n c Hk Hc.
      apply lookup_delete_Some in Hk as [_ Hk].
      destruct (n_parentId nodeToDelete) as [parentId|]; [|eauto].
      destruct (JS.truthy parentId); [|eauto].
      destruct (s_nodes session !! parentId) as [parent|] eqn:Hp; [|eauto].
      destruct (decide (parentId = k)) as [->|Hne].
      + rewrite lookup_insert_eq in Hk. injection Hk as <-.
        simpl in Hc. apply list_elem_of_filter in Hc as [_ Hc]. eauto.
      + rewrite lookup_insert_ne in Hk by exact Hne. eauto.
    - intros c Hc. specialize (Hr _ _ _ Hn Hc). lia. }
  unfold Store.call. destruct (api_ok _); eexists; reflexivity.
Qed.
(** ** Streaming: chunk merges and the end of a stream *)

Lemma append_assoc (a b c : string) : (a +:+ b) +:+ c = a +:+ (b +:+ c).
Proof.
  induction a as [|x a IH]; [reflexivity|].
  change (String x ((a +:+ b) +:+ c) = String x (a +:+ b +:+ c)).
  f_equal. exact IH.
Qed.

Lemma append_empty_r (a : string) : a +:+ "" = a.
Proof.
  induction a as [|x a IH]; [reflexivity|].
  change (String x (a +:+ "") = String x a). f_equal. exact IH.
Qed.

Lemma received_content_none arrivals :
  existsb is_content arrivals = false → received_content arrivals = "".
Proof.
  induction arrivals as [|[t [x|x]] r IH]; simpl; trivial. discriminate.
Qed.

Lemma received_thinking_none arrivals :
  existsb is_thinking arrivals = false → received_thinking arrivals = "".
Proof.
  induction arrivals as [|[t [x|x]] r IH]; simpl; trivial. discriminate.
Qed.

Lemma current_set_sessions st sid session ss session' :
  current st = Some (sid, session) →
  current (set_sessions st ss (Some session')) = Some (sid, session').
Proof.
  unfold current. simpl.
  destruct (currentSession st); [|discriminate].
  destruct (currentSessionId st) as [i|]; [|discriminate].
  destruct (JS.truthy i); [|discriminate]. congruence.
Qed.

(** [updateNode] on a node of the current session. *)
Lemma updateNode_present api_ok id u save now w sid session n :
  current (store w) = Some (sid, session) →
  s_nodes session !! id = Some n →
  let session' :=
    with_nodes session (<[id := spread n u]> (s_nodes session)) now in
  Store.updateNode api_ok id u save now w
  = {| store := set_sessions (store w)
                  (<[sid := session']> (sessions (store w))) (Some session');
       api_log := if save then api_log w ++ [api_updateSession session']
                  else api_log w;
       ai_log := ai_log w; alerts := alerts w |}.
Proof.
  intros Hcur Hn. unfold Store.updateNode. rewrite Hcur, Hn.
  destruct save; reflexivity.
Qed.

Lemma updateNode_unsaved_log api_ok id u now w :
  api_log (Store.updateNode api_ok id u false now w) = api_log w.
Proof.
  unfold Store.updateNode.
  destruct (current (store w)) as [[sid session]|]; [|reflexivity].
  destruct (s_nodes session !! id); reflexivity.
Qed.

Lemma onChunk_log api_ok arrival lw :
  api_log (snd (onChunk api_ok arrival lw)) = api_log (snd lw).
Proof.
  destruct lw as [l w], arrival as [now [text|text]]; simpl;
    apply updateNode_unsaved_log.
Qed.

(** No chunk of a stream reaches the persistence collaborator. *)
Lemma stream_log api_ok arrivals :
  ∀ lw, api_log (snd (stream api_ok arrivals lw)) = api_log (snd lw).
Proof.
  unfold stream. induction arrivals as [|a rest IH]; intros lw; simpl.
  - reflexivity.
  - rewrite IH. apply onChunk_log.
Qed.

Lemma stream_spec api_ok arrivals :
  ∀ l w sid session n,
    current (store w) = Some (sid, session) →
    s_nodes session !! conversationNodeId l = Some n →
    ∃ l' w' session' n',
      stream api_ok arrivals (l, w) = (l', w')
      ∧ current (store w') = Some (sid, session')
      ∧ s_nodes session' = <[conversationNodeId l := n']> (s_nodes session)
      ∧ api_log w' = api_log w ∧ ai_log w' = ai_log w ∧ alerts w' = alerts w
      ∧ selectedNodeId (store w') = selectedNodeId (store w)
      ∧ conversationNodeId l' = conversationNodeId l
      ∧ baseY l' = baseY l ∧ userMessage l' = userMessage l
      ∧ streamedContent l' = streamedContent l +:+ received_content arrivals
      ∧ streamedThinking l' = streamedThinking l +:+ received_thinking arrivals
      ∧ n_assistantMessage n'
        = (if existsb is_content arrivals then Some (streamedContent l')
           else n_assistantMessage n)
      ∧ n_thinkingContent n'
        = (if existsb is_thinking arrivals then Some (streamedThinking l')
           else n_thinkingContent n)
      ∧ same_frame n n'.
Proof.
  unfold stream.
  induction arrivals as [|[now chunk] rest IH]; intros l w sid session n Hcur Hn.
  - exists l, w, session, n. simpl.
    rewrite !append_empty_r. rewrite insert_id by exact Hn.
    unfold same_frame. repeat split; trivial.
  - simpl. destruct chunk as [text|text];
      rewrite (updateNode_present _ _ _ _ _ _ sid session n Hcur Hn);
      match goal with
      | |- context [fold_left _ rest (?l1, ?w1)] =>
          match w1 with
          | context [with_nodes session (<[_ := ?n1]> _) now] =>
              destruct (IH l1 w1 sid
                          (with_nodes session
                             (<[conversationNodeId l := n1]> (s_nodes session))
                             now) n1)
                as (l' & w' & session' & n' & Hrun & Hcur' & Hnodes & Hlog & Hai
                    & Hal & Hsel & Hid & Hy & Hum & Hsc & Hst & Ham & Htc & Hfr);
              [ simpl; eapply current_set_sessions; eauto
              | simpl; apply lookup_insert_eq
              | exists l', w', session', n' ]
          end
      end;
      simpl in *; rewrite Hrun, Hnodes, insert_insert_eq;
      destruct Hfr as (? & ? & ? & ? & ? & ?);
      unfold same_frame; repeat split; trivial.
    + rewrite Hst. apply append_assoc.
    + rewrite Htc. destruct (existsb is_thinking rest) eqn:E.
      * reflexivity.
      * rewrite Hst, (received_thinking_none rest E), append_empty_r.
        reflexivity.
    + rewrite Hsc. apply append_assoc.
    + rewrite Ham. destruct (existsb is_content rest) eqn:E.
      * reflexivity.
      * rewrite Hsc, (received_content_none rest E), append_empty_r.
        reflexivity.
Qed.

Lemma received_content_some arrivals :
  JS.truthy (received_content arrivals) = true →
  existsb is_content arrivals = true.
Proof.
  intros H. destruct (existsb is_content arrivals) eqn:E; [reflexivity|].
  rewrite (received_content_none arrivals E) in H. discriminate.
Qed.

(** [addNode], awaited, when there is a current session. *)
Lemma addNode_present api_ok node now w sid session :
  current (store w) = Some (sid, session) →
  let session' :=
    with_nodes session (Store.addNode_nodes (s_nodes session) node) now in
  Store.addNode api_ok node now w
  = {| store := if api_ok (List.length (api_log w))
                then set_sessions (store w)
                       (<[sid := session']> (sessions (store w)))
                       (Some session')
                else store w;
       api_log := api_log w ++ [api_updateSession session'];
       ai_log := ai_log w; alerts := alerts w |}.
Proof.
  intros Hcur. unfold Store.addNode, Store.addNode_request. rewrite Hcur.
  unfold Store.call. simpl. destruct (api_ok _); reflexivity.
Qed.


(** The end of a cancelled stream that has delivered some text. *)
Lemma cancel_with_content api_ok node clock arrivals message l w sid session n :
  current (store w) = Some (sid, session) →
  s_nodes session !! conversationNodeId l = Some n →
  JS.truthy (conversationNodeId l) = true →
  JS.truthy (streamedContent l +:+ received_content arrivals) = true →
  let cid := conversationNodeId l in
  let text := (streamedContent l +:+ received_content arrivals) +:+ stop_mark in
  let w' :=
    handleSend_end api_ok node clock (rejected (an_Error "AbortError" message))
                   (stream api_ok arrivals (l, w)) in
  ∃ l' s1 n1,
    fst (stream api_ok arrivals (l, w)) = l'
    ∧ s_nodes s1 = <[cid := n1]> (s_nodes session)
    ∧ n_assistantMessage n1 = Some text
    ∧ n_children n1 = n_children n
    ∧ n_id n1 = n_id n
    ∧ let child := newInputNode node l' (at_input_again clock) in
      let s2 :=
        with_nodes s1 (Store.addNode_nodes (s_nodes s1) child)
                   (at_input_again clock) in
      api_log w' = (api_log w ++ [api_updateSession s1; api_updateSession s2])%list
      ∧ n_parentId child = Some cid
      ∧ currentSession (store w')
        = Some (if api_ok (S (List.length (api_log w))) then s2 else s1)
      ∧ selectedNodeId (store w') = Some (n_id child)
      ∧ alerts w' = alerts w.
Proof.
  intros Hcur Hn Htid Htext cid text w'.
  destruct (stream_spec api_ok arrivals l w sid session n Hcur Hn)
    as (l' & w1 & session' & n' & Hrun & Hcur' & Hnodes & Hlog & Hai
        & Hal & Hsel & Hid & Hy & Hum & Hsc & Hst & Ham & Htc & Hfr).
  destruct Hfr as (Hfid & Hfty & Hfc & Hfp & Hfch & Hfum).
  assert (s_nodes session' !! conversationNodeId l' = Some n') as Hn'.
  { rewrite Hid, Hnodes. apply lookup_insert_eq. }
  subst w'. rewrite Hrun. unfold handleSend_end.
  change (String.eqb "AbortError" "AbortError") with true. cbv iota.
  rewrite Hid, Htid, Hsc, Htext. cbv iota. simpl andb. cbv iota.
  rewrite <- Hid.
  rewrite (updateNode_present _ _ _ _ _ _ sid session' n' Hcur' Hn').
  unfold continue_with_input. rewrite Hid, Htid.
  match goal with
  | |- context [Store.addNode api_ok ?c ?t ?wx] =>
      match wx with
      | context [Some ?s1] =>
          rewrite (addNode_present api_ok c t wx sid s1)
            by (simpl; eapply current_set_sessions; eauto);
          exists l', s1, (spread n' (set_final ((streamedContent l +:+ received_content arrivals) +:+ stop_mark)
                  (if JS.truthy (streamedThinking l') then Some (streamedThinking l') else None)
                  (at_end clock)))
      end
  end.
  simpl. rewrite Hnodes, insert_insert_eq, Hlog, Hal, Hid.
  rewrite length_app, Nat.add_comm. simpl.
  repeat split; trivial.
  - rewrite <- app_assoc. reflexivity.
  - destruct (api_ok (S (List.length (api_log w)))); reflexivity.
Qed.

Lemma addNode_request_present st node now sid session :
  current st = Some (sid, session) →
  Store.addNode_request st node now
  = Some (sessions st, sid,
          with_nodes session (Store.addNode_nodes (s_nodes session) node) now).
Proof. intros Hcur. unfold Store.addNode_request. rewrite Hcur. reflexivity. Qed.

Lemma current_set_selected st sel : current (set_selected st sel) = current st.
Proof. reflexivity. Qed.

(** The end of a completed stream, step by step. *)
Lemma complete_end api_ok node clock response l w sid session n :
  current (store w) = Some (sid, session) →
  s_nodes session !! conversationNodeId l = Some n →
  JS.truthy (conversationNodeId l) = true →
  let s1 :=
    with_nodes session
      (<[conversationNodeId l :=
           spread n (set_final (r_content response)
                               (r_thinkingContent response) (at_end clock))]>
         (s_nodes session)) (at_end clock) in
  let s2 :=
    with_nodes s1
      (Store.addNode_nodes (s_nodes s1) (newInputNode node l (at_input clock)))
      (at_input clock) in
  let s3 :=
    with_nodes s1
      (Store.addNode_nodes (s_nodes s1)
         (newInputNode node l (at_input_again clock)))
      (at_input_again clock) in
  let w' := handleSend_end api_ok node clock (resolved response) (l, w) in
  api_log w'
  = (api_log w
     ++ [api_updateSession s1; api_updateSession s2; api_updateSession s3])%list
  ∧ selectedNodeId (store w')
    = Some (JS.with_number "input-" (at_input_again clock))
  ∧ currentSession (store w')
    = Some (if api_ok (S (S (List.length (api_log w)))) then s3
            else if api_ok (S (List.length (api_log w))) then s2 else s1)
  ∧ ai_log w' = ai_log w ∧ alerts w' = alerts w.
Proof.
  intros Hcur Hn Htid s1 s2 s3 w'. subst w'. unfold handleSend_end.
  rewrite (updateNode_present _ _ _ _ _ _ sid session n Hcur Hn).
  fold s1.
  match goal with
  | |- context [Store.addNode_request (store ?wx) ?c ?t] =>
      assert (current (store wx) = Some (sid, s1)) as Hcur1
        by (simpl; eapply current_set_sessions; eauto);
      rewrite (addNode_request_present (store wx) c t sid s1 Hcur1)
  end.
  cbv zeta. unfold Store.call. cbv beta iota. rewrite Htid.
  match goal with
  | |- context [Store.addNode_request (store ?wx) ?c ?t] =>
      rewrite (addNode_request_present (store wx) c t sid s1) by exact Hcur1
  end.
  cbv beta iota zeta. simpl. fold s2 s3.
  rewrite !length_app. simpl.
  replace (List.length (api_log w) + 1)%nat with (S (List.length (api_log w)))
    by lia.
  replace (S (List.length (api_log w)) + 1)%nat
    with (S (S (List.length (api_log w)))) by lia.
  split; [rewrite <- !app_assoc; reflexivity|].
  destruct (api_ok (S (S (List.length (api_log w)))));
    destruct (api_ok (S (List.length (api_log w))));
    repeat split; reflexivity.
Qed.

(** The end of a cancelled stream that has delivered no text. *)
Lemma cancel_without_content api_ok node clock arrivals message l w :
  JS.truthy (streamedContent (fst (stream api_ok arrivals (l, w)))) = false →
  handleSend_end api_ok node clock (rejected (an_Error "AbortError" message))
                 (stream api_ok arrivals (l, w))
  = snd (stream api_ok arrivals (l, w)).
Proof.
  intros Hempty. destruct (stream api_ok arrivals (l, w)) as [l' w'].
  simpl in *. rewrite Hempty. rewrite andb_false_r. reflexivity.
Qed.

(** [updateSessionTitle] keeps the nodes of the current session when the
    store lists the current session under its id. *)
Lemma updateSessionTitle_current api_ok sessionId title now w sid session :
  current (store w) = Some (sid, session) →
  sessions (store w) !! sid = Some session →
  ∃ session',
    current (store (Store.updateSessionTitle api_ok sessionId title now w))
    = Some (sid, session')
    ∧ s_nodes session' = s_nodes session
    ∧ ai_log (Store.updateSessionTitle api_ok sessionId title now w) = ai_log w
    ∧ alerts (Store.updateSessionTitle api_ok sessionId title now w) = alerts w.
Proof.
  intros Hcur Hlisted. unfold Store.updateSessionTitle.
  destruct (sessions (store w) !! sessionId) as [s|] eqn:Hs;
    [|exists session; repeat split; trivial].
  unfold Store.call. cbv beta iota zeta.
  destruct (api_ok _); [|exists session; repeat split; trivial].
  cbn [store with_store ai_log alerts].
  destruct (decide (currentSessionId (store w) = Some sessionId)) as [Heq|Hne].
  - assert (sessionId = sid) as ->.
    { unfold current in Hcur. rewrite Heq in Hcur.
      destruct (currentSession (store w)); [|discriminate].
      destruct (JS.truthy sessionId); congruence. }
    assert (s = session) as -> by congruence.
    exists (with_title session title now).
    split; [eapply current_set_sessions; eauto|]. repeat split; trivial.
  - exists session. split; [|repeat split; trivial].
    unfold current in *. simpl.
    destruct (currentSession (store w)); [|discriminate]. exact Hcur.
Qed.

(** The start of [handleSend] on an input node of the current session: the
    node becomes a conversation node that holds the trimmed text of the
    user and no text of the assistant, and nothing has been streamed. *)
Lemma handleSend_begin_input api_ok node input_text modelToUse fuel now
    w sid session n l w1 :
  n_type node = input →
  current (store w) = Some (sid, session) →
  s_nodes session !! n_id node = Some n →
  handleSend_begin api_ok node input_text modelToUse fuel now w = inr (l, w1) →
  conversationNodeId l = n_id node
  ∧ streamedContent l = "" ∧ streamedThinking l = ""
  ∧ userMessage l = JS.trim input_text
  ∧ ∃ session1 n1,
      current (store w1) = Some (sid, session1)
      ∧ s_nodes session1 !! n_id node = Some n1
      ∧ n_type n1 = conversation
      ∧ n_userMessage n1 = Some (JS.trim input_text)
      ∧ n_assistantMessage n1 = None
      ∧ n_children n1 = n_children n.
Proof.
  intros Htype Hcur Hn. unfold handleSend_begin.
  rewrite (current_session _ _ _ Hcur).
  destruct (negb (JS.truthy (JS.trim input_text))); [discriminate|].
  destruct modelToUse as [model|]; [|discriminate].
  rewrite Htype.
  rewrite (updateNode_present _ _ _ _ _ _ sid session n Hcur Hn).
  match goal with
  | |- context [if ?c then Store.updateSessionTitle _ ?i ?t ?nw ?wx else _] =>
      set (w0 := wx);
      assert (∃ session', current (store (if c then
                  Store.updateSessionTitle api_ok i t nw w0 else w0))
                = Some (sid, session')
                ∧ s_nodes session'
                  = <[n_id node :=
                        spread n (to_conversation (JS.trim input_text)
                                    (quotedContent (store w))
                                    (model_label model) now)]> (s_nodes session))
        as (session' & Hcur' & Hnodes')
  end.
  { destruct (_ && _).
    - destruct (updateSessionTitle_current api_ok (s_id session)
                  (if Z.ltb 30 (JS.length (JS.trim input_text))
                   then JS.slice0 30 (JS.trim input_text) +:+ "..."
                   else JS.trim input_text) now w0 sid
                  (with_nodes session
                     (<[n_id node :=
                          spread n (to_conversation (JS.trim input_text)
                                      (quotedContent (store w))
                                      (model_label model) now)]>
                        (s_nodes session)) now))
        as (s' & Hc & Hs & _).
      + subst w0. simpl. eapply current_set_sessions; eauto.
      + subst w0. simpl. apply lookup_insert_eq.
      + exists s'. split; [exact Hc|]. rewrite Hs. reflexivity.
    - eexists. split; [subst w0; simpl; eapply current_set_sessions; eauto|].
      reflexivity. }
  cbv zeta.
  destruct (Store.getConversationPath _ _); [|discriminate].
  intros [= <- <-]. cbn [conversationNodeId streamedContent streamedThinking
                         userMessage].
  repeat split; trivial.
  exists session'. eexists. split; [exact Hcur'|].
  rewrite Hnodes', lookup_insert_eq. split; [reflexivity|].
  repeat split; reflexivity.
Qed.

(** C6.  When the request fails (the error is not the abort of the user),
    [handleSend] leaves the store as the chunks left it: no node is added,
    the node keeps its children and the text merged so far, nothing is
    saved, and the failure is shown with [alert]. *)
Theorem failure_keeps_merged_content api_ok node clock arrivals error
    l w sid session n :
  current (store w) = Some (sid, session) →
  s_nodes session !! conversationNodeId l = Some n →
  is_abort error = false →
  let streamed := stream api_ok arrivals (l, w) in
  let w' := handleSend_end api_ok node clock (rejected error) streamed in
  store w' = store (snd streamed)
  ∧ api_log w' = api_log w
  ∧ alerts w' = (alerts w ++ [failure_text error])%list
  ∧ dom (current_nodes w') = dom (s_nodes session)
  ∧ ∃ n', current_nodes w' !! conversationNodeId l = Some n'
          ∧ n_children n' = n_children n
          ∧ n_assistantMessage n'
            = (if existsb is_content arrivals
               then Some (streamedContent l +:+ received_content arrivals)
               else n_assistantMessage n).
Proof.
  intros Hcur Hn Hfail streamed w'.
  destruct (stream_spec api_ok arrivals l w sid session n Hcur Hn)
    as (l' & w1 & session' & n' & Hrun & Hcur' & Hnodes & Hlog & Hai
        & Hal & Hsel & Hid & Hy & Hum & Hsc & Hst & Ham & Htc & Hfr).
  subst w' streamed. rewrite Hrun. simpl.
  assert (current_nodes w1 = <[conversationNodeId l := n']> (s_nodes session))
    as Hmem.
  { unfold current_nodes. rewrite (current_session _ _ _ Hcur'). exact Hnodes. }
  assert (∀ v, store (with_alert w1 v) = store w1) as Hst1 by reflexivity.
  assert (∀ v, current_nodes (with_alert w1 v) = current_nodes w1) as Hcn
    by reflexivity.
  destruct error as [name message|]; simpl in Hfail |- *.
  - rewrite Hfail. rewrite Hcn, Hmem. simpl. rewrite Hlog, Hal.
    repeat split; trivial.
    + rewrite dom_insert_L. apply subseteq_union_1_L, singleton_subseteq_l.
      eapply elem_of_dom_2, Hn.
    + exists n'. rewrite lookup_insert_eq.
      destruct Hfr as (_ & _ & _ & _ & Hch & _).
      repeat split; trivial. rewrite Ham, Hsc. reflexivity.
  - rewrite Hcn, Hmem. simpl. rewrite Hlog, Hal.
    repeat split; trivial.
    + rewrite dom_insert_L. apply subseteq_union_1_L, singleton_subseteq_l.
      eapply elem_of_dom_2, Hn.
    + exists n'. rewrite lookup_insert_eq.
      destruct Hfr as (_ & _ & _ & _ & Hch & _).
      repeat split; trivial. rewrite Ham, Hsc. reflexivity.
Qed.

(** C4.  For a stream on a node of the current session: after any number of
    chunks the calls to [sessionAPI] are those made before the stream, and
    the node in the store holds the text merged so far; when the stream
    completes, [updateNode] makes one save, the first after the stream,
    which carries the text of the response, and the saves that follow it,
    one at least, are those [addNode] makes of that session with the new
    input node added; when the stream is cancelled with some text
    streamed, [updateNode] makes one save, which carries that text and the
    stop mark, and the [addNode] that follows makes one more; when it is
    cancelled with no text streamed, nothing is saved. *)
Theorem stream_saves_at_end api_ok node clock arrivals l w sid session n :
  current (store w) = Some (sid, session) →
  s_nodes session !! conversationNodeId l = Some n →
  JS.truthy (conversationNodeId l) = true →
  let cid := conversationNodeId l in
  (∀ k,
     let seen := take k arrivals in
     let streamed := stream api_ok seen (l, w) in
     api_log (snd streamed) = api_log w
     ∧ ∃ nk, current_nodes (snd streamed) !! cid = Some nk
         ∧ n_assistantMessage nk
           = (if existsb is_content seen
              then Some (streamedContent l +:+ received_content seen)
              else n_assistantMessage n)
         ∧ n_thinkingContent nk
           = (if existsb is_thinking seen
              then Some (streamedThinking l +:+ received_thinking seen)
              else n_thinkingContent n))
  ∧ (∀ response,
       let streamed := stream api_ok arrivals (l, w) in
       let w' := handleSend_end api_ok node clock (resolved response)
                                streamed in
       ∃ s1 later,
         api_log w' = (api_log w ++ api_updateSession s1 :: later)%list
         ∧ saved_text cid (api_updateSession s1)
           = Some (Some (r_content response))
         ∧ later ≠ []
         ∧ Forall
             (fun call =>
                ∃ now,
                  call
                  = api_updateSession
                      (with_nodes s1
                         (Store.addNode_nodes (s_nodes s1)
                            (newInputNode node (fst streamed) now))
                         now))
             later)
  ∧ (∀ message,
       let w' := handleSend_end api_ok node clock
                   (rejected (an_Error "AbortError" message))
                   (stream api_ok arrivals (l, w)) in
       let text := streamedContent l +:+ received_content arrivals in
       if JS.truthy text then
         ∃ s1 s2,
           api_log w'
           = (api_log w ++ [api_updateSession s1; api_updateSession s2])%list
           ∧ saved_text cid (api_updateSession s1)
             = Some (Some (text +:+ stop_mark))
       else api_log w' = api_log w).
Proof.
  intros Hcur Hn Htid cid. split; [|split].
  - intros k seen streamed.
    destruct (stream_spec api_ok seen l w sid session n Hcur Hn)
      as (l' & w1 & session' & n' & Hrun & Hcur' & Hnodes & Hlog & _
          & _ & _ & _ & _ & _ & Hsc & Hst & Ham & Htc & _).
    subst streamed. rewrite Hrun. simpl. split; [exact Hlog|].
    exists n'. unfold current_nodes.
    rewrite (current_session _ _ _ Hcur'), Hnodes, lookup_insert_eq.
    rewrite Ham, Htc, Hsc, Hst. repeat split; reflexivity.
  - intros response streamed w'.
    destruct (stream_spec api_ok arrivals l w sid session n Hcur Hn)
      as (l' & w1 & session' & n' & Hrun & Hcur' & Hnodes & Hlog & _
          & _ & _ & Hid & _).
    assert (s_nodes session' !! conversationNodeId l' = Some n') as Hn'.
    { rewrite Hid, Hnodes. apply lookup_insert_eq. }
    assert (JS.truthy (conversationNodeId l') = true) as Htid'
      by (rewrite Hid; exact Htid).
    destruct (complete_end api_ok node clock response l' w1 sid session' n'
                Hcur' Hn' Htid') as (Hend & _).
    subst w' streamed. rewrite Hrun. cbn [fst]. rewrite Hend, Hlog.
    eexists _, [_; _]. split; [reflexivity|].
    split; [|split; [discriminate|]].
    + cbn [saved_text s_nodes with_nodes]. unfold cid. rewrite <- Hid.
      rewrite lookup_insert_eq. reflexivity.
    + constructor; [eexists; reflexivity|].
      constructor; [eexists; reflexivity|constructor].
  - intros message w' text.
    destruct (JS.truthy text) eqn:Htext.
    + destruct (cancel_with_content api_ok node clock arrivals message l w
                  sid session n Hcur Hn Htid Htext)
        as (l' & s1 & n1 & _ & Hnodes & Ham & _ & _ & Hrest).
      cbv zeta in Hrest. destruct Hrest as (Hlog & _).
      eexists s1, _. split; [exact Hlog|].
      simpl. rewrite Hnodes. unfold cid. rewrite lookup_insert_eq. simpl.
      rewrite Ham. reflexivity.
    + subst w'. rewrite cancel_without_content.
      * apply stream_log.
      * destruct (stream_spec api_ok arrivals l w sid session n Hcur Hn)
          as (l' & w1 & session' & n' & Hrun & _ & _ & _ & _
              & _ & _ & _ & _ & _ & Hsc & _).
        rewrite Hrun. simpl. rewrite Hsc. exact Htext.
Qed.

(** C5.  When the user stops a stream that has delivered some text, the
    node keeps the text received so far with the stop mark appended,
    [updateNode] saves the session with that text, and then [addNode] saves
    it once more with a new input node under the node; the store holds the
    new node when that second save succeeds, and it is selected. *)
Theorem cancel_keeps_partial_output api_ok node clock arrivals message
    l w sid session n :
  current (store w) = Some (sid, session) →
  s_nodes session !! conversationNodeId l = Some n →
  JS.truthy (conversationNodeId l) = true →
  streamedContent l = "" →
  JS.truthy (received_content arrivals) = true →
  let cid := conversationNodeId l in
  let child := JS.with_number "input-" (at_input_again clock) in
  s_nodes session !! child = None →
  let text := received_content arrivals +:+ stop_mark in
  let w' := handleSend_end api_ok node clock
              (rejected (an_Error "AbortError" message))
              (stream api_ok arrivals (l, w)) in
  ∃ s1 s2,
    api_log w'
    = (api_log w ++ [api_updateSession s1; api_updateSession s2])%list
    ∧ saved_text cid (api_updateSession s1) = Some (Some text)
    ∧ s_nodes s1 !! child = None
    ∧ saved_text cid (api_updateSession s2) = Some (Some text)
    ∧ n_children <$> s_nodes s2 !! cid = Some (n_children n ++ [child])%list
    ∧ (∃ c, s_nodes s2 !! child = Some c ∧ n_type c = input
            ∧ n_parentId c = Some cid ∧ n_children c = [])
    ∧ n_assistantMessage <$> current_nodes w' !! cid = Some (Some text)
    ∧ (api_ok (S (List.length (api_log w))) = true →
       current_nodes w' = s_nodes s2)
    ∧ selectedNodeId (store w') = Some child.
Proof.
  intros Hcur Hn Htid Hstart Htext cid child Hfresh text w'.
  assert (JS.truthy (streamedContent l +:+ received_content arrivals) = true)
    as Htext' by (rewrite Hstart; exact Htext).
  destruct (cancel_with_content api_ok node clock arrivals message l w
              sid session n Hcur Hn Htid Htext')
    as (l' & s1 & n1 & _ & Hnodes & Ham & Hch & Hnid & Hrest).
  cbv zeta in Hrest. destruct Hrest as (Hlog & Hpar & Hstore & Hsel & _).
  fold w' in Hlog, Hstore, Hsel.
  rewrite Hstart in Ham. change ("" +:+ received_content arrivals)
    with (received_content arrivals) in Ham.
  assert (child ≠ cid) as Hne by (unfold cid; congruence).
  set (c := newInputNode node l' (at_input_again clock)) in *.
  assert (n_id c = child) as Hcid by reflexivity.
  assert (s_nodes s1 !! n_id c = None) as Hfresh1.
  { rewrite Hcid, Hnodes, lookup_insert_ne by congruence. exact Hfresh. }
  assert (s_nodes s1 !! cid = Some n1) as Hn1.
  { rewrite Hnodes. apply lookup_insert_eq. }
  pose proof (addNode_nodes_eq (s_nodes s1) c cid n1 Hfresh1 Hpar Hn1 Htid)
    as Hadd.
  set (s2 := with_nodes s1 (Store.addNode_nodes (s_nodes s1) c)
                        (at_input_again clock)) in *.
  assert (s_nodes s2 !! cid
          = Some (with_children n1 (n_children n1 ++ [n_id c]))) as Hs2.
  { unfold s2. simpl. rewrite Hadd. apply lookup_insert_eq. }
  exists s1, s2. split; [exact Hlog|].
  split; [unfold saved_text; rewrite Hn1; simpl; rewrite Ham; reflexivity|].
  split; [rewrite <- Hcid; exact Hfresh1|].
  split; [unfold saved_text; rewrite Hs2; simpl; rewrite Ham; reflexivity|].
  split; [rewrite Hs2; simpl; rewrite Hch; reflexivity|].
  split.
  { exists c. split.
    - unfold s2. simpl. rewrite Hadd, lookup_insert_ne by congruence.
      rewrite <- Hcid. apply lookup_insert_eq.
    - repeat split; trivial. }
  split.
  { unfold current_nodes. rewrite Hstore.
    destruct (api_ok _); [rewrite Hs2|rewrite Hn1]; simpl; rewrite Ham;
      reflexivity. }
  split; [|rewrite Hsel, Hcid; reflexivity].
  intros Hok. unfold current_nodes. rewrite Hstore, Hok. reflexivity.
Qed.

(** When the stream "Hel", "lo" completes, three saves follow it; when a
    stream is stopped after a thinking chunk and before any text, the chunk
    is in the store and no save follows. *)
Lemma stream_end_saves_not_one :
  List.length (saves_between (snd Scenario.sent) Scenario.completed) = 3%nat
  ∧ n_thinkingContent <$> current_nodes Scenario.cancelled_early !! "root"
    = Some (Some "hmm")
  ∧ saves_between (snd Scenario.sent) Scenario.cancelled_early = [].
Proof. repeat split; vm_compute; reflexivity. Qed.

Lemma stream_saves_at_end_witness :
  current (store (snd Scenario.sent))
  = Some (JS.with_number "session-" 1000, Scenario.session_of (snd Scenario.sent))
  ∧ s_nodes (Scenario.session_of (snd Scenario.sent)) !! "root"
    = Some (Scenario.node_of (snd Scenario.sent) "root")
  ∧ JS.truthy "root" = true
  ∧ api_log (snd (stream Scenario.always_ok Scenario.hel_lo Scenario.sent))
    = api_log (snd Scenario.sent).
Proof.
  assert (current (store (snd Scenario.sent))
          = Some (JS.with_number "session-" 1000,
                  Scenario.session_of (snd Scenario.sent))) as H1
    by (vm_compute; reflexivity).
  assert (s_nodes (Scenario.session_of (snd Scenario.sent))
            !! conversationNodeId (fst Scenario.sent)
          = Some (Scenario.node_of (snd Scenario.sent) "root")) as H2
    by (vm_compute; reflexivity).
  assert (JS.truthy (conversationNodeId (fst Scenario.sent)) = true) as H3
    by reflexivity.
  destruct (stream_saves_at_end Scenario.always_ok Scenario.root_node
              Scenario.clock Scenario.hel_lo (fst Scenario.sent)
              (snd Scenario.sent) _ _ _ H1 H2 H3) as (Hchunks & _ & _).
  split; [exact H1|]. split; [exact H2|]. split; [exact H3|].
  exact (proj1 (Hchunks 2%nat)).
Defined.

(** After the stream "Hel", "lo" is stopped, two saves follow, and each
    carries "Hello" with the stop mark. *)
Lemma cancel_saves_twice :
  saved_text "root" <$> saves_between (snd Scenario.sent) Scenario.cancelled
  = [Some (Some ("Hello" +:+ stop_mark)); Some (Some ("Hello" +:+ stop_mark))].
Proof. vm_compute. reflexivity. Qed.

Lemma cancel_keeps_partial_output_witness :
  current (store (snd Scenario.sent))
  = Some (JS.with_number "session-" 1000, Scenario.session_of (snd Scenario.sent))
  ∧ s_nodes (Scenario.session_of (snd Scenario.sent)) !! "root"
    = Some (Scenario.node_of (snd Scenario.sent) "root")
  ∧ JS.truthy "root" = true
  ∧ streamedContent (fst Scenario.sent) = ""
  ∧ JS.truthy (received_content Scenario.hel_lo) = true
  ∧ s_nodes (Scenario.session_of (snd Scenario.sent)) !! "input-3001" = None
  ∧ n_assistantMessage <$> current_nodes Scenario.cancelled !! "root"
    = Some (Some ("Hello" +:+ stop_mark))
  ∧ selectedNodeId (store Scenario.cancelled) = Some "input-3001".
Proof.
  assert (current (store (snd Scenario.sent))
          = Some (JS.with_number "session-" 1000,
                  Scenario.session_of (snd Scenario.sent))) as H1
    by (vm_compute; reflexivity).
  assert (s_nodes (Scenario.session_of (snd Scenario.sent))
            !! conversationNodeId (fst Scenario.sent)
          = Some (Scenario.node_of (snd Scenario.sent) "root")) as H2
    by (vm_compute; reflexivity).
  assert (JS.truthy (conversationNodeId (fst Scenario.sent)) = true) as H3
    by reflexivity.
  assert (streamedContent (fst Scenario.sent) = "") as H4 by reflexivity.
  assert (JS.truthy (received_content Scenario.hel_lo) = true) as H5
    by reflexivity.
  assert (s_nodes (Scenario.session_of (snd Scenario.sent))
            !! JS.with_number "input-" (at_input_again Scenario.clock) = None)
    as H6 by (vm_compute; reflexivity).
  destruct (cancel_keeps_partial_output Scenario.always_ok Scenario.root_node
              Scenario.clock Scenario.hel_lo "aborted" (fst Scenario.sent)
              (snd Scenario.sent) _ _ _ H1 H2 H3 H4 H5 H6)
    as (s1 & s2 & _ & _ & _ & _ & _ & _ & Hmem & _ & Hsel).
  split; [exact H1|]. split; [exact H2|]. split; [exact H3|].
  split; [exact H4|]. split; [exact H5|]. split; [exact H6|].
  split; [exact Hmem|exact Hsel].
Defined.

(** After the request fails behind the chunk "Hel", the node still holds
    "Hel". *)
Lemma failure_content_not_discarded :
  n_assistantMessage <$> current_nodes Scenario.failed !! "root"
  = Some (Some "Hel").
Proof. vm_compute. reflexivity. Qed.

Lemma failure_keeps_merged_content_witness :
  current (store (snd Scenario.sent))
  = Some (JS.with_number "session-" 1000, Scenario.session_of (snd Scenario.sent))
  ∧ s_nodes (Scenario.session_of (snd Scenario.sent)) !! "root"
    = Some (Scenario.node_of (snd Scenario.sent) "root")
  ∧ is_abort (an_Error "TypeError" "Failed to fetch") = false
  ∧ api_log Scenario.failed = api_log (snd Scenario.sent)
  ∧ alerts Scenario.failed = ["发送失败: Failed to fetch"].
Proof.
  assert (current (store (snd Scenario.sent))
          = Some (JS.with_number "session-" 1000,
                  Scenario.session_of (snd Scenario.sent))) as H1
    by (vm_compute; reflexivity).
  assert (s_nodes (Scenario.session_of (snd Scenario.sent))
            !! conversationNodeId (fst Scenario.sent)
          = Some (Scenario.node_of (snd Scenario.sent) "root")) as H2
    by (vm_compute; reflexivity).
  assert (is_abort (an_Error "TypeError" "Failed to fetch") = false) as H3
    by reflexivity.
  destruct (failure_keeps_merged_content Scenario.always_ok Scenario.root_node
              Scenario.clock [(2100, content_chunk "Hel")]
              (an_Error "TypeError" "Failed to fetch") (fst Scenario.sent)
              (snd Scenario.sent) _ _ _ H1 H2 H3)
    as (_ & Hlog & Hal & _).
  split; [exact H1|]. split; [exact H2|]. split; [exact H3|].
  split; [exact Hlog|exact Hal].
Defined.

(** The scenario of a first message: "Hi" is sent from the root of a new
    session, which becomes a conversation node without an assistant text;
    after the stream "Hel", "lo" completes with the response "Hello", the
    root holds "Hello" and has a new input node as its child. *)
Example first_message :
  (n_type (Scenario.node_of (snd Scenario.sent) "root"),
   n_userMessage (Scenario.node_of (snd Scenario.sent) "root"),
   n_assistantMessage (Scenario.node_of (snd Scenario.sent) "root"))
  = (conversation, Some "Hi", None)
  ∧ n_assistantMessage (Scenario.node_of Scenario.completed "root")
    = Some "Hello"
  ∧ n_children (Scenario.node_of Scenario.completed "root") = ["input-3001"]
  ∧ (n_type (Scenario.node_of Scenario.completed "input-3001"),
     n_parentId (Scenario.node_of Scenario.completed "input-3001"))
    = (input, Some "root").
Proof. repeat split; vm_compute; reflexivity. Qed.

(** ** Model configurations: the default flag *)

Lemma setDefaultModelConfig_lookup id table k :
  Database.setDefaultModelConfig id table !! k
  = (if decide (id = k) then Database.set_isDefault 1 else Database.set_isDefault 0)
      <$> table !! k.
Proof.
  unfold Database.setDefaultModelConfig.
  rewrite lookup_alter. case_decide.
  - subst. rewrite lookup_fmap. destruct (table !! k); reflexivity.
  - rewrite lookup_fmap. reflexivity.
Qed.

(** C9.  For a configuration B of the table, [setDefaultModelConfig B]
    leaves B as the one configuration with the default flag: a row has the
    flag exactly when it is the row of B, the rows selected by
    [isDefault = 1] are that of B alone, and no row is added or removed. *)
Theorem setDefaultModelConfig_exclusive
    (table : gmap string Database.ModelConfigRow) (B : string) :
  is_Some (table !! B) →
  (∀ id row, Database.setDefaultModelConfig B table !! id = Some row →
     (Database.isDefault row = true ↔ id = B))
  ∧ Database.default_ids (Database.setDefaultModelConfig B table) = [B]
  ∧ dom (Database.setDefaultModelConfig B table) = dom table.
Proof.
  intros [rowB HB].
  assert (∀ id row, Database.setDefaultModelConfig B table !! id = Some row →
     (Database.isDefault row = true ↔ id = B)) as Hflag.
  { intros id row. rewrite setDefaultModelConfig_lookup.
    destruct (table !! id) as [r|]; [|discriminate]. simpl.
    case_decide; intros [= <-]; unfold Database.isDefault; simpl;
      split; congruence. }
  split; [exact Hflag|]. split.
  - unfold Database.default_ids.
    assert (filter (λ kv, Database.isDefault kv.2 = true)
              (Database.setDefaultModelConfig B table)
            = {[B := Database.set_isDefault 1 rowB]}) as ->.
    { apply map_eq. intros k.
      destruct (decide (k = B)) as [->|Hne].
      - rewrite lookup_singleton_eq. apply map_lookup_filter_Some. split.
        + rewrite setDefaultModelConfig_lookup, HB. simpl.
          case_decide; congruence.
        + reflexivity.
      - rewrite lookup_singleton_ne by congruence.
        apply map_lookup_filter_None. right. intros row Hrow Hdef.
        simpl in Hdef. apply (Hflag k row Hrow) in Hdef. congruence. }
    rewrite map_to_list_singleton. reflexivity.
  - apply set_eq. intros k. rewrite !elem_of_dom.
    rewrite setDefaultModelConfig_lookup. rewrite fmap_is_Some. reflexivity.
Qed.

Lemma setDefaultModelConfig_exclusive_witness :
  is_Some (Scenario.table_A_default !! "B")
  ∧ Database.default_ids Scenario.table_A_default = ["A"]
  ∧ Database.default_ids
      (Database.setDefaultModelConfig "B" Scenario.table_A_default) = ["B"].
Proof.
  assert (is_Some (Scenario.table_A_default !! "B")) as HB
    by (eexists; vm_compute; reflexivity).
  split; [exact HB|]. split; [vm_compute; reflexivity|].
  exact (proj1 (proj2 (setDefaultModelConfig_exclusive
                         Scenario.table_A_default "B" HB))).
Defined.

(** ** Layout engine *)

Lemma LayoutNode_forall_ind (P : LayoutNode → Prop) :
  (∀ t, Forall P (ln_children t) → P t) → ∀ t, P t.
Proof.
  intros step. fix IH 1. intros [id node children depth x y width height].
  apply step. simpl. induction children as [|c cs IHcs]; constructor.
  - apply IH.
  - exact IHcs.
Qed.

Lemma sumZ_from (l : list Z) (a : Z) : fold_left Z.add l a = a + sumZ l.
Proof.
  unfold sumZ. revert a. induction l as [|x l IH]; intros a; simpl; [lia|].
  rewrite IH, (IH (0 + x)). lia.
Qed.

Lemma sumZ_cons x l : sumZ (x :: l) = x + sumZ l.
Proof. unfold sumZ. simpl. rewrite sumZ_from. unfold sumZ. lia. Qed.

Lemma sum_widths hs (l : list LayoutNode) : ∀ acc,
  (fix sum (cs0 : list LayoutNode) (acc0 : Z) {struct cs0} : Z :=
     match cs0 with
     | [] => acc0
     | child :: cs' => sum cs' (acc0 + calculateSubtreeWidth child hs)
     end) l acc
  = acc + sumZ (map (fun c => calculateSubtreeWidth c hs) l).
Proof.
  induction l as [|a l IH]; intros acc.
  - unfold sumZ. simpl. lia.
  - cbn [map]. rewrite sumZ_cons, IH. lia.
Qed.

Lemma calculateSubtreeWidth_eq t hs :
  calculateSubtreeWidth t hs
  = match ln_children t with
    | [] => ln_width t
    | _ :: _ => Z.max (ln_width t) (totalWidth hs (ln_children t))
    end.
Proof.
  destruct t as [id node children depth x y width height].
  destruct children as [|c cs]; [reflexivity|].
  cbn [ln_children ln_width]. unfold totalWidth.
  rewrite <- (Z.add_0_l (sumZ _)), <- sum_widths. reflexivity.
Qed.

Lemma layoutTree_eq t x y depth hs vs :
  layoutTree t x y depth hs vs
  = {| ln_id := ln_id t; ln_node := ln_node t;
       ln_children :=
         place (fun child cx =>
                  layoutTree child cx (y + ln_height t + vs) (depth + 1) hs vs)
               hs (ln_children t) (x - totalWidth hs (ln_children t) / 2);
       ln_depth := depth; ln_x := x; ln_y := y;
       ln_width := ln_width t; ln_height := ln_height t |}.
Proof. destruct t. reflexivity. Qed.

Lemma collectPositions_eq t positions :
  collectPositions t positions
  = fold_left (fun acc child => collectPositions child acc) (ln_children t)
      (<[ln_id t := {| px := ln_x t; py := ln_y t |}]> positions).
Proof.
  destruct t as [id node children depth x y width height]. simpl.
  generalize (<[id := {| px := x; py := y |}]> positions).
  induction children as [|c cs IH]; intros acc; simpl; [reflexivity|].
  apply IH.
Qed.

Lemma subtree_nodes_eq t :
  subtree_nodes t = t :: flat_map subtree_nodes (ln_children t).
Proof. destruct t. reflexivity. Qed.

Lemma place_length f hs cs : ∀ X, List.length (place f hs cs X) = List.length cs.
Proof. induction cs as [|c cs IH]; intros X; simpl; [reflexivity|]. now rewrite IH. Qed.

Lemma place_lookup f hs cs : ∀ X k c,
  cs !! k = Some c →
  place f hs cs X !! k
  = Some (f c (X + offset hs k cs + calculateSubtreeWidth c hs / 2)).
Proof.
  induction cs as [|a cs IH]; intros X k c Hk; [discriminate|].
  destruct k as [|k].
  - simpl in Hk. injection Hk as ->. simpl. unfold offset. simpl.
    unfold sumZ. simpl. do 3 f_equal. lia.
  - simpl in Hk. simpl. rewrite (IH _ k c Hk). unfold offset. simpl.
    rewrite sumZ_cons. do 3 f_equal. lia.
Qed.

Lemma place_lookup_inv f hs cs : ∀ X k c',
  place f hs cs X !! k = Some c' →
  ∃ c, cs !! k = Some c
       ∧ c' = f c (X + offset hs k cs + calculateSubtreeWidth c hs / 2).
Proof.
  intros X k c' Hk.
  destruct (cs !! k) as [c|] eqn:E.
  - exists c. split; [reflexivity|].
    rewrite (place_lookup f hs cs X k c E) in Hk. congruence.
  - apply lookup_ge_None in E. rewrite <- (place_length f hs cs X) in E.
    apply lookup_ge_None in E. congruence.
Qed.

(** Placing a tree changes neither its shape nor its widths. *)
Lemma layoutTree_width t : ∀ x y depth hs vs hs',
  calculateSubtreeWidth (layoutTree t x y depth hs vs) hs'
  = calculateSubtreeWidth t hs'.
Proof.
  induction t as [t IH] using LayoutNode_forall_ind.
  intros x y depth hs vs hs'.
  rewrite (calculateSubtreeWidth_eq (layoutTree _ _ _ _ _ _)),
    (calculateSubtreeWidth_eq t), layoutTree_eq.
  cbn [ln_children ln_width].
  set (f := fun child cx => layoutTree child cx _ _ hs vs).
  assert (∀ X, map (fun c => calculateSubtreeWidth c hs')
                   (place f hs (ln_children t) X)
               = map (fun c => calculateSubtreeWidth c hs') (ln_children t))
    as Hmap.
  { induction IH as [|c cs Hc _ IHcs]; intros X; simpl; [reflexivity|].
    rewrite IHcs. unfold f at 1. rewrite Hc. reflexivity. }
  unfold totalWidth. rewrite Hmap, place_length.
  destruct (ln_children t) as [|c cs]; reflexivity.
Qed.

Lemma place_widths f hs hs' cs :
  (∀ c cx, calculateSubtreeWidth (f c cx) hs' = calculateSubtreeWidth c hs') →
  ∀ X, map (fun c => calculateSubtreeWidth c hs') (place f hs cs X)
       = map (fun c => calculateSubtreeWidth c hs') cs.
Proof.
  intros Hf. induction cs as [|c cs IH]; intros X; simpl; [reflexivity|].
  rewrite IH, Hf. reflexivity.
Qed.

Lemma totalWidth_place f hs hs' cs X :
  (∀ c cx, calculateSubtreeWidth (f c cx) hs' = calculateSubtreeWidth c hs') →
  totalWidth hs' (place f hs cs X) = totalWidth hs' cs.
Proof.
  intros Hf. unfold totalWidth. rewrite place_widths, place_length by exact Hf.
  reflexivity.
Qed.

Lemma take_place f hs cs : ∀ X k,
  take k (place f hs cs X) = place f hs (take k cs) X.
Proof.
  induction cs as [|c cs IH]; intros X k; destruct k; simpl; trivial.
  now rewrite IH.
Qed.

Lemma offset_place f hs hs' cs X k :
  (∀ c cx, calculateSubtreeWidth (f c cx) hs' = calculateSubtreeWidth c hs') →
  offset hs' k (place f hs cs X) = offset hs' k cs.
Proof.
  intros Hf. unfold offset. rewrite take_place.
  f_equal. generalize (take k cs). intros l. revert X.
  induction l as [|c l IH]; intros X; simpl; [reflexivity|].
  rewrite IH, Hf. reflexivity.
Qed.

(** Every node of a placed tree has its children arranged under it. *)
Lemma layoutTree_arranged t : ∀ x y depth hs vs,
  Forall (arranged_at hs) (subtree_nodes (layoutTree t x y depth hs vs)).
Proof.
  induction t as [t IH] using LayoutNode_forall_ind.
  intros x y depth hs vs.
  rewrite subtree_nodes_eq, layoutTree_eq. cbn [ln_children].
  set (f := fun child cx => layoutTree child cx _ _ hs vs).
  assert (∀ c cx, calculateSubtreeWidth (f c cx) hs
                  = calculateSubtreeWidth c hs) as Hf
    by (intros; apply layoutTree_width).
  constructor.
  - intros k c' Hk. cbn [ln_children ln_x] in *.
    apply place_lookup_inv in Hk as (c & Hc & ->).
    rewrite totalWidth_place, offset_place, Hf by exact Hf.
    unfold f. rewrite layoutTree_eq. reflexivity.
  - generalize (x - totalWidth hs (ln_children t) / 2).
    induction IH as [|c cs Hc _ IHcs]; intros X; simpl; [constructor|].
    apply Forall_app. split; [apply Hc|apply IHcs].
Qed.

Lemma uniform_children t :
  uniform t → ln_width t = 600 ∧ Forall uniform (ln_children t).
Proof.
  unfold uniform. rewrite subtree_nodes_eq. intros H.
  apply Forall_cons in H as [Hw H]. split; [exact Hw|].
  induction (ln_children t) as [|c cs IH]; [constructor|].
  simpl in H. apply Forall_app in H as [Hc Hcs].
  constructor; [exact Hc|apply IH, Hcs].
Qed.

Lemma sumZ_lower (f : LayoutNode → Z) (b : Z) cs :
  Forall (fun c => b ≤ f c) cs → Z.of_nat (List.length cs) * b ≤ sumZ (map f cs).
Proof.
  induction 1 as [|c cs Hc _ IH]; [unfold sumZ; simpl; lia|].
  cbn [map List.length]. rewrite sumZ_cons. lia.
Qed.

(** In a tree whose boxes are 600 wide, a subtree is at least 600 wide, and
    a node with children is as wide as its children side by side. *)
Lemma width_uniform hs t :
  0 ≤ hs → uniform t →
  600 ≤ calculateSubtreeWidth t hs
  ∧ (ln_children t ≠ [] →
     calculateSubtreeWidth t hs = totalWidth hs (ln_children t)).
Proof.
  intros Hhs. induction t as [t IH] using LayoutNode_forall_ind.
  intros Hu. apply uniform_children in Hu as [Hw Hcs].
  rewrite calculateSubtreeWidth_eq.
  destruct (ln_children t) as [|c cs] eqn:E; [split; [lia|congruence]|].
  assert (Forall (fun c => 600 ≤ calculateSubtreeWidth c hs) (c :: cs)) as Hlow.
  { apply Forall_forall. intros d Hd.
    rewrite Forall_forall in IH, Hcs.
    apply (IH d Hd (Hcs d Hd)). }
  apply (sumZ_lower (fun c => calculateSubtreeWidth c hs)) in Hlow.
  unfold totalWidth. cbn [List.length] in *.
  split; [|intros _]; nia.
Qed.

Lemma sumZ_even (f : LayoutNode → Z) cs :
  Forall (fun c => Z.even (f c) = true) cs → Z.even (sumZ (map f cs)) = true.
Proof.
  induction 1 as [|c cs Hc _ IH]; [reflexivity|].
  cbn [map]. rewrite sumZ_cons, Z.even_add, Hc, IH. reflexivity.
Qed.

(** With an even spacing every subtree has an even width, so halving a
    width loses nothing. *)
Lemma width_even hs t :
  Z.even hs = true → uniform t → Z.even (calculateSubtreeWidth t hs) = true.
Proof.
  intros Hhs. induction t as [t IH] using LayoutNode_forall_ind.
  intros Hu. apply uniform_children in Hu as [Hw Hcs].
  rewrite calculateSubtreeWidth_eq.
  destruct (ln_children t) as [|c cs] eqn:E; [rewrite Hw; reflexivity|].
  assert (Z.even (totalWidth hs (c :: cs)) = true) as Heven.
  { unfold totalWidth. rewrite Z.even_add, Z.even_mul, Hhs, orb_true_r.
    rewrite sumZ_even; [reflexivity|].
    apply Forall_forall. intros d Hd. rewrite Forall_forall in IH, Hcs.
    apply (IH d Hd (Hcs d Hd)). }
  destruct (Z.max_spec (ln_width t) (totalWidth hs (c :: cs))) as [[_ ->]|[_ ->]].
  - exact Heven.
  - rewrite Hw. reflexivity.
Qed.

Lemma even_halves z : Z.even z = true → z / 2 + z / 2 = z.
Proof.
  intros H. apply Z.even_spec in H as [k ->].
  rewrite Z.mul_comm, Z.div_mul by lia. lia.
Qed.

Lemma offset_S hs k cs c :
  cs !! k = Some c →
  offset hs (S k) cs = offset hs k cs + calculateSubtreeWidth c hs + hs.
Proof.
  unfold offset. revert k. induction cs as [|a cs IH]; intros k Hk;
    [discriminate|].
  destruct k as [|k]; simpl in Hk.
  - injection Hk as ->. simpl. rewrite sumZ_cons. unfold sumZ. simpl. lia.
  - cbn [take map]. rewrite !sumZ_cons, (IH k Hk). lia.
Qed.

Lemma offset_mono hs cs :
  0 ≤ hs → Forall (fun c => 0 ≤ calculateSubtreeWidth c hs) cs →
  ∀ i j, (i ≤ j)%nat → (j ≤ List.length cs)%nat →
         offset hs i cs ≤ offset hs j cs.
Proof.
  intros Hhs Hpos i j Hij. induction Hij as [|j Hij IH]; intros Hj; [lia|].
  destruct (cs !! j) as [c|] eqn:E.
  - rewrite (offset_S hs j cs c E).
    assert (0 ≤ calculateSubtreeWidth c hs)
      by (rewrite Forall_forall in Hpos; eapply Hpos, list_elem_of_lookup_2, E).
    specialize (IH ltac:(lia)). lia.
  - apply lookup_ge_None in E. lia.
Qed.

Lemma offset_total hs cs k c :
  cs !! k = Some c → S k = List.length cs →
  totalWidth hs cs = offset hs k cs + calculateSubtreeWidth c hs.
Proof.
  unfold totalWidth, offset. revert k.
  induction cs as [|a cs IH]; intros k Hk Hlen; [discriminate|].
  destruct k as [|k]; simpl in Hk.
  - injection Hk as ->. destruct cs; [|discriminate].
    simpl. unfold sumZ. simpl. lia.
  - cbn [take map List.length] in *. rewrite !sumZ_cons.
    assert (S k = List.length cs) as Hlen' by lia.
    specialize (IH k Hk Hlen'). lia.
Qed.

(** Two children of an arranged node: the slot of the earlier one ends, and
    after the spacing the slot of the later one begins. *)
Lemma arranged_apart hs p i j ci cj :
  0 ≤ hs → arranged_at hs p →
  Forall (fun c => 0 ≤ calculateSubtreeWidth c hs) (ln_children p) →
  (i < j)%nat → ln_children p !! i = Some ci → ln_children p !! j = Some cj →
  ln_x ci + calculateSubtreeWidth ci hs / 2 + hs
  ≤ ln_x cj - calculateSubtreeWidth cj hs / 2.
Proof.
  intros Hhs Harr Hpos Hij Hi Hj.
  rewrite (Harr i ci Hi), (Harr j cj Hj).
  assert (offset hs (S i) (ln_children p) ≤ offset hs j (ln_children p)) as Hm.
  { apply offset_mono; try assumption.
    apply lookup_lt_Some in Hj. lia. }
  rewrite (offset_S hs i _ ci Hi) in Hm.
  assert (0 ≤ calculateSubtreeWidth ci hs) as Hw
    by (rewrite Forall_forall in Hpos; eapply Hpos, list_elem_of_lookup_2, Hi).
  pose proof (Z.mul_div_le (calculateSubtreeWidth ci hs) 2 ltac:(lia)).
  lia.
Qed.


Lemma subtree_nodes_inv t m :
  m ∈ subtree_nodes t →
  m = t ∨ ∃ k c, ln_children t !! k = Some c ∧ m ∈ subtree_nodes c.
Proof.
  rewrite subtree_nodes_eq. intros Hm.
  apply elem_of_cons in Hm as [->|Hm]; [left; reflexivity|right].
  apply list_elem_of_In, in_flat_map in Hm as (c & Hc & Hm).
  apply list_elem_of_In, list_elem_of_lookup in Hc as (k & Hk).
  exists k, c. split; [exact Hk|]. apply list_elem_of_In, Hm.
Qed.

Lemma subtree_nodes_child t k c m :
  ln_children t !! k = Some c → m ∈ subtree_nodes c → m ∈ subtree_nodes t.
Proof.
  intros Hk Hm. rewrite subtree_nodes_eq. apply elem_of_cons. right.
  apply list_elem_of_In, in_flat_map. exists c. split.
  - apply list_elem_of_In. eapply list_elem_of_lookup_2, Hk.
  - apply list_elem_of_In, Hm.
Qed.

Lemma subtree_nodes_self t : t ∈ subtree_nodes t.
Proof. rewrite subtree_nodes_eq. apply elem_of_cons. left. reflexivity. Qed.

Lemma subtree_nodes_trans t : ∀ p m,
  p ∈ subtree_nodes t → m ∈ subtree_nodes p → m ∈ subtree_nodes t.
Proof.
  induction t as [t IH] using LayoutNode_forall_ind. intros p m Hp Hm.
  apply subtree_nodes_inv in Hp as [->|(k & c & Hk & Hp)]; [exact Hm|].
  eapply subtree_nodes_child; [exact Hk|].
  rewrite Forall_forall in IH.
  eapply IH; [eapply list_elem_of_lookup_2, Hk|exact Hp|exact Hm].
Qed.

Lemma Forall_subtree (P : LayoutNode → Prop) t p :
  Forall P (subtree_nodes t) → p ∈ subtree_nodes t →
  Forall P (subtree_nodes p).
Proof.
  rewrite !Forall_forall. intros H Hp m Hm.
  apply H. eapply subtree_nodes_trans; eauto.
Qed.

(** The nodes of an arranged subtree keep their boxes within the interval
    of the subtree. *)
Lemma arranged_within hs t :
  0 ≤ hs → Z.even hs = true → uniform t →
  Forall (arranged_at hs) (subtree_nodes t) →
  ∀ m, m ∈ subtree_nodes t →
    ln_x t - calculateSubtreeWidth t hs / 2 ≤ ln_x m - 300
    ∧ ln_x m + 300 ≤ ln_x t + calculateSubtreeWidth t hs / 2.
Proof.
  intros Hhs Heven. induction t as [t IH] using LayoutNode_forall_ind.
  intros Hu Harr m Hm.
  pose proof (width_uniform hs t Hhs Hu) as [Hlow Htot].
  pose proof (width_even hs t Heven Hu) as Hev.
  pose proof (even_halves _ Hev) as Hhalf.
  apply subtree_nodes_inv in Hm as [->|(k & c & Hc & Hm)]; [lia|].
  assert (c ∈ subtree_nodes t) as Hsub
    by (eapply subtree_nodes_child; [exact Hc|apply subtree_nodes_self]).
  assert (c ∈ ln_children t) as Hin by (eapply list_elem_of_lookup_2, Hc).
  pose proof (Forall_subtree _ _ _ Hu Hsub) as Huc.
  pose proof (Forall_subtree _ _ _ Harr Hsub) as Harrc.
  rewrite Forall_forall in IH.
  specialize (IH c Hin Huc Harrc m Hm).
  assert (arranged_at hs t) as Hat.
  { rewrite Forall_forall in Harr. apply Harr, subtree_nodes_self. }
  rewrite (Hat k c Hc) in IH.
  pose proof (width_even hs c Heven Huc) as Hevc.
  pose proof (even_halves _ Hevc) as Hhalfc.
  assert (ln_children t ≠ []) as Hne by (intros E; rewrite E in Hc; discriminate).
  specialize (Htot Hne).
  apply uniform_children in Hu as [Hw Hcs]. rewrite Forall_forall in Hcs.
  assert (Forall (fun c => 0 ≤ calculateSubtreeWidth c hs) (ln_children t))
    as Hpos.
  { apply Forall_forall. intros d Hd.
    pose proof (width_uniform hs d Hhs (Hcs d Hd)) as [? _]. lia. }
  assert (0 ≤ offset hs k (ln_children t)) as Hoff0.
  { change 0 with (offset hs 0 (ln_children t)) at 1.
    apply offset_mono; try assumption; [lia|].
    apply lookup_lt_Some in Hc. lia. }
  assert (offset hs k (ln_children t) + calculateSubtreeWidth c hs
          ≤ totalWidth hs (ln_children t)) as Hoff1.
  { pose proof (lookup_lt_Some _ _ _ Hc) as Hlt.
    destruct (ln_children t !! Nat.pred (List.length (ln_children t)))
      as [z|] eqn:Ez; [|apply lookup_ge_None in Ez; lia].
    rewrite (offset_total hs _ _ z Ez) by lia.
    destruct (decide (k = Nat.pred (List.length (ln_children t)))) as [->|Hk].
    - assert (z = c) as -> by congruence. lia.
    - assert (offset hs (S k) (ln_children t)
              ≤ offset hs (Nat.pred (List.length (ln_children t)))
                       (ln_children t)) as Hm'
        by (apply offset_mono; try assumption; lia).
      rewrite (offset_S hs k _ c Hc) in Hm'.
      pose proof (width_uniform hs z Hhs
                    (Hcs z (list_elem_of_lookup_2 _ _ _ Ez))) as [? _].
      lia. }
  rewrite Htot in *. lia.
Qed.

(** [layoutTree] keeps the widths of the boxes and the ids, in order. *)
Lemma layoutTree_nodes t : ∀ x y depth hs vs,
  map ln_width (subtree_nodes (layoutTree t x y depth hs vs))
  = map ln_width (subtree_nodes t)
  ∧ map ln_id (subtree_nodes (layoutTree t x y depth hs vs))
    = map ln_id (subtree_nodes t).
Proof.
  induction t as [t IH] using LayoutNode_forall_ind.
  intros x y depth hs vs.
  rewrite (subtree_nodes_eq (layoutTree _ _ _ _ _ _)), (subtree_nodes_eq t),
    layoutTree_eq.
  cbn [ln_children map ln_width ln_id].
  generalize (x - totalWidth hs (ln_children t) / 2).
  induction IH as [|c cs Hc _ IHcs]; intros X; [split; reflexivity|].
  cbn [place flat_map]. rewrite !map_app.
  destruct (Hc (X + calculateSubtreeWidth c hs / 2) (y + ln_height t + vs)
               (depth + 1) hs vs) as [-> ->].
  destruct (IHcs (X + calculateSubtreeWidth c hs + hs)) as [Hw Hi].
  injection Hw as Hw. injection Hi as Hi. rewrite Hw, Hi.
  split; reflexivity.
Qed.

Lemma layoutTree_uniform t x y depth hs vs :
  uniform t → uniform (layoutTree t x y depth hs vs).
Proof.
  unfold uniform. intros Hu.
  pose proof (proj2 (Forall_fmap ln_width (fun w => w = 600)
                       (subtree_nodes t)) Hu) as Hu'.
  apply (proj1 (Forall_fmap ln_width (fun w => w = 600) _)).
  change (Forall (fun w => w = 600)
            (map ln_width (subtree_nodes (layoutTree t x y depth hs vs)))).
  rewrite (proj1 (layoutTree_nodes t x y depth hs vs)). exact Hu'.
Qed.

(** [collectPositions] writes the nodes of the tree in order, the root
    first. *)
Lemma collectPositions_fold t : ∀ acc,
  collectPositions t acc
  = fold_left (fun acc m => <[ln_id m := {| px := ln_x m; py := ln_y m |}]> acc)
              (subtree_nodes t) acc.
Proof.
  induction t as [t IH] using LayoutNode_forall_ind. intros acc.
  rewrite collectPositions_eq, subtree_nodes_eq. cbn [fold_left].
  generalize (<[ln_id t := {| px := ln_x t; py := ln_y t |}]> acc).
  induction IH as [|c cs Hc _ IHcs]; intros a; [reflexivity|].
  cbn [fold_left flat_map]. rewrite fold_left_app, <- Hc. apply IHcs.
Qed.

Lemma fold_insert_other (l : list LayoutNode) :
  ∀ (acc : gmap string Position) k,
  k ∉ map ln_id l →
  fold_left (fun acc m => <[ln_id m := {| px := ln_x m; py := ln_y m |}]> acc)
            l acc !! k = acc !! k.
Proof.
  induction l as [|a l IH]; intros acc k Hk; [reflexivity|].
  cbn [fold_left]. cbn [map] in Hk. apply not_elem_of_cons in Hk as [Hne Hk].
  rewrite IH by exact Hk. apply lookup_insert_ne. congruence.
Qed.

Lemma fold_insert_lookup (l : list LayoutNode) :
  ∀ (acc : gmap string Position) m,
  NoDup (map ln_id l) → m ∈ l →
  fold_left (fun acc m => <[ln_id m := {| px := ln_x m; py := ln_y m |}]> acc)
            l acc !! ln_id m
  = Some {| px := ln_x m; py := ln_y m |}.
Proof.
  induction l as [|a l IH]; intros acc m Hnd Hm; [inversion Hm|].
  cbn [map] in Hnd. apply NoDup_cons in Hnd as [Hfresh Hnd].
  cbn [fold_left]. apply elem_of_cons in Hm as [->|Hm].
  - rewrite fold_insert_other by exact Hfresh. apply lookup_insert_eq.
  - apply IH; assumption.
Qed.

(** A tree made by [buildTree] has boxes of width 600. *)
Lemma buildTree_uniform fuel nodes : ∀ rootId t,
  buildTree fuel nodes rootId = Some t → uniform t.
Proof.
  induction fuel as [|fuel IH]; intros rootId t; [discriminate|].
  cbn [buildTree]. destruct (nodes !! rootId) as [node|]; [|discriminate].
  destruct (mapM _ _) as [children|] eqn:E; [|discriminate].
  intros [= <-]. unfold uniform. rewrite subtree_nodes_eq.
  cbn [ln_children]. constructor; [reflexivity|].
  apply mapM_Some in E.
  induction E as [|c t' cs ts Hc _ IHE]; [constructor|].
  cbn [flat_map]. apply Forall_app. split; [exact (IH _ _ Hc)|exact IHE].
Qed.


Lemma forget_eq t :
  forget t
  = {| ln_id := ln_id t; ln_node := blank_node;
       ln_children := map forget (ln_children t); ln_depth := ln_depth t;
       ln_x := ln_x t; ln_y := ln_y t; ln_width := ln_width t;
       ln_height := ln_height t |}.
Proof. destruct t. reflexivity. Qed.

Lemma estimateNodeHeight_view n n' :
  layout_view n = layout_view n' → estimateNodeHeight n = estimateNodeHeight n'.
Proof.
  unfold layout_view, estimateNodeHeight. intros [= _ -> -> -> -> _].
  reflexivity.
Qed.

Lemma forget_width hs t :
  calculateSubtreeWidth (forget t) hs = calculateSubtreeWidth t hs.
Proof.
  induction t as [t IH] using LayoutNode_forall_ind.
  rewrite (calculateSubtreeWidth_eq (forget t)), (calculateSubtreeWidth_eq t),
    forget_eq.
  cbn [ln_children ln_width]. unfold totalWidth.
  rewrite length_map, map_map.
  assert (map (fun c => calculateSubtreeWidth (forget c) hs) (ln_children t)
          = map (fun c => calculateSubtreeWidth c hs) (ln_children t)) as ->.
  { induction IH as [|c cs Hc _ IHcs]; [reflexivity|].
    cbn [map]. rewrite Hc, IHcs. reflexivity. }
  destruct (ln_children t); reflexivity.
Qed.

Lemma forget_layoutTree t : ∀ x y depth hs vs,
  forget (layoutTree t x y depth hs vs)
  = layoutTree (forget t) x y depth hs vs.
Proof.
  induction t as [t IH] using LayoutNode_forall_ind.
  intros x y depth hs vs.
  rewrite (layoutTree_eq (forget t)), forget_eq, layoutTree_eq, (forget_eq t).
  cbn [ln_children ln_id ln_node ln_depth ln_x ln_y ln_width ln_height].
  f_equal.
  assert (totalWidth hs (map forget (ln_children t))
          = totalWidth hs (ln_children t)) as ->.
  { unfold totalWidth. rewrite length_map, map_map. do 2 f_equal.
    apply map_ext. intros c. apply forget_width. }
  generalize (x - totalWidth hs (ln_children t) / 2).
  induction IH as [|c cs Hc _ IHcs]; intros X; [reflexivity|].
  cbn [place map]. rewrite Hc, IHcs, forget_width. reflexivity.
Qed.

Lemma forget_collectPositions t : ∀ acc,
  collectPositions (forget t) acc = collectPositions t acc.
Proof.
  induction t as [t IH] using LayoutNode_forall_ind. intros acc.
  rewrite (collectPositions_eq (forget t)), (collectPositions_eq t), forget_eq.
  cbn [ln_children ln_id ln_x ln_y].
  generalize (<[ln_id t := {| px := ln_x t; py := ln_y t |}]> acc).
  induction IH as [|c cs Hc _ IHcs]; intros a; [reflexivity|].
  cbn [map fold_left]. rewrite Hc. apply IHcs.
Qed.

Lemma same_layout_input_filter nodes nodes' (l : list string) :
  same_layout_input nodes nodes' →
  filter (fun childId => is_Some (nodes !! childId)) l
  = filter (fun childId => is_Some (nodes' !! childId)) l.
Proof.
  intros Hsame. apply list_filter_iff. intros c.
  specialize (Hsame c).
  destruct (nodes !! c), (nodes' !! c); try discriminate;
    split; intros [? ?]; try discriminate; eauto.
Qed.

(** [buildTree] on two maps with the same layout input gives the same tree,
    up to the node objects. *)
Lemma buildTree_same nodes nodes' :
  same_layout_input nodes nodes' →
  ∀ fuel rootId,
    forget <$> buildTree fuel nodes rootId
    = forget <$> buildTree fuel nodes' rootId.
Proof.
  intros Hsame. induction fuel as [|fuel IH]; intros rootId; [reflexivity|].
  cbn [buildTree]. pose proof (Hsame rootId) as Hr.
  destruct (nodes !! rootId) as [n|], (nodes' !! rootId) as [n'|];
    try discriminate; [|reflexivity].
  assert (layout_view n = layout_view n') as Hv by (simpl in Hr; congruence).
  clear Hr.
  assert (n_children n = n_children n') as Hch
    by (unfold layout_view in Hv; congruence).
  assert (n_id n = n_id n') as Hid
    by (unfold layout_view in Hv; congruence).
  rewrite <- Hch, <- (same_layout_input_filter nodes nodes' _ Hsame).
  assert (map forget <$> mapM (buildTree fuel nodes)
                          (filter (fun c => is_Some (nodes !! c)) (n_children n))
          = map forget <$> mapM (buildTree fuel nodes')
                            (filter (fun c => is_Some (nodes !! c)) (n_children n)))
    as Hm.
  { induction (filter _ (n_children n)) as [|c l IHl]; [reflexivity|].
    cbn [mapM]. specialize (IH c).
    destruct (buildTree fuel nodes c) as [t|],
             (buildTree fuel nodes' c) as [t'|]; try discriminate;
      [|reflexivity].
    injection IH as IH. simpl.
    destruct (mapM (buildTree fuel nodes) l) as [ts|],
             (mapM (buildTree fuel nodes') l) as [ts'|]; try discriminate;
      [|reflexivity].
    injection IHl as IHl. simpl. rewrite IH, IHl. reflexivity. }
  destruct (mapM (buildTree fuel nodes) _) as [ts|],
           (mapM (buildTree fuel nodes') _) as [ts'|]; try discriminate;
    [|reflexivity].
  injection Hm as Hm. simpl.
  rewrite Hm, Hid, (estimateNodeHeight_view n n' Hv). reflexivity.
Qed.

Lemma autoLayout_forget fuel nodes rootId options :
  autoLayout fuel nodes rootId options
  = (fun t => collectPositions
                (layoutTree t 300 50 0
                   (default 100 (horizontalSpacing options))
                   (default 80 (verticalSpacing options))) ∅)
      <$> (forget <$> buildTree fuel nodes rootId).
Proof.
  unfold autoLayout. destruct (buildTree fuel nodes rootId) as [t|];
    [|reflexivity].
  simpl. rewrite <- forget_layoutTree, forget_collectPositions. reflexivity.
Qed.

Lemma autoLayout_same fuel nodes nodes' rootId options :
  same_layout_input nodes nodes' →
  autoLayout fuel nodes' rootId options = autoLayout fuel nodes rootId options.
Proof.
  intros Hsame. rewrite !autoLayout_forget.
  rewrite (buildTree_same nodes nodes' Hsame). reflexivity.
Qed.

Lemma apply_positions_same nodes positions :
  same_layout_input nodes (Store.apply_positions nodes positions).
Proof.
  intros k. unfold Store.apply_positions. rewrite map_lookup_imap.
  destruct (nodes !! k) as [n|]; [|reflexivity]. simpl.
  destruct (positions !! k); reflexivity.
Qed.

(** More fuel does not change a tree that has been built. *)
Lemma buildTree_more_fuel nodes : ∀ fuel fuel' rootId t,
  buildTree fuel nodes rootId = Some t → (fuel ≤ fuel')%nat →
  buildTree fuel' nodes rootId = Some t.
Proof.
  induction fuel as [|fuel IH]; intros fuel' rootId t; [discriminate|].
  intros Hb Hle. destruct fuel' as [|fuel']; [lia|].
  cbn [buildTree] in *. destruct (nodes !! rootId) as [n|]; [|discriminate].
  destruct (mapM (buildTree fuel nodes) _) as [ts|] eqn:E; [|discriminate].
  assert (mapM (buildTree fuel' nodes)
               (filter (fun c => is_Some (nodes !! c)) (n_children n))
          = Some ts) as ->.
  { apply mapM_Some. apply mapM_Some in E.
    eapply Forall2_impl; [exact E|].
    intros c t' Hc. apply (IH fuel' c t' Hc). lia. }
  exact Hb.
Qed.

Lemma filter_none {A} (P : A → Prop) `{∀ x, Decision (P x)} (l : list A) :
  Forall (fun x => ¬ P x) l → filter P l = [].
Proof.
  induction 1 as [|x l Hx _ IH]; [reflexivity|].
  rewrite filter_cons_False by exact Hx. exact IH.
Qed.

Lemma autoLayout_single fuel rootId n options :
  rootId ∉ n_children n →
  autoLayout (S fuel) {[rootId := n]} rootId options
  = Some {[n_id n := {| px := 300; py := 50 |}]}.
Proof.
  intros Hself. unfold autoLayout. cbn [buildTree].
  rewrite lookup_singleton_eq.
  rewrite filter_none; [reflexivity|].
  apply Forall_forall. intros c Hc [x Hx].
  apply lookup_singleton_Some in Hx as [<- _]. contradiction.
Qed.

(** On a map without cycles [buildTree] returns, given enough fuel. *)
Lemma buildTree_returns rank nodes :
  acyclic rank nodes →
  ∀ fuel rootId,
    is_Some (nodes !! rootId) → (rank rootId < fuel)%nat →
    is_Some (buildTree fuel nodes rootId).
Proof.
  intros Hrank. induction fuel as [|fuel IH]; intros rootId [n Hn] Hlt; [lia|].
  cbn [buildTree]. rewrite Hn.
  assert (is_Some (mapM (buildTree fuel nodes)
                     (filter (fun c => is_Some (nodes !! c)) (n_children n))))
    as [ts ->]; [|eexists; reflexivity].
  apply mapM_is_Some, Forall_forall. intros c Hc.
  apply list_elem_of_filter in Hc as [Hex Hc].
  apply IH; [exact Hex|]. specialize (Hrank _ _ _ Hn Hc). lia.
Qed.


(** The intervals computed for the children A and B of the root. *)
Example bushy_extents :
  extent Scenario.bushy_positions 100 (Scenario.bushy_child 0)
  = Some (-700, 600)
  ∧ extent Scenario.bushy_positions 100 (Scenario.bushy_child 1)
    = Some (700, 1300)
  ∧ Scenario.bushy_positions !! "root" = Some {| px := 300; py := 50 |}.
Proof. repeat split; vm_compute; reflexivity. Qed.

(** C8.  [autoLayout] depends on the node map only through the ids, the
    types, the texts and the child lists of the nodes: two maps that agree
    on these give the same result; laying out again the nodes that carry
    the positions of a first layout gives these positions again; more fuel
    does not change a result; and a map that holds the root alone gives
    the root the position (300, 50) and nothing else. *)
Theorem autoLayout_deterministic fuel nodes rootId options :
  (∀ nodes',
     same_layout_input nodes nodes' →
     autoLayout fuel nodes' rootId options
     = autoLayout fuel nodes rootId options)
  ∧ (∀ positions,
       autoLayout fuel nodes rootId options = Some positions →
       autoLayout fuel (Store.apply_positions nodes positions) rootId options
       = Some positions)
  ∧ (∀ fuel' positions,
       autoLayout fuel nodes rootId options = Some positions →
       (fuel ≤ fuel')%nat →
       autoLayout fuel' nodes rootId options = Some positions)
  ∧ (∀ n,
       nodes = {[rootId := n]} → rootId ∉ n_children n →
       autoLayout (S fuel) nodes rootId options
       = Some {[n_id n := {| px := 300; py := 50 |}]}).
Proof.
  split; [|split; [|split]].
  - intros nodes' Hsame. apply autoLayout_same, Hsame.
  - intros positions Hrun.
    rewrite (autoLayout_same fuel nodes _ rootId options
               (apply_positions_same nodes positions)).
    exact Hrun.
  - intros fuel' positions Hrun Hle. unfold autoLayout in *.
    destruct (buildTree fuel nodes rootId) as [t|] eqn:E; [|discriminate].
    rewrite (buildTree_more_fuel nodes fuel fuel' rootId t E Hle).
    exact Hrun.
  - intros n -> Hself. apply autoLayout_single, Hself.
Qed.

Lemma autoLayout_deterministic_witness :
  autoLayout 5 Scenario.bushy "root" no_options = Some Scenario.bushy_positions
  ∧ autoLayout 5 (Store.apply_positions Scenario.bushy Scenario.bushy_positions)
      "root" no_options
    = Some Scenario.bushy_positions
  ∧ autoLayout 9 Scenario.bushy "root" no_options
    = Some Scenario.bushy_positions
  ∧ ("root" ∉ n_children Scenario.root_node)
  ∧ autoLayout 1 {["root" := Scenario.root_node]} "root" no_options
    = Some {["root" := {| px := 300; py := 50 |}]}.
Proof.
  assert (autoLayout 5 Scenario.bushy "root" no_options
          = Some Scenario.bushy_positions) as Hrun
    by (vm_compute; reflexivity).
  assert ("root" ∉ n_children Scenario.root_node) as Hself
    by (simpl; apply not_elem_of_nil).
  destruct (autoLayout_deterministic 5 Scenario.bushy "root" no_options)
    as (_ & Hagain & Hfuel & _).
  destruct (autoLayout_deterministic 0 {["root" := Scenario.root_node]}
              "root" no_options) as (_ & _ & _ & Hsingle).
  split; [exact Hrun|].
  split; [exact (Hagain _ Hrun)|].
  split; [apply (Hfuel 9%nat _ Hrun); lia|].
  split; [exact Hself|].
  exact (Hsingle Scenario.root_node eq_refl Hself).
Defined.

(** ** Rearranging twice *)

Lemma apply_positions_twice nodes positions :
  Store.apply_positions (Store.apply_positions nodes positions) positions
  = Store.apply_positions nodes positions.
Proof.
  apply map_eq. intros k. unfold Store.apply_positions.
  rewrite !map_lookup_imap.
  destruct (nodes !! k) as [n|]; [|reflexivity]. simpl.
  destruct (positions !! k); reflexivity.
Qed.

(** After a rearrangement that has been saved, a second rearrangement
    leaves every node where it is. *)
Lemma rearrangeNodes_again api_ok fuel now now' w w1 :
  api_ok (List.length (api_log w)) = true →
  Store.rearrangeNodes api_ok fuel now w = Some w1 →
  ∃ w2, Store.rearrangeNodes api_ok fuel now' w1 = Some w2
        ∧ current_nodes w2 = current_nodes w1.
Proof.
  intros Hok. unfold Store.rearrangeNodes at 1.
  destruct (current (store w)) as [[sid session]|] eqn:Hcur.
  - destruct (autoLayout fuel (s_nodes session) (s_rootNodeId session)
                         no_options) as [positions|] eqn:Hrun; [|discriminate].
    unfold Store.call. cbv beta iota zeta. rewrite Hok. intros [= <-].
    unfold Store.rearrangeNodes. cbn [store with_store].
    rewrite (current_set_sessions _ sid session _ _ Hcur).
    cbn [s_nodes s_rootNodeId with_nodes].
    rewrite (autoLayout_same fuel (s_nodes session) _ (s_rootNodeId session)
               no_options (apply_positions_same (s_nodes session) positions)),
      Hrun.
    unfold Store.call. cbv beta iota zeta.
    eexists. split; [reflexivity|].
    match goal with
    | |- context [api_ok ?k] => destruct (api_ok k)
    end; unfold current_nodes; cbn [store with_store currentSession
                                   set_sessions s_nodes with_nodes];
      rewrite ?apply_positions_twice; reflexivity.
  - intros [= <-]. exists w. unfold Store.rearrangeNodes. rewrite Hcur.
    split; reflexivity.
Qed.
(** * Texts: length, slices and white space *)

Lemma units_nonneg c : 0 ≤ JS.units c.
Proof.
  unfold JS.units. destruct (JS.is_continuation c); [lia|].
  destruct (JS.begins_pair c); lia.
Qed.

Lemma text_length_nonneg s : 0 ≤ JS.length s.
Proof.
  induction s as [|c s IH]; cbn [JS.length]; [lia|].
  pose proof (units_nonneg c). lia.
Qed.

(** The length of two texts joined is the sum of their lengths. *)
Lemma text_length_app a b : JS.length (a +:+ b) = JS.length a + JS.length b.
Proof.
  induction a as [|c a IH]; [reflexivity|].
  change (String c a +:+ b) with (String c (a +:+ b)).
  cbn [JS.length]. rewrite IH. lia.
Qed.

Lemma bytes_app a b :
  String.length (a +:+ b) = (String.length a + String.length b)%nat.
Proof.
  induction a as [|c a IH]; [reflexivity|].
  change (String.length (String c (a +:+ b))
          = (String.length (String c a) + String.length b)%nat).
  cbn [String.length]. rewrite IH. reflexivity.
Qed.

(** A surrogate that stands alone is one code unit. *)
Lemma surrogate_length hi lo :
  (hi < 32)%nat → (lo < 64)%nat → JS.length (JS.surrogate hi lo) = 1.
Proof.
  intros Hhi Hlo. unfold JS.surrogate. cbn [JS.length].
  unfold JS.units at 2 3, JS.is_continuation.
  rewrite !nat_ascii_embedding by lia.
  replace (128 <=? 160 + hi)%nat with true by (symmetry; apply Nat.leb_le; lia).
  replace (160 + hi <? 192)%nat with true by (symmetry; apply Nat.ltb_lt; lia).
  replace (128 <=? 128 + lo)%nat with true by (symmetry; apply Nat.leb_le; lia).
  replace (128 + lo <? 192)%nat with true by (symmetry; apply Nat.ltb_lt; lia).
  reflexivity.
Qed.

Lemma high_surrogate_length c rest : JS.length (JS.high_surrogate c rest) ≤ 1.
Proof.
  unfold JS.high_surrogate.
  destruct rest as [|b2 [|b3 rest]]; cbn [JS.length]; try lia.
  rewrite surrogate_length; [lia| |].
  - pose proof (Nat.mod_upper_bound
                  ((nat_of_ascii c mod 8 * 256 + nat_of_ascii b2 mod 64 * 4
                    + nat_of_ascii b3 mod 64 / 16 - 64) / 64) 16). lia.
  - apply Nat.mod_upper_bound. lia.
Qed.

(** [s.slice(0, n)] has [n] code units at most, and it is [s] when [s] has
    no more. *)
Lemma slice0_length n s : JS.length (JS.slice0 n s) ≤ Z.of_nat n.
Proof.
  revert n. induction s as [|c s IH]; intros n; cbn [JS.slice0 JS.length].
  - lia.
  - unfold JS.units. destruct (JS.is_continuation c) eqn:Hc.
    + cbn [JS.length]. unfold JS.units. rewrite Hc. specialize (IH n). lia.
    + destruct n as [|n]; [cbn [JS.length]; lia|].
      destruct (JS.begins_pair c) eqn:Hp.
      * destruct n as [|n].
        -- pose proof (high_surrogate_length c s). lia.
        -- cbn [JS.length]. unfold JS.units. rewrite Hc, Hp.
           specialize (IH n). lia.
      * cbn [JS.length]. unfold JS.units. rewrite Hc, Hp.
        specialize (IH n). lia.
Qed.

Lemma slice0_all n s : JS.length s ≤ Z.of_nat n → JS.slice0 n s = s.
Proof.
  revert n. induction s as [|c s IH]; intros n; cbn [JS.slice0 JS.length].
  - reflexivity.
  - pose proof (text_length_nonneg s) as Hs. unfold JS.units.
    destruct (JS.is_continuation c) eqn:Hc.
    + intros H. rewrite IH by lia. reflexivity.
    + destruct (JS.begins_pair c) eqn:Hp; intros H.
      * destruct n as [|[|n]]; [lia|lia|]. rewrite IH by lia. reflexivity.
      * destruct n as [|n]; [lia|]. rewrite IH by lia. reflexivity.
Qed.

(** ** White space *)

Lemma behind_app p r : JS.behind p (p +:+ r) = Some r.
Proof.
  induction p as [|a p IH]; [reflexivity|].
  change (String a p +:+ r) with (String a (p +:+ r)).
  cbn [JS.behind]. rewrite Ascii.eqb_refl. exact IH.
Qed.

Lemma behind_Some p s r : JS.behind p s = Some r → s = p +:+ r.
Proof.
  revert s. induction p as [|a p IH]; intros s; cbn [JS.behind].
  - intros [= ->]. reflexivity.
  - destruct s as [|b s]; [discriminate|].
    destruct (Ascii.eqb a b) eqn:E; [|discriminate].
    apply Ascii.eqb_eq in E. subst b. intros H.
    rewrite (IH s H). reflexivity.
Qed.

Lemma head_omap_Some {A B} (f : A → option B) l b :
  head (omap f l) = Some b → ∃ a, a ∈ l ∧ f a = Some b.
Proof.
  induction l as [|a l IH]; [discriminate|].
  change (omap f (a :: l))
    with (match f a with Some y => y :: omap f l | None => omap f l end).
  destruct (f a) as [b'|] eqn:E.
  - intros [= ->]. exists a. split; [left|exact E].
  - intros H. destruct (IH H) as (a' & Hin & Ha').
    exists a'. split; [right; exact Hin|exact Ha'].
Qed.

(** The character [behind_space] removes is one of the table. *)
Lemma behind_space_Some s r :
  JS.behind_space s = Some r → ∃ p, p ∈ JS.white_space ∧ s = p +:+ r.
Proof.
  unfold JS.behind_space. intros H.
  destruct (head_omap_Some _ _ _ H) as (p & Hin & Hp).
  exists p. split; [exact Hin|]. apply behind_Some. exact Hp.
Qed.

(** No character of the table begins another, so that each of them is
    found at the head of a text that begins with it. *)
Lemma behind_space_app p r :
  p ∈ JS.white_space → JS.behind_space (p +:+ r) = Some r.
Proof.
  intros H. vm_compute in H.
  repeat (apply elem_of_cons in H as [->|H]; [reflexivity|]).
  inversion H.
Qed.

Lemma space_bytes p : p ∈ JS.white_space → (1 ≤ String.length p)%nat.
Proof.
  intros H. vm_compute in H.
  repeat (apply elem_of_cons in H as [->|H]; [cbn; lia|]).
  inversion H.
Qed.

Lemma blank_empty : blank "".
Proof. exists []. split; [constructor|reflexivity]. Qed.

Lemma foldr_append_app (xs ys : list string) :
  foldr append "" (xs ++ ys)
  = foldr append "" xs +:+ foldr append "" ys.
Proof.
  induction xs as [|x xs IH]; [reflexivity|].
  cbn [foldr app]. rewrite IH. symmetry. apply append_assoc.
Qed.

Lemma blank_app a b : blank a → blank b → blank (a +:+ b).
Proof.
  intros (xs & Hxs & ->) (ys & Hys & ->). exists (xs ++ ys). split.
  - apply Forall_app. split; assumption.
  - symmetry. apply foldr_append_app.
Qed.

(** What [trimStart] removes is white space. *)
Lemma trim_start_from_split fuel s :
  ∃ a, blank a ∧ s = a +:+ JS.trim_start_from fuel s.
Proof.
  revert s. induction fuel as [|fuel IH]; intros s; cbn [JS.trim_start_from].
  - exists "". split; [apply blank_empty|reflexivity].
  - destruct (JS.behind_space s) as [rest|] eqn:E.
    + destruct (behind_space_Some _ _ E) as (p & Hp & ->).
      destruct (IH rest) as (a & Ha & Hrest).
      exists (p +:+ a). split.
      * apply blank_app; [|exact Ha].
        exists [p]. split; [constructor; [exact Hp|constructor]|].
        cbn [foldr]. symmetry. apply append_empty_r.
      * rewrite Hrest at 1. symmetry. apply append_assoc.
    + exists "". split; [apply blank_empty|reflexivity].
Qed.

Lemma trim_start_from_blank spaces :
  Forall (fun p => p ∈ JS.white_space) spaces →
  ∀ fuel, (String.length (foldr append "" spaces) ≤ fuel)%nat →
    JS.trim_start_from fuel (foldr append "" spaces) = "".
Proof.
  induction 1 as [|p spaces Hp Hrest IH]; intros fuel Hfuel.
  - destruct fuel; reflexivity.
  - cbn [foldr] in *. rewrite bytes_app in Hfuel.
    pose proof (space_bytes p Hp).
    destruct fuel as [|fuel]; [lia|].
    cbn [JS.trim_start_from]. rewrite (behind_space_app p _ Hp).
    apply IH. lia.
Qed.

(** [trimStart] leaves nothing exactly of a text of white space. *)
Lemma trim_start_blank s : JS.trim_start s = "" ↔ blank s.
Proof.
  unfold JS.trim_start. split.
  - intros H. destruct (trim_start_from_split (String.length s) s)
      as (a & Ha & Hs).
    rewrite H, append_empty_r in Hs. subst a. exact Ha.
  - intros (spaces & Hspaces & ->).
    apply trim_start_from_blank; [exact Hspaces|lia].
Qed.

Lemma truthy_false s : JS.truthy s = false ↔ s = "".
Proof. destruct s; split; intros H; try reflexivity; discriminate. Qed.

(** What [trimEnd] removes is white space. *)
Lemma trim_end_split s : ∃ b, blank b ∧ s = JS.trim_end s +:+ b.
Proof.
  induction s as [|c s IH].
  - exists "". split; [apply blank_empty|reflexivity].
  - cbn [JS.trim_end].
    destruct (JS.truthy (JS.trim_start (String c s))) eqn:E.
    + destruct IH as (b & Hb & Hs). exists b. split; [exact Hb|].
      change (String c (JS.trim_end s) +:+ b)
        with (String c (JS.trim_end s +:+ b)).
      rewrite <- Hs. reflexivity.
    + exists (String c s). split; [|reflexivity].
      apply trim_start_blank, truthy_false. exact E.
Qed.

Lemma trim_end_blank s : blank s → JS.trim_end s = "".
Proof.
  intros H. destruct s as [|c s]; [reflexivity|].
  cbn [JS.trim_end]. apply trim_start_blank in H. rewrite H. reflexivity.
Qed.

(** [trim] removes white space from the two ends of the text and nothing
    else. *)
Lemma trim_split s :
  ∃ a b, blank a ∧ blank b ∧ s = a +:+ JS.trim s +:+ b.
Proof.
  destruct (trim_end_split s) as (b & Hb & Hs).
  destruct (trim_start_from_split (String.length (JS.trim_end s))
                                  (JS.trim_end s)) as (a & Ha & He).
  exists a, b. split; [exact Ha|]. split; [exact Hb|].
  unfold JS.trim, JS.trim_start. rewrite <- append_assoc, <- He. exact Hs.
Qed.





(** [trim] leaves nothing exactly of a text of white space. *)
Lemma trim_empty_iff s : JS.truthy (JS.trim s) = false ↔ blank s.
Proof.
  rewrite truthy_false. split.
  - intros H. destruct (trim_split s) as (a & b & Ha & Hb & Hs).
    rewrite H in Hs. rewrite Hs. apply blank_app; [exact Ha|exact Hb].
  - intros H. unfold JS.trim. rewrite (trim_end_blank s H). reflexivity.
Qed.

(** The texts of the user interface and some texts a user may type, as
    the browser measures, cuts and trims them. *)
Example texts_measured :
  JS.length "新对话" = 3
  ∧ JS.length "voilà" = 5
  ∧ JS.slice0 2 "新对话" = "新对"
  ∧ JS.slice_from 6 "data: 新" = "新"
  ∧ JS.trim " voilà　" = "voilà"
  ∧ JS.trim "　" = ""
  ∧ JS.length Sample.emoji = 2
  ∧ JS.slice0 1 Sample.emoji = JS.surrogate 0 61
  ∧ JS.slice_from 1 Sample.emoji = JS.surrogate 24 0
  ∧ JS.slice0 2 Sample.emoji = Sample.emoji.
Proof. repeat split; vm_compute; reflexivity. Qed.
(** * The store: what its operations keep *)

Lemma current_inv st sid session :
  current st = Some (sid, session) →
  currentSession st = Some session ∧ currentSessionId st = Some sid
  ∧ JS.truthy sid = true.
Proof.
  unfold current. destruct (currentSession st) as [s|]; [|discriminate].
  destruct (currentSessionId st) as [i|]; [|discriminate].
  destruct (JS.truthy i) eqn:Ht; [|discriminate].
  intros [= <- <-]. auto.
Qed.

Lemma coherent_set_sessions st sid updated ss :
  currentSessionId st = Some sid →
  coherent (set_sessions st (<[sid := updated]> ss) (Some updated)).
Proof.
  intros Hid sid' session' Hcur. apply current_inv in Hcur as (Hs & Hi & _).
  simpl in Hs, Hi. rewrite Hid in Hi. injection Hi as <-. injection Hs as <-.
  simpl. apply lookup_insert_eq.
Qed.

Lemma coherent_rename api_ok sessionId updated w :
  coherent (store w) →
  let '(w1, ok) := Store.call api_ok w (api_updateSession updated) in
  coherent
    (set_sessions (store w1) (<[sessionId := updated]> (sessions (store w)))
       (if decide (currentSessionId (store w) = Some sessionId)
        then Some updated else currentSession (store w1))).
Proof.
  intros Hco. simpl. intros sid session Hcur.
  apply current_inv in Hcur as (Hs & Hi & Ht). simpl in Hs, Hi. simpl.
  destruct (decide (currentSessionId (store w) = Some sessionId)) as [Heq|Hne].
  - rewrite Heq in Hi. injection Hi as <-. injection Hs as <-.
    apply lookup_insert_eq.
  - rewrite lookup_insert_ne by congruence.
    apply Hco. unfold current. rewrite Hs, Hi, Ht. reflexivity.
Qed.

(** X1.  Every operation of the store keeps it coherent: when the current
    session was the entry of [sessions] under the current id before the
    operation, it is so after it, whether the save succeeded or not. *)
Theorem operations_keep_coherent api_ok w :
  coherent (store w) →
  (∀ config now, coherent (store (Store.createSession api_ok config now w)))
  ∧ (∀ sessionId, coherent (store (Store.switchSession sessionId w)))
  ∧ (∀ sessionId title now,
       coherent (store (Store.updateSessionTitle api_ok sessionId title now w)))
  ∧ (∀ sessionId modelId now,
       coherent
         (store (Store.updateSessionDefaultModel api_ok sessionId modelId now w)))
  ∧ (∀ node now, coherent (store (Store.addNode api_ok node now w)))
  ∧ (∀ nodeId updates saveToDb now,
       coherent (store (Store.updateNode api_ok nodeId updates saveToDb now w)))
  ∧ (∀ fuel nodeId now w',
       Store.deleteNode api_ok fuel nodeId now w = Some w' → coherent (store w'))
  ∧ (∀ fuel now w',
       Store.rearrangeNodes api_ok fuel now w = Some w' → coherent (store w'))
  ∧ (∀ nodeId, coherent (store (Store.selectNode nodeId w)))
  ∧ (∀ quoted, coherent (store (Store.setQuotedContent quoted w)))
  ∧ coherent (store (Store.saveCurrentSession api_ok w)).
Proof.
  intros Hco. repeat split.
  - intros config now. unfold Store.createSession, Store.call.
    destruct (api_ok _); [|exact Hco].
    intros sid session Hcur. apply current_inv in Hcur as (Hs & Hi & _).
    simpl in Hs, Hi. injection Hi as <-. injection Hs as <-.
    simpl. apply lookup_insert_eq.
  - intros sessionId. unfold Store.switchSession.
    destruct (sessions (store w) !! sessionId) as [session|] eqn:Hl; [|exact Hco].
    intros sid session' Hcur. apply current_inv in Hcur as (Hs & Hi & _).
    simpl in Hs, Hi. injection Hi as <-. injection Hs as <-. exact Hl.
  - intros sessionId title now. unfold Store.updateSessionTitle.
    destruct (sessions (store w) !! sessionId) as [session|]; [|exact Hco].
    pose proof (coherent_rename api_ok sessionId (with_title session title now)
                  w Hco) as H.
    unfold Store.call in *. destruct (api_ok _); [exact H | exact Hco].
  - intros sessionId modelId now. unfold Store.updateSessionDefaultModel.
    destruct (sessions (store w) !! sessionId) as [session|]; [|exact Hco].
    pose proof (coherent_rename api_ok sessionId
                  (with_defaultModelId session modelId now) w Hco) as H.
    unfold Store.call in *. destruct (api_ok _); [exact H | exact Hco].
  - intros node now. unfold Store.addNode, Store.addNode_request.
    destruct (current (store w)) as [[sid session]|] eqn:Hcur; [|exact Hco].
    apply current_inv in Hcur as (_ & Hi & _).
    unfold Store.call, Store.addNode_response. simpl.
    destruct (api_ok _); [|exact Hco].
    apply coherent_set_sessions, Hi.
  - intros nodeId updates saveToDb now. unfold Store.updateNode.
    destruct (current (store w)) as [[sid session]|] eqn:Hcur; [|exact Hco].
    apply current_inv in Hcur as (_ & Hi & _).
    destruct (s_nodes session !! nodeId); [|exact Hco].
    destruct saveToDb; simpl; apply coherent_set_sessions, Hi.
  - intros fuel nodeId now w'. unfold Store.deleteNode.
    destruct (current (store w)) as [[sid session]|] eqn:Hcur;
      [|intros [= <-]; exact Hco].
    apply current_inv in Hcur as (_ & Hi & _).
    destruct (s_nodes session !! nodeId) as [nodeToDelete|];
      [|intros [= <-]; exact Hco].
    destruct (Store.deleteNode_nodes _ _ _ _) as [updatedNodes|]; [|discriminate].
    unfold Store.call. destruct (api_ok _); intros [= <-]; [|exact Hco].
    intros sid' session' Hcur'. apply current_inv in Hcur' as (Hs & Hi' & _).
    simpl in Hs, Hi'. rewrite Hi in Hi'. injection Hi' as <-. injection Hs as <-.
    simpl. apply lookup_insert_eq.
  - intros fuel now w'. unfold Store.rearrangeNodes.
    destruct (current (store w)) as [[sid session]|] eqn:Hcur;
      [|intros [= <-]; exact Hco].
    apply current_inv in Hcur as (_ & Hi & _).
    destruct (autoLayout _ _ _ _) as [newPositions|]; [|discriminate].
    unfold Store.call. destruct (api_ok _); intros [= <-]; [|exact Hco].
    simpl. apply coherent_set_sessions, Hi.
  - intros nodeId sid session Hcur. simpl. apply Hco.
    unfold Store.selectNode in Hcur. simpl in Hcur.
    rewrite current_set_selected in Hcur. exact Hcur.
  - intros quoted sid session Hcur. simpl. apply Hco. exact Hcur.
  - unfold Store.saveCurrentSession.
    destruct (current (store w)) as [[sid session]|]; exact Hco.
Qed.

Lemma current_nodes_of w sid session :
  current (store w) = Some (sid, session) → current_nodes w = s_nodes session.
Proof.
  intros Hcur. apply current_inv in Hcur as (Hs & _ & _).
  unfold current_nodes. rewrite Hs. reflexivity.
Qed.

(** X2.  [addNode] of a node with a new id under a parent of the session:
    the save is requested once; when it succeeds the node is in the map as
    given, it is the last child of its parent, and no other node and no
    selection has changed; when it fails the store is as before. *)
Theorem addNode_lookup api_ok node now w sid session p pn :
  current (store w) = Some (sid, session) →
  s_nodes session !! n_id node = None →
  n_parentId node = Some p → JS.truthy p = true →
  s_nodes session !! p = Some pn →
  let w' := Store.addNode api_ok node now w in
  (∃ saved, api_log w' = api_log w ++ [api_updateSession saved]
            ∧ s_nodes saved !! n_id node = Some node)
  ∧ (if api_ok (List.length (api_log w)) then
       current_nodes w' !! n_id node = Some node
       ∧ current_nodes w' !! p
         = Some (with_children pn (n_children pn ++ [n_id node]))
       ∧ (∀ k, k ≠ n_id node → k ≠ p →
            current_nodes w' !! k = s_nodes session !! k)
       ∧ selectedNodeId (store w') = selectedNodeId (store w)
     else store w' = store w).
Proof.
  intros Hcur Hfresh Hp Htruthy Hpn w'.
  assert (p ≠ n_id node) as Hne by (intros ->; congruence).
  pose proof (addNode_nodes_eq _ _ _ _ Hfresh Hp Hpn Htruthy) as Hnodes.
  subst w'. rewrite (addNode_present _ _ _ _ _ _ Hcur). simpl.
  split.
  - eexists. split; [reflexivity|]. simpl. rewrite Hnodes.
    rewrite lookup_insert_ne by exact Hne. apply lookup_insert_eq.
  - destruct (api_ok _); [|reflexivity].
    unfold current_nodes. simpl. rewrite Hnodes. repeat split.
    + rewrite lookup_insert_ne by exact Hne. apply lookup_insert_eq.
    + apply lookup_insert_eq.
    + intros k Hk Hkp. rewrite !lookup_insert_ne by congruence. reflexivity.
Qed.

(** X3.  A save that fails leaves the store as it was: [createSession],
    [updateSessionTitle], [updateSessionDefaultModel], [addNode],
    [deleteNode], [rearrangeNodes] and [deleteSession] change the store only
    after [sessionAPI] has answered. *)
Theorem failed_save_keeps_store api_ok w :
  api_ok (List.length (api_log w)) = false →
  (∀ config now, store (Store.createSession api_ok config now w) = store w)
  ∧ (∀ sessionId title now,
       store (Store.updateSessionTitle api_ok sessionId title now w) = store w)
  ∧ (∀ sessionId modelId now,
       store (Store.updateSessionDefaultModel api_ok sessionId modelId now w)
       = store w)
  ∧ (∀ node now, store (Store.addNode api_ok node now w) = store w)
  ∧ (∀ fuel nodeId now w',
       Store.deleteNode api_ok fuel nodeId now w = Some w' → store w' = store w)
  ∧ (∀ fuel now w',
       Store.rearrangeNodes api_ok fuel now w = Some w' → store w' = store w)
  ∧ (∀ first_key config sessionId now,
       store (Store.deleteSession api_ok first_key config sessionId now w)
       = store w).
Proof.
  intros Hfail. repeat split.
  - intros. unfold Store.createSession, Store.call. rewrite Hfail. reflexivity.
  - intros. unfold Store.updateSessionTitle, Store.call.
    destruct (sessions (store w) !! sessionId); [|reflexivity].
    rewrite Hfail. reflexivity.
  - intros. unfold Store.updateSessionDefaultModel, Store.call.
    destruct (sessions (store w) !! sessionId); [|reflexivity].
    rewrite Hfail. reflexivity.
  - intros. unfold Store.addNode, Store.addNode_request, Store.call.
    destruct (current (store w)) as [[sid session]|]; [|reflexivity].
    simpl. rewrite Hfail. reflexivity.
  - intros fuel nodeId now w'. unfold Store.deleteNode, Store.call.
    destruct (current (store w)) as [[sid session]|]; [|congruence].
    destruct (s_nodes session !! nodeId); [|congruence].
    destruct (Store.deleteNode_nodes _ _ _ _); [|discriminate].
    rewrite Hfail. intros [= <-]. reflexivity.
  - intros fuel now w'. unfold Store.rearrangeNodes, Store.call.
    destruct (current (store w)) as [[sid session]|]; [|congruence].
    destruct (autoLayout _ _ _ _); [|discriminate].
    rewrite Hfail. intros [= <-]. reflexivity.
  - intros. unfold Store.deleteSession, Store.call. rewrite Hfail. reflexivity.
Qed.

(** X4.  [updateNode] changes the node in memory at once, whatever the save
    answers: the node takes the updates, every other node and the set of
    ids stay as they were, and the session is saved once exactly when
    [saveToDb] is set.  On an id the session does not hold it does
    nothing. *)
Theorem updateNode_lookup api_ok nodeId updates saveToDb now w sid session :
  current (store w) = Some (sid, session) →
  let w' := Store.updateNode api_ok nodeId updates saveToDb now w in
  match s_nodes session !! nodeId with
  | Some node =>
      current_nodes w' !! nodeId = Some (spread node updates)
      ∧ (∀ k, k ≠ nodeId → current_nodes w' !! k = s_nodes session !! k)
      ∧ dom (current_nodes w') = dom (s_nodes session)
      ∧ (∃ saved,
           s_nodes saved = current_nodes w'
           ∧ api_log w'
             = if saveToDb then api_log w ++ [api_updateSession saved]
               else api_log w)
      ∧ selectedNodeId (store w') = selectedNodeId (store w)
  | None => w' = w
  end.
Proof.
  intros Hcur w'. destruct (s_nodes session !! nodeId) as [node|] eqn:Hn.
  - subst w'. rewrite (updateNode_present _ _ _ _ _ _ _ _ _ Hcur Hn).
    unfold current_nodes. simpl. repeat split.
    + apply lookup_insert_eq.
    + intros k Hk. rewrite lookup_insert_ne by congruence. reflexivity.
    + rewrite dom_insert_L. apply subseteq_union_1_L, singleton_subseteq_l.
      eapply elem_of_dom_2, Hn.
    + eexists. split; [|reflexivity]. reflexivity.
  - subst w'. unfold Store.updateNode. rewrite Hcur, Hn. reflexivity.
Qed.

(** * Parent/child symmetry under the operations of the store *)

Lemma same_links_lookup nodes nodes' k n :
  same_links nodes nodes' → nodes' !! k = Some n →
  ∃ m, nodes !! k = Some m ∧ links m = links n.
Proof.
  intros Hsame Hk. specialize (Hsame k). rewrite Hk in Hsame.
  destruct (nodes !! k) as [m|]; [|discriminate].
  exists m. split; [reflexivity|]. simpl in Hsame. congruence.
Qed.

Lemma same_links_lookup_r nodes nodes' k m :
  same_links nodes nodes' → nodes !! k = Some m →
  ∃ n, nodes' !! k = Some n ∧ links m = links n.
Proof.
  intros Hsame Hk. specialize (Hsame k). rewrite Hk in Hsame.
  destruct (nodes' !! k) as [n|]; [|discriminate].
  exists n. split; [reflexivity|]. simpl in Hsame. congruence.
Qed.

Lemma links_inv m n :
  links m = links n →
  n_id m = n_id n ∧ n_parentId m = n_parentId n ∧ n_children m = n_children n.
Proof. unfold links. intros [= H1 H2 H3]. auto. Qed.

Lemma symmetric_same_links nodes nodes' :
  same_links nodes nodes' → symmetric nodes → symmetric nodes'.
Proof.
  intros Hsame (Hkey & Hup & Hdown). repeat split.
  - intros k n Hk.
    destruct (same_links_lookup _ _ _ _ Hsame Hk) as (m & Hm & Hl).
    apply links_inv in Hl as (Hid & _ & _). rewrite <- Hid. eapply Hkey, Hm.
  - intros k n p Hk Hp.
    destruct (same_links_lookup _ _ _ _ Hsame Hk) as (m & Hm & Hl).
    apply links_inv in Hl as (Hid & Hpar & _).
    destruct (Hup k m p Hm) as (pm & Hpm & Hin); [congruence|].
    destruct (same_links_lookup_r _ _ _ _ Hsame Hpm) as (pn & Hpn & Hl').
    apply links_inv in Hl' as (_ & _ & Hch).
    exists pn. split; [exact Hpn|]. rewrite <- Hch, <- Hid. exact Hin.
  - intros k pn c Hk Hc.
    destruct (same_links_lookup _ _ _ _ Hsame Hk) as (pm & Hpm & Hl).
    apply links_inv in Hl as (Hid & _ & Hch).
    destruct (Hdown k pm c Hpm) as (cm & Hcm & Hpar); [congruence|].
    destruct (same_links_lookup_r _ _ _ _ Hsame Hcm) as (cn & Hcn & Hl').
    apply links_inv in Hl' as (_ & Hpar' & _).
    exists cn. split; [exact Hcn|]. congruence.
Qed.

Lemma same_links_insert nodes k n n' :
  nodes !! k = Some n → links n' = links n →
  same_links nodes (<[k := n']> nodes).
Proof.
  intros Hk Hl j. destruct (decide (j = k)) as [->|Hne].
  - rewrite lookup_insert_eq, Hk. simpl. congruence.
  - rewrite lookup_insert_ne by congruence. reflexivity.
Qed.

Lemma spread_keeps_links node updates :
  keeps_links updates → links (spread node updates) = links node.
Proof.
  intros (Hid & Hpar & Hch). unfold links, spread. simpl.
  rewrite Hid, Hpar, Hch. reflexivity.
Qed.

Lemma apply_positions_links nodes positions :
  same_links nodes (Store.apply_positions nodes positions).
Proof.
  intros k. unfold Store.apply_positions. rewrite map_lookup_imap.
  destruct (nodes !! k) as [n|]; [|reflexivity]. simpl.
  destruct (positions !! k); reflexivity.
Qed.

Lemma updateNode_same_links api_ok nodeId updates saveToDb now w :
  keeps_links updates →
  same_links (current_nodes w)
             (current_nodes (Store.updateNode api_ok nodeId updates saveToDb now w)).
Proof.
  intros Hkeep. unfold Store.updateNode.
  destruct (current (store w)) as [[sid session]|] eqn:Hcur; [|intros k; reflexivity].
  destruct (s_nodes session !! nodeId) as [node|] eqn:Hn; [|intros k; reflexivity].
  rewrite (current_nodes_of _ _ _ Hcur).
  assert (same_links (s_nodes session)
            (<[nodeId := spread node updates]> (s_nodes session))) as H.
  { eapply same_links_insert; [exact Hn|]. apply spread_keeps_links, Hkeep. }
  destruct saveToDb; exact H.
Qed.

Lemma rearrangeNodes_same_links api_ok fuel now w w' :
  Store.rearrangeNodes api_ok fuel now w = Some w' →
  same_links (current_nodes w) (current_nodes w').
Proof.
  unfold Store.rearrangeNodes.
  destruct (current (store w)) as [[sid session]|] eqn:Hcur;
    [|intros [= <-] k; reflexivity].
  destruct (autoLayout _ _ _ _) as [newPositions|]; [|discriminate].
  unfold Store.call. rewrite (current_nodes_of _ _ _ Hcur).
  destruct (api_ok _); intros [= <-].
  - unfold current_nodes. simpl. apply apply_positions_links.
  - unfold current_nodes. simpl.
    apply current_inv in Hcur as (-> & _ & _). intros k. reflexivity.
Qed.

(** X5.  Parent/child symmetry of the current session is kept by
    [createSession], by [addNode] of a childless node with a new id under a
    node of the session, by [updateNode] with updates that leave [id],
    [parentId] and [children] alone, by [deleteNode] of a childless node,
    and by [rearrangeNodes]; each of them whether its save succeeds or
    not. *)
Theorem symmetry_kept api_ok w :
  symmetric (current_nodes w) →
  (∀ config now,
     symmetric (current_nodes (Store.createSession api_ok config now w)))
  ∧ (∀ node now p pn,
       current_nodes w !! n_id node = None → n_children node = [] →
       n_parentId node = Some p → current_nodes w !! p = Some pn →
       JS.truthy p = true →
       symmetric (current_nodes (Store.addNode api_ok node now w)))
  ∧ (∀ nodeId updates saveToDb now,
       keeps_links updates →
       symmetric
         (current_nodes (Store.updateNode api_ok nodeId updates saveToDb now w)))
  ∧ (∀ fuel nodeId nodeToDelete now,
       current_nodes w !! nodeId = Some nodeToDelete →
       n_children nodeToDelete = [] → n_parentId nodeToDelete ≠ Some "" →
       ∃ w', Store.deleteNode api_ok fuel nodeId now w = Some w'
             ∧ symmetric (current_nodes w'))
  ∧ (∀ fuel now w',
       Store.rearrangeNodes api_ok fuel now w = Some w' →
       symmetric (current_nodes w')).
Proof.
  intros Hsym. split; [|split; [|split; [|split]]].
  - intros. apply createSession_symmetric, Hsym.
  - intros node now p pn Hfresh Hleaf Hp Hpn Ht.
    eapply addNode_symmetric; eauto.
  - intros nodeId updates saveToDb now Hkeep.
    eapply symmetric_same_links; [|exact Hsym].
    apply updateNode_same_links, Hkeep.
  - intros fuel nodeId nodeToDelete now Hn Hleaf Hpar.
    eapply deleteNode_leaf_symmetric; eauto.
  - intros fuel now w' Hre.
    eapply symmetric_same_links; [|exact Hsym].
    eapply rearrangeNodes_same_links, Hre.
Qed.

(** * [deleteNode]: what it removes and what it leaves *)

Lemma deleteChildren_each_subseteq fuel cs :
  ∀ (m m' : gmap string ChatNode),
    Store.deleteChildren_each fuel cs m = Some m' → m' ⊆ m.
Proof.
  induction cs as [|c cs IH]; intros m m'; simpl.
  - intros [= <-]; reflexivity.
  - destruct (Store.deleteChildren fuel c m) as [acc|] eqn:E; [|discriminate].
    intros Hrun. etrans; [eapply IH, Hrun|]. eapply deleteChildren_subseteq, E.
Qed.

(** Every entry of the map [deleteNode] builds is an entry of the session,
    the entry of the parent with its child list filtered. *)
Lemma deleteNode_nodes_entry fuel nodes nodeId nodeToDelete updatedNodes :
  Store.deleteNode_nodes fuel nodes nodeId nodeToDelete = Some updatedNodes →
  ∀ k n', updatedNodes !! k = Some n' →
    k ≠ nodeId
    ∧ ∃ n, nodes !! k = Some n
           ∧ n' = if bool_decide (n_parentId nodeToDelete = Some k)
                     && JS.truthy k
                  then with_children n
                         (filter (fun id => id ≠ nodeId) (n_children n))
                  else n.
Proof.
  unfold Store.deleteNode_nodes. intros Hrun k n' Hk.
  apply deleteChildren_each_subseteq in Hrun.
  eapply lookup_weaken in Hk; [|exact Hrun].
  apply lookup_delete_Some in Hk as [Hne Hk]. split; [congruence|].
  destruct (n_parentId nodeToDelete) as [parentId|].
  - destruct (decide (parentId = k)) as [->|Hnp].
    + rewrite bool_decide_eq_true_2 by reflexivity. simpl.
      destruct (JS.truthy k); [|eauto].
      destruct (nodes !! k) as [parent|] eqn:Hp; [|congruence].
      rewrite lookup_insert_eq in Hk. injection Hk as <-. eauto.
    + rewrite bool_decide_eq_false_2 by congruence. simpl.
      destruct (JS.truthy parentId); [|eauto].
      destruct (nodes !! parentId) as [parent|] eqn:Hp; [|eauto].
      rewrite lookup_insert_ne in Hk by exact Hnp. eauto.
  - rewrite bool_decide_eq_false_2 by congruence. simpl. eauto.
Qed.

(** X6.  A [deleteNode] whose save succeeds adds no node and changes no
    node that survives, except that the parent of the deleted node no
    longer lists it; the deleted id does not survive. *)
Theorem deleteNode_frame api_ok fuel nodeId now w w' sid session nodeToDelete :
  current (store w) = Some (sid, session) →
  s_nodes session !! nodeId = Some nodeToDelete →
  api_ok (List.length (api_log w)) = true →
  Store.deleteNode api_ok fuel nodeId now w = Some w' →
  current_nodes w' !! nodeId = None
  ∧ ∀ k n', current_nodes w' !! k = Some n' →
      ∃ n, s_nodes session !! k = Some n
           ∧ n' = if bool_decide (n_parentId nodeToDelete = Some k)
                     && JS.truthy k
                  then with_children n
                         (filter (fun id => id ≠ nodeId) (n_children n))
                  else n.
Proof.
  intros Hcur Hn Hok. unfold Store.deleteNode. rewrite Hcur, Hn.
  destruct (Store.deleteNode_nodes _ _ _ _) as [updatedNodes|] eqn:Hrun;
    [|discriminate].
  unfold Store.call. rewrite Hok. intros [= <-].
  unfold current_nodes. simpl. split.
  - eapply deleteNode_nodes_removes, Hrun.
  - intros k n' Hk.
    apply (deleteNode_nodes_entry _ _ _ _ _ Hrun k n' Hk).
Qed.

(** A key that [deleteChildren] removes is listed as a child by a node of
    the map it started from. *)
Lemma deleteChildren_removed_listed fuel :
  ∀ id (m m' : gmap string ChatNode) k,
    Store.deleteChildren fuel id m = Some m' →
    is_Some (m !! k) → m' !! k = None →
    ∃ kd d, m !! kd = Some d ∧ k ∈ n_children d.
Proof.
  induction fuel as [|fuel IH]; intros id m m' k; simpl; [discriminate|].
  destruct (m !! id) as [node|] eqn:Hnode.
  2:{ intros [= <-] [n Hn] Hk. congruence. }
  assert (∀ c, c ∈ n_children node → c ∈ n_children node) as Hcs by auto.
  revert Hcs. generalize (n_children node) at 1 3. intros cs.
  assert (m ⊆ m) as Hsub by reflexivity. revert Hsub.
  generalize m at 1 3 4. intros acc. revert acc.
  induction cs as [|c cs IHcs]; intros acc Hsub Hcs.
  - intros [= <-] [n Hn] Hk. congruence.
  - destruct (Store.deleteChildren fuel c acc) as [acc'|] eqn:E; [|discriminate].
    intros Hrun [n Hn] Hk.
    destruct ((delete c acc') !! k) as [n1|] eqn:Hmid.
    + eapply (IHcs (delete c acc')); eauto.
      * etrans; [apply delete_subseteq|].
        etrans; [eapply deleteChildren_subseteq, E|]. exact Hsub.
      * intros d Hd. apply Hcs. right. exact Hd.
    + apply lookup_delete_None in Hmid as [->|Hgone].
      * exists id, node. split; [exact Hnode|]. apply Hcs. left.
      * destruct (IH c acc acc' k E ltac:(eauto) Hgone) as (kd & d & Hd & Hin).
        exists kd, d. split; [|exact Hin]. eapply lookup_weaken; eauto.
Qed.

Lemma deleteChildren_each_removed_listed fuel cs :
  ∀ (m m' : gmap string ChatNode) k,
    Store.deleteChildren_each fuel cs m = Some m' →
    is_Some (m !! k) → m' !! k = None →
    ∃ kd d, m !! kd = Some d ∧ k ∈ n_children d.
Proof.
  induction cs as [|c cs IH]; intros m m' k; simpl.
  - intros [= <-] [n Hn] Hk. congruence.
  - destruct (Store.deleteChildren fuel c m) as [acc|] eqn:E; [|discriminate].
    intros Hrun Hn Hk. destruct (acc !! k) as [n1|] eqn:Hmid.
    + destruct (IH acc m' k Hrun ltac:(eauto) Hk) as (kd & d & Hd & Hin).
      exists kd, d. split; [|exact Hin].
      eapply lookup_weaken; [exact Hd|]. eapply deleteChildren_subseteq, E.
    + eapply deleteChildren_removed_listed; eauto.
Qed.

(** [deleteChildren id] removes the children the node [id] lists. *)
Lemma deleteChildren_removes_children fuel id (m m' : gmap string ChatNode)
    node g :
  Store.deleteChildren fuel id m = Some m' →
  m !! id = Some node → g ∈ n_children node → m' !! g = None.
Proof.
  destruct fuel as [|fuel]; simpl; [discriminate|].
  intros Hrun Hnode. rewrite Hnode in Hrun. revert Hrun.
  generalize (n_children node). intros cs. revert m' g. clear Hnode.
  generalize m. clear m.
  induction cs as [|c cs IHcs]; intros acc m' g Hrun Hin.
  - inversion Hin.
  - destruct (Store.deleteChildren fuel c acc) as [acc'|] eqn:E; [|discriminate].
    apply elem_of_cons in Hin as [->|Hin].
    + assert (Store.deleteChildren_each (S fuel) [] (delete c acc')
              = Some (delete c acc')) as _ by reflexivity.
      clear IHcs E. revert Hrun.
      assert (delete c acc' !! c = None) as Hgone by apply lookup_delete_eq.
      revert Hgone. generalize (delete c acc'). clear acc acc'.
      induction cs as [|c' cs IH]; intros acc Hgone.
      * intros [= <-]. exact Hgone.
      * destruct (Store.deleteChildren fuel c' acc) as [acc'|] eqn:E;
          [|discriminate].
        apply IH. destruct (decide (c' = c)) as [->|Hne].
        -- apply lookup_delete_eq.
        -- rewrite lookup_delete_ne by exact Hne.
           eapply deleteChildren_absent; eauto.
    + eapply IHcs; eauto.
Qed.

Lemma deleteChildren_each_removes fuel cs :
  ∀ (m m' : gmap string ChatNode) c cn g,
    Store.deleteChildren_each fuel cs m = Some m' →
    c ∈ cs → m' !! c = Some cn → g ∈ n_children cn → m' !! g = None.
Proof.
  induction cs as [|c0 cs IH]; intros m m' c cn g; simpl.
  - intros _ Hin. inversion Hin.
  - destruct (Store.deleteChildren fuel c0 m) as [acc|] eqn:E; [|discriminate].
    intros Hrun Hin Hc Hg.
    destruct (decide (c = c0)) as [->|Hne].
    + eapply deleteChildren_each_absent; [exact Hrun|].
      eapply deleteChildren_removes_children; [exact E| |exact Hg].
      eapply lookup_weaken; [exact Hc|].
      etrans; [eapply deleteChildren_each_subseteq, Hrun|].
      eapply deleteChildren_subseteq, E.
    + apply elem_of_cons in Hin as [->|Hin]; [congruence|].
      eapply IH; eauto.
Qed.

(** X7.  [deleteNode] of a node that has children, in a session with
    parent/child symmetry: the node goes, and so do the children of its
    children, but each of its children stays in the map, with a [parentId]
    that names the deleted node; symmetry is lost. *)
Theorem deleteNode_orphans_children api_ok fuel nodeId now w w' sid session
    nodeToDelete c :
  current (store w) = Some (sid, session) →
  symmetric (s_nodes session) →
  s_nodes session !! nodeId = Some nodeToDelete →
  c ∈ n_children nodeToDelete → c ≠ nodeId →
  api_ok (List.length (api_log w)) = true →
  Store.deleteNode api_ok fuel nodeId now w = Some w' →
  current_nodes w' !! nodeId = None
  ∧ (∃ cn, current_nodes w' !! c = Some cn ∧ n_parentId cn = Some nodeId)
  ∧ (∀ cn g, s_nodes session !! c = Some cn → g ∈ n_children cn →
       current_nodes w' !! g = None)
  ∧ ¬ symmetric (current_nodes w').
Proof.
  intros Hcur (Hkey & Hup & Hdown) Hn Hc Hne Hok. unfold Store.deleteNode.
  rewrite Hcur, Hn.
  destruct (Store.deleteNode_nodes _ _ _ _) as [updatedNodes|] eqn:Hrun;
    [|discriminate].
  unfold Store.call. rewrite Hok. intros [= <-].
  unfold current_nodes. simpl.
  pose proof (deleteNode_nodes_removes _ _ _ _ _ Hrun) as Hgone.
  pose proof (deleteNode_nodes_entry _ _ _ _ _ Hrun) as Hentry.
  assert (n_id nodeToDelete = nodeId) as Hid by (eapply Hkey, Hn).
  destruct (Hdown _ _ _ Hn Hc) as (cn & Hcn & Hcpar). rewrite Hid in Hcpar.
  (* the entry of c in the map handed to deleteChildren *)
  set (W := delete nodeId
              (match n_parentId nodeToDelete with
               | Some parentId =>
                   if JS.truthy parentId then
                     match s_nodes session !! parentId with
                     | Some parent =>
                         <[parentId :=
                             with_children parent
                               (filter (fun id => id ≠ nodeId)
                                       (n_children parent))]>
                           (s_nodes session)
                     | None => s_nodes session
                     end
                   else s_nodes session
               | None => s_nodes session
               end)).
  assert (Store.deleteChildren_each fuel (n_children nodeToDelete) W
          = Some updatedNodes) as Hrun' by exact Hrun.
  assert (∀ k d, W !! k = Some d →
            k ≠ nodeId
            ∧ ∃ d0, s_nodes session !! k = Some d0
                    ∧ n_parentId d = n_parentId d0
                    ∧ ∀ x, x ∈ n_children d → x ∈ n_children d0) as HW.
  { intros k d Hk. subst W. apply lookup_delete_Some in Hk as [Hk1 Hk].
    split; [congruence|].
    destruct (n_parentId nodeToDelete) as [parentId|]; [|eauto].
    destruct (JS.truthy parentId); [|eauto].
    destruct (s_nodes session !! parentId) as [parent|] eqn:Hp; [|eauto].
    destruct (decide (parentId = k)) as [->|Hnp].
    - rewrite lookup_insert_eq in Hk. injection Hk as <-.
      exists parent. repeat split; trivial. simpl. intros x Hx.
      apply list_elem_of_filter in Hx as [_ Hx]. exact Hx.
    - rewrite lookup_insert_ne in Hk by exact Hnp. eauto. }
  assert (is_Some (W !! c)) as [cw Hcw].
  { subst W. rewrite lookup_delete_ne by congruence.
    destruct (n_parentId nodeToDelete) as [parentId|]; [|eauto].
    destruct (JS.truthy parentId); [|eauto].
    destruct (s_nodes session !! parentId) as [parent|] eqn:Hp; [|eauto].
    destruct (decide (parentId = c)) as [->|Hnp].
    - rewrite lookup_insert_eq. eauto.
    - rewrite lookup_insert_ne by exact Hnp. eauto. }
  assert (updatedNodes !! c = Some cw) as Hstay.
  { destruct (updatedNodes !! c) as [x|] eqn:Hx.
    - eapply lookup_weaken in Hx;
        [|eapply deleteChildren_each_subseteq, Hrun']. congruence.
    - exfalso.
      destruct (deleteChildren_each_removed_listed _ _ _ _ _ Hrun'
                  ltac:(eauto) Hx) as (kd & d & Hd & Hin).
      destruct (HW _ _ Hd) as (Hkd & d0 & Hd0 & _ & Hch).
      destruct (Hdown _ _ _ Hd0 (Hch _ Hin)) as (cn2 & Hcn2 & Hpar2).
      rewrite (Hkey _ _ Hd0) in Hpar2. congruence. }
  destruct (HW _ _ Hcw) as (_ & c0 & Hc0 & Hpar0 & _).
  assert (c0 = cn) as -> by congruence.
  assert (n_parentId cw = Some nodeId) as Hcwpar by congruence.
  split; [exact Hgone|]. split; [eauto|]. split.
  - intros cn' g Hcn' Hg. assert (cn' = cn) as -> by congruence.
    destruct (decide (g = nodeId)) as [->|Hgne]; [exact Hgone|].
    eapply (deleteChildren_each_removes _ _ _ _ c cw g Hrun' Hc Hstay).
    destruct (Hentry _ _ Hstay) as (_ & n & Hn' & ->).
    assert (n = cn) as -> by congruence.
    destruct (_ && _); [|exact Hg].
    simpl. apply list_elem_of_filter. split; [exact Hgne | exact Hg].
  - intros (_ & Hup' & _).
    destruct (Hup' _ _ _ Hstay Hcwpar) as (pn & Hpn & _). congruence.
Qed.
(** * Walks through the node map *)

(** X8.  On a session whose child lists have no cycle, [deleteNode] and
    [autoLayout] return once the fuel exceeds the rank of the node they
    start from, and so does [rearrangeNodes]; on a root id that the map
    does not hold, [autoLayout] and [rearrangeNodes] do not return (the
    read of [node.children] throws), whatever the fuel. *)
Theorem walks_return api_ok rank w :
  acyclic rank (current_nodes w) →
  (∀ fuel nodeId now,
     (rank nodeId < fuel)%nat →
     is_Some (Store.deleteNode api_ok fuel nodeId now w))
  ∧ (∀ fuel rootId options,
       is_Some (current_nodes w !! rootId) → (rank rootId < fuel)%nat →
       is_Some (autoLayout fuel (current_nodes w) rootId options))
  ∧ (∀ fuel now sid session,
       current (store w) = Some (sid, session) →
       is_Some (s_nodes session !! s_rootNodeId session) →
       (rank (s_rootNodeId session) < fuel)%nat →
       is_Some (Store.rearrangeNodes api_ok fuel now w))
  ∧ (∀ fuel rootId options,
       current_nodes w !! rootId = None →
       autoLayout fuel (current_nodes w) rootId options = None)
  ∧ (∀ fuel now sid session,
       current (store w) = Some (sid, session) →
       s_nodes session !! s_rootNodeId session = None →
       Store.rearrangeNodes api_ok fuel now w = None).
Proof.
  intros Hrank.
  assert (∀ fuel rootId options,
            is_Some (current_nodes w !! rootId) → (rank rootId < fuel)%nat →
            is_Some (autoLayout fuel (current_nodes w) rootId options)) as Hlay.
  { intros fuel rootId options Hroot Hlt. unfold autoLayout.
    destruct (buildTree_returns rank _ Hrank fuel rootId Hroot Hlt) as [t ->].
    eexists; reflexivity. }
  assert (∀ fuel rootId options,
            current_nodes w !! rootId = None →
            autoLayout fuel (current_nodes w) rootId options = None) as Hno.
  { intros fuel rootId options Hroot. unfold autoLayout.
    destruct fuel as [|fuel]; [reflexivity|]. cbn [buildTree].
    rewrite Hroot. reflexivity. }
  split; [|split; [|split; [|split]]].
  - intros fuel nodeId now Hlt. eapply deleteNode_returns; eauto.
  - exact Hlay.
  - intros fuel now sid session Hcur Hroot Hlt. unfold Store.rearrangeNodes.
    rewrite Hcur. rewrite <- (current_nodes_of _ _ _ Hcur) in Hroot |- *.
    destruct (Hlay fuel (s_rootNodeId session) no_options Hroot Hlt) as [p ->].
    unfold Store.call. destruct (api_ok _); eexists; reflexivity.
  - exact Hno.
  - intros fuel now sid session Hcur Hroot. unfold Store.rearrangeNodes.
    rewrite Hcur. rewrite <- (current_nodes_of _ _ _ Hcur) in Hroot |- *.
    rewrite (Hno fuel (s_rootNodeId session) no_options Hroot). reflexivity.
Qed.

Lemma path_walk_lineage nodes currentId chain :
  lineage nodes currentId chain →
  ∀ fuel path,
    (List.length chain < fuel)%nat →
    Store.path_walk fuel nodes currentId path
    = Some (flat_map Store.path_entries (rev chain) ++ path).
Proof.
  induction 1 as [|id Hf|id Ht Hm|id node rest Ht Hn Hrest IH];
    intros fuel path Hlt; (destruct fuel as [|fuel]; [simpl in Hlt; lia|]);
    cbn [Store.path_walk].
  - reflexivity.
  - rewrite Hf. reflexivity.
  - rewrite Ht, Hm. reflexivity.
  - rewrite Ht, Hn. rewrite IH by (simpl in Hlt; lia).
    simpl. rewrite flat_map_app. simpl. rewrite app_nil_r, <- app_assoc.
    reflexivity.
Qed.

Lemma filter_flat_map {A B} (p : B → bool) (f : A → list B) (l : list A) :
  List.filter p (flat_map f l) = flat_map (fun a => List.filter p (f a)) l.
Proof.
  induction l as [|a l IH]; [reflexivity|].
  simpl. rewrite List.filter_app, IH. reflexivity.
Qed.

Lemma map_flat_map {A B C} (g : B → C) (f : A → list B) (l : list A) :
  map g (flat_map f l) = flat_map (fun a => map g (f a)) l.
Proof.
  induction l as [|a l IH]; [reflexivity|].
  simpl. rewrite List.map_app, IH. reflexivity.
Qed.

Lemma said_turns node :
  Forall (fun t => fst t = user ∨ fst t = assistant) (said node).
Proof.
  unfold said, turns. apply Forall_forall. intros t Ht.
  apply list_elem_of_In, in_map_iff in Ht as (n & <- & Hn).
  apply filter_In in Hn as [_ Hn]. unfold Store.is_turn in Hn. simpl.
  destruct (n_type n); try discriminate; auto.
Qed.

(** X9.  [getConversationPath] returns, once the fuel exceeds the length of
    the chain of parents above the selected node, the turns of the nodes of
    that chain, the farthest ancestor first and the selected node last;
    every entry has the type [user] or [assistant]. *)
Theorem getConversationPath_lineage fuel st session selected chain :
  currentSession st = Some session → selectedNodeId st = Some selected →
  lineage (s_nodes session) (Some selected) chain →
  (List.length chain < fuel)%nat →
  ∃ path,
    Store.getConversationPath fuel st = Some path
    ∧ turns path = flat_map said (rev chain)
    ∧ Forall (fun n => n_type n = user ∨ n_type n = assistant) path.
Proof.
  intros Hs Hsel Hchain Hlt. unfold Store.getConversationPath.
  rewrite Hs, Hsel.
  destruct (JS.truthy selected) eqn:Ht.
  - rewrite (path_walk_lineage _ _ _ Hchain fuel [] Hlt), app_nil_r.
    eexists. split; [reflexivity|]. split.
    + unfold turns, said, turns.
      rewrite filter_flat_map, map_flat_map. reflexivity.
    + apply Forall_forall. intros n Hn.
      apply list_elem_of_In, filter_In in Hn as [_ Hn]. unfold Store.is_turn in Hn.
      destruct (n_type n); try discriminate; auto.
  - inversion Hchain as [|id Hf|id Ht' Hm|id node rest Ht' Hn Hrest];
      subst; try congruence.
    exists []. split; [reflexivity|]. split; [reflexivity|]. constructor.
Qed.

Lemma apply_positions_moved nodes positions k n' :
  Store.apply_positions nodes positions !! k = Some n' →
  ∃ n, nodes !! k = Some n ∧ moved n n'.
Proof.
  unfold Store.apply_positions. rewrite map_lookup_imap.
  destruct (nodes !! k) as [n|]; [|discriminate]. simpl.
  destruct (positions !! k) as [pos|]; intros [= <-]; exists n;
    (split; [reflexivity|]); unfold moved; destruct n; reflexivity.
Qed.

(** X10.  A [rearrangeNodes] whose save succeeds moves nodes and does
    nothing else: the session keeps its ids, every node keeps all its
    fields but [position], the selection stays; and a second
    [rearrangeNodes] leaves every node where the first has put it. *)
Theorem rearrangeNodes_only_moves api_ok fuel now w w' sid session :
  current (store w) = Some (sid, session) →
  api_ok (List.length (api_log w)) = true →
  Store.rearrangeNodes api_ok fuel now w = Some w' →
  dom (current_nodes w') = dom (s_nodes session)
  ∧ (∀ k n', current_nodes w' !! k = Some n' →
       ∃ n, s_nodes session !! k = Some n ∧ moved n n')
  ∧ selectedNodeId (store w') = selectedNodeId (store w)
  ∧ ∀ now', ∃ w2, Store.rearrangeNodes api_ok fuel now' w' = Some w2
                  ∧ current_nodes w2 = current_nodes w'.
Proof.
  intros Hcur Hok Hrun.
  pose proof (rearrangeNodes_again api_ok fuel now) as Hagain.
  assert (∃ positions,
            store w'
            = set_sessions (store w)
                (<[sid := with_nodes session
                            (Store.apply_positions (s_nodes session) positions)
                            now]> (sessions (store w)))
                (Some (with_nodes session
                         (Store.apply_positions (s_nodes session) positions)
                         now))) as [positions Hst].
  { revert Hrun. unfold Store.rearrangeNodes. rewrite Hcur.
    destruct (autoLayout _ _ _ _) as [positions|]; [|discriminate].
    unfold Store.call. rewrite Hok. intros [= <-]. exists positions.
    reflexivity. }
  split; [|split; [|split]].
  4: intros now'; apply (Hagain now' w w' Hok Hrun).
  all: unfold current_nodes; rewrite Hst; simpl.
  - apply set_eq. intros k. rewrite !elem_of_dom.
    unfold Store.apply_positions. rewrite map_lookup_imap.
    destruct (s_nodes session !! k); simpl; split; intros [x Hx];
      try discriminate; eauto.
  - intros k n' Hk. eapply apply_positions_moved, Hk.
  - reflexivity.
Qed.
(** * The layout: widths, rows and overlaps *)

Lemma leaves_eq t :
  leaves t = match ln_children t with
             | [] => 1
             | _ :: _ => sumZ (map leaves (ln_children t))
             end.
Proof. destruct t as [i n cs d x y w h]. destruct cs; reflexivity. Qed.

Lemma leaves_pos t : 1 ≤ leaves t.
Proof.
  induction t as [t IH] using LayoutNode_forall_ind.
  rewrite leaves_eq. destruct (ln_children t) as [|c cs]; [lia|].
  apply Forall_cons in IH as [Hc Hcs].
  cbn [map]. rewrite sumZ_cons.
  pose proof (sumZ_lower leaves 1 cs Hcs). lia.
Qed.

Lemma sumZ_widths_leaves hs cs :
  Forall (fun c => calculateSubtreeWidth c hs
                   = 600 * leaves c + (leaves c - 1) * hs) cs →
  sumZ (map (fun c => calculateSubtreeWidth c hs) cs)
  = 600 * sumZ (map leaves cs)
    + (sumZ (map leaves cs) - Z.of_nat (List.length cs)) * hs.
Proof.
  induction 1 as [|c cs Hc _ IH]; [unfold sumZ; simpl; lia|].
  cbn [map List.length]. rewrite !sumZ_cons, IH, Hc. lia.
Qed.

Lemma width_leaves hs t :
  0 ≤ hs → uniform t →
  calculateSubtreeWidth t hs = 600 * leaves t + (leaves t - 1) * hs.
Proof.
  intros Hhs. induction t as [t IH] using LayoutNode_forall_ind. intros Hu.
  pose proof (leaves_pos t) as Hpos.
  rewrite calculateSubtreeWidth_eq. rewrite leaves_eq in Hpos |- *.
  apply uniform_children in Hu as [Hw Hcs].
  destruct (ln_children t) as [|c cs] eqn:E; [lia|].
  assert (Forall (fun c => calculateSubtreeWidth c hs
                           = 600 * leaves c + (leaves c - 1) * hs) (c :: cs))
    as Hall.
  { rewrite Forall_forall in IH, Hcs |- *. intros d Hd. apply IH; auto. }
  unfold totalWidth. rewrite (sumZ_widths_leaves hs _ Hall), Hw.
  set (L := sumZ (map leaves (c :: cs))) in *.
  assert (0 ≤ (L - 1) * hs) by nia. lia.
Qed.

(** X11.  In the tree [buildTree] makes, where every box is 600 wide, the
    width [calculateSubtreeWidth] gives to a subtree is that of its leaves
    side by side: 600 for each leaf and one spacing between two
    neighbours. *)
Theorem subtree_width_of_leaves fuel nodes rootId tree hs m :
  buildTree fuel nodes rootId = Some tree →
  0 ≤ hs → m ∈ subtree_nodes tree →
  calculateSubtreeWidth m hs = 600 * leaves m + (leaves m - 1) * hs
  ∧ 1 ≤ leaves m
  ∧ (ln_children m = [] → calculateSubtreeWidth m hs = 600).
Proof.
  intros Hbuild Hhs Hm.
  pose proof (Forall_subtree _ _ _ (buildTree_uniform _ _ _ _ Hbuild) Hm) as Hu.
  split; [apply width_leaves; assumption|]. split; [apply leaves_pos|].
  intros Hleaf. rewrite calculateSubtreeWidth_eq, Hleaf.
  apply uniform_children in Hu as [Hw _]. exact Hw.
Qed.

Lemma fold_left_nonneg {A} (f : A → Z) (l : list A) :
  (∀ a, 0 ≤ f a) → ∀ acc, 0 ≤ acc → 0 ≤ fold_left (fun h a => h + f a) l acc.
Proof.
  intros Hf. induction l as [|a l IH]; intros acc Hacc; [exact Hacc|].
  simpl. apply IH. specialize (Hf a). lia.
Qed.

Lemma line_height_nonneg line : 0 ≤ line_height line.
Proof.
  unfold line_height. destruct (JS.trim_is_empty line); [lia|].
  destruct (JS.startsWith "#" line); [lia|].
  destruct (JS.startsWith "```" line); [lia|].
  unfold JS.ceil_div. pose proof (text_length_nonneg line).
  assert (0 ≤ (JS.length line + 60 - 1) / 60) by (apply Z.div_pos; lia).
  lia.
Qed.

Lemma estimateContentHeight_nonneg text : 0 ≤ estimateContentHeight text.
Proof.
  unfold estimateContentHeight. destruct (negb (JS.truthy text)); [lia|].
  apply fold_left_nonneg.
  - intros block. unfold block_height. lia.
  - apply fold_left_nonneg; [apply line_height_nonneg|lia].
Qed.

Lemma estimateNodeHeight_lower node : 200 ≤ estimateNodeHeight node.
Proof.
  unfold estimateNodeHeight. destruct (n_type node); try lia.
  pose proof (estimateContentHeight_nonneg (default "" (n_userMessage node))).
  pose proof (estimateContentHeight_nonneg
                (default "" (n_assistantMessage node))).
  destruct (JS.truthy_opt (n_thinkingContent node)); lia.
Qed.

Lemma buildTree_measured fuel nodes : ∀ rootId t,
  buildTree fuel nodes rootId = Some t → measured t.
Proof.
  induction fuel as [|fuel IH]; intros rootId t; [discriminate|].
  cbn [buildTree]. destruct (nodes !! rootId) as [node|]; [|discriminate].
  destruct (mapM _ _) as [children|] eqn:E; [|discriminate].
  intros [= <-]. unfold measured. rewrite subtree_nodes_eq. cbn [ln_children].
  constructor; [reflexivity|].
  apply mapM_Some in E.
  induction E as [|c t' cs ts Hc _ IHE]; [constructor|].
  cbn [flat_map]. apply Forall_app. split; [exact (IH _ _ Hc)|exact IHE].
Qed.

Lemma layoutTree_boxes t : ∀ x y depth hs vs,
  map (fun m => (ln_height m, ln_node m))
      (subtree_nodes (layoutTree t x y depth hs vs))
  = map (fun m => (ln_height m, ln_node m)) (subtree_nodes t).
Proof.
  induction t as [t IH] using LayoutNode_forall_ind.
  intros x y depth hs vs.
  rewrite (subtree_nodes_eq t), subtree_nodes_eq, layoutTree_eq.
  cbn [ln_children map ln_height ln_node]. f_equal.
  generalize (x - totalWidth hs (ln_children t) / 2).
  induction IH as [|c cs Hc _ IHcs]; intros X; [reflexivity|].
  cbn [place flat_map]. rewrite !map_app. f_equal; [apply Hc|apply IHcs].
Qed.

Lemma layoutTree_measured t x y depth hs vs :
  measured t → measured (layoutTree t x y depth hs vs).
Proof.
  unfold measured. rewrite !Forall_forall. intros H m Hm.
  assert ((ln_height m, ln_node m)
          ∈ map (fun m => (ln_height m, ln_node m))
                (subtree_nodes (layoutTree t x y depth hs vs))) as Hin.
  { apply list_elem_of_In.
    apply (in_map (fun m0 => (ln_height m0, ln_node m0))).
    apply list_elem_of_In, Hm. }
  rewrite layoutTree_boxes in Hin.
  apply list_elem_of_In, in_map_iff in Hin as (m' & Heq & Hm').
  injection Heq as Hh Hn. rewrite <- Hh, <- Hn.
  apply H, list_elem_of_In, Hm'.
Qed.

Lemma layoutTree_stacked t : ∀ x y depth hs vs,
  Forall (stacked_at vs) (subtree_nodes (layoutTree t x y depth hs vs)).
Proof.
  induction t as [t IH] using LayoutNode_forall_ind.
  intros x y depth hs vs.
  rewrite subtree_nodes_eq, layoutTree_eq. cbn [ln_children].
  constructor.
  - intros k c' Hk. cbn [ln_children ln_y ln_height ln_depth] in *.
    apply place_lookup_inv in Hk as (c & Hc & ->).
    rewrite layoutTree_eq. split; reflexivity.
  - generalize (x - totalWidth hs (ln_children t) / 2).
    induction IH as [|c cs Hc _ IHcs]; intros X; simpl; [constructor|].
    apply Forall_app. split; [apply Hc|apply IHcs].
Qed.

Lemma stacked_below vs t :
  Forall (stacked_at vs) (subtree_nodes t) →
  Forall (fun m => 0 ≤ ln_height m + vs) (subtree_nodes t) →
  ∀ m, m ∈ subtree_nodes t → m = t ∨ ln_y t + ln_height t + vs ≤ ln_y m.
Proof.
  induction t as [t IH] using LayoutNode_forall_ind.
  intros Hst Hh m Hm.
  apply subtree_nodes_inv in Hm as [->|(k & c & Hc & Hm)]; [left; reflexivity|].
  right.
  assert (c ∈ subtree_nodes t) as Hsub
    by (eapply subtree_nodes_child; [exact Hc|apply subtree_nodes_self]).
  assert (c ∈ ln_children t) as Hin by (eapply list_elem_of_lookup_2, Hc).
  pose proof (Forall_subtree _ _ _ Hst Hsub) as Hstc.
  pose proof (Forall_subtree _ _ _ Hh Hsub) as Hhc.
  rewrite Forall_forall in IH.
  assert (stacked_at vs t) as Hat.
  { rewrite Forall_forall in Hst. apply Hst, subtree_nodes_self. }
  destruct (Hat k c Hc) as [Hy _].
  assert (0 ≤ ln_height c + vs) as Hc0.
  { rewrite Forall_forall in Hhc. apply Hhc, subtree_nodes_self. }
  destruct (IH c Hin Hstc Hhc m Hm) as [->|Hlow]; lia.
Qed.

Lemma arranged_disjoint hs t :
  0 ≤ hs → Z.even hs = true → uniform t →
  Forall (arranged_at hs) (subtree_nodes t) →
  ∀ m1 m2, m1 ∈ subtree_nodes t → m2 ∈ subtree_nodes t →
    m2 ∈ subtree_nodes m1 ∨ m1 ∈ subtree_nodes m2
    ∨ ln_x m1 + 600 + hs ≤ ln_x m2 ∨ ln_x m2 + 600 + hs ≤ ln_x m1.
Proof.
  intros Hhs Heven. induction t as [t IH] using LayoutNode_forall_ind.
  intros Hu Harr m1 m2 Hm1 Hm2.
  pose proof Hm1 as Hm1'. pose proof Hm2 as Hm2'.
  apply subtree_nodes_inv in Hm1 as [->|(k1 & c1 & Hc1 & Hm1)]; [auto|].
  apply subtree_nodes_inv in Hm2 as [->|(k2 & c2 & Hc2 & Hm2)]; [auto|].
  assert (∀ k c, ln_children t !! k = Some c →
            c ∈ ln_children t ∧ uniform c
            ∧ Forall (arranged_at hs) (subtree_nodes c)) as Hchild.
  { intros k c Hc.
    assert (c ∈ subtree_nodes t) as Hsub
      by (eapply subtree_nodes_child; [exact Hc|apply subtree_nodes_self]).
    split; [eapply list_elem_of_lookup_2, Hc|].
    split; eapply Forall_subtree; eauto. }
  destruct (Hchild _ _ Hc1) as (Hin1 & Hu1 & Harr1).
  destruct (Hchild _ _ Hc2) as (Hin2 & Hu2 & Harr2).
  assert (arranged_at hs t) as Hat.
  { rewrite Forall_forall in Harr. apply Harr, subtree_nodes_self. }
  assert (Forall (fun c => 0 ≤ calculateSubtreeWidth c hs) (ln_children t))
    as Hw.
  { apply Forall_forall. intros d Hd.
    apply list_elem_of_lookup in Hd as (k & Hk).
    destruct (Hchild _ _ Hk) as (_ & Hud & _).
    pose proof (width_uniform hs d Hhs Hud) as [? _]. lia. }
  pose proof (arranged_within hs c1 Hhs Heven Hu1 Harr1 m1 Hm1) as [Hl1 Hr1].
  pose proof (arranged_within hs c2 Hhs Heven Hu2 Harr2 m2 Hm2) as [Hl2 Hr2].
  destruct (lt_eq_lt_dec k1 k2) as [[Hlt|Heq]|Hgt].
  - pose proof (arranged_apart hs t k1 k2 c1 c2 Hhs Hat Hw Hlt Hc1 Hc2).
    right; right; left. lia.
  - subst k2. assert (c2 = c1) as -> by congruence.
    rewrite Forall_forall in IH. apply (IH c1 Hin1 Hu1 Harr1); assumption.
  - pose proof (arranged_apart hs t k2 k1 c2 c1 Hhs Hat Hw Hgt Hc2 Hc1).
    right; right; right. lia.
Qed.

(** What the position map holds for the nodes of the placed tree. *)
Lemma autoLayout_positions fuel nodes rootId options tree :
  buildTree fuel nodes rootId = Some tree →
  NoDup (map ln_id (subtree_nodes tree)) →
  let laid := layoutTree tree 300 50 0
                (default 100 (horizontalSpacing options))
                (default 80 (verticalSpacing options)) in
  autoLayout fuel nodes rootId options = Some (collectPositions laid ∅)
  ∧ ∀ m, m ∈ subtree_nodes laid →
      collectPositions laid ∅ !! ln_id m
      = Some {| px := ln_x m; py := ln_y m |}.
Proof.
  intros Hbuild Hnd laid. split.
  { unfold autoLayout. rewrite Hbuild. reflexivity. }
  intros m Hm. rewrite collectPositions_fold.
  apply fold_insert_lookup; [|exact Hm].
  unfold laid. rewrite (proj2 (layoutTree_nodes tree 300 50 0 _ _)).
  exact Hnd.
Qed.

(** X12.  The rows of a layout, for a tree with distinct ids: the root is
    at (300, 50), and every child is at the height of its parent plus the
    estimated height of the parent's node plus the vertical spacing (80
    unless the caller gives another); that estimate is at least 200. *)
Theorem autoLayout_rows fuel nodes rootId options tree :
  let hs := default 100 (horizontalSpacing options) in
  let vs := default 80 (verticalSpacing options) in
  buildTree fuel nodes rootId = Some tree →
  NoDup (map ln_id (subtree_nodes tree)) →
  ∃ positions,
    autoLayout fuel nodes rootId options = Some positions
    ∧ positions !! ln_id tree = Some {| px := 300; py := 50 |}
    ∧ ∀ p k c, p ∈ subtree_nodes (layoutTree tree 300 50 0 hs vs) →
        ln_children p !! k = Some c →
        ∃ pos pos',
          positions !! ln_id p = Some pos ∧ positions !! ln_id c = Some pos'
          ∧ py pos' = py pos + estimateNodeHeight (ln_node p) + vs
          ∧ 200 ≤ estimateNodeHeight (ln_node p).
Proof.
  intros hs vs Hbuild Hnd.
  destruct (autoLayout_positions fuel nodes rootId options tree Hbuild Hnd)
    as [Hrun Hpos].
  fold hs vs in Hrun, Hpos.
  set (laid := layoutTree tree 300 50 0 hs vs) in *.
  exists (collectPositions laid ∅). split; [exact Hrun|]. split.
  - specialize (Hpos laid (subtree_nodes_self laid)).
    assert (ln_id laid = ln_id tree ∧ ln_x laid = 300 ∧ ln_y laid = 50)
      as (Hi & Hx & Hy) by (unfold laid; rewrite layoutTree_eq; auto).
    rewrite Hi, Hx, Hy in Hpos. exact Hpos.
  - intros p k c Hp Hc.
    assert (c ∈ subtree_nodes laid) as Hcin.
    { eapply subtree_nodes_trans; [exact Hp|].
      eapply subtree_nodes_child; [exact Hc|apply subtree_nodes_self]. }
    eexists _, _. split; [apply Hpos, Hp|]. split; [apply Hpos, Hcin|].
    pose proof (layoutTree_stacked tree 300 50 0 hs vs) as Hst.
    pose proof (layoutTree_measured tree 300 50 0 hs vs
                  (buildTree_measured _ _ _ _ Hbuild)) as Hme.
    fold laid in Hst, Hme. unfold measured in Hme.
    rewrite Forall_forall in Hst, Hme.
    destruct (Hst p Hp k c Hc) as [Hy _]. cbn [py].
    rewrite Hy, (Hme p Hp). split; [reflexivity|].
    apply estimateNodeHeight_lower.
Qed.

(** X13.  No two nodes of a layout overlap, for a tree with distinct ids,
    an even spacing [hs >= 0] and a spacing [vs >= 0]: two nodes are either
    in different columns, their positions at least [600 + hs] apart
    horizontally, or one is an ancestor of the other and the descendant is
    below it by at least the height of the ancestor plus [vs]. *)
Theorem autoLayout_no_overlap fuel nodes rootId options tree :
  let hs := default 100 (horizontalSpacing options) in
  let vs := default 80 (verticalSpacing options) in
  0 ≤ hs → Z.even hs = true → 0 ≤ vs →
  buildTree fuel nodes rootId = Some tree →
  NoDup (map ln_id (subtree_nodes tree)) →
  ∃ positions,
    autoLayout fuel nodes rootId options = Some positions
    ∧ ∀ m1 m2,
        m1 ∈ subtree_nodes (layoutTree tree 300 50 0 hs vs) →
        m2 ∈ subtree_nodes (layoutTree tree 300 50 0 hs vs) →
        ln_id m1 ≠ ln_id m2 →
        ∃ pos1 pos2,
          positions !! ln_id m1 = Some pos1
          ∧ positions !! ln_id m2 = Some pos2
          ∧ (px pos1 + 600 + hs ≤ px pos2 ∨ px pos2 + 600 + hs ≤ px pos1
             ∨ py pos1 + estimateNodeHeight (ln_node m1) + vs ≤ py pos2
             ∨ py pos2 + estimateNodeHeight (ln_node m2) + vs ≤ py pos1).
Proof.
  intros hs vs Hhs Heven Hvs Hbuild Hnd.
  destruct (autoLayout_positions fuel nodes rootId options tree Hbuild Hnd)
    as [Hrun Hpos].
  fold hs vs in Hrun, Hpos.
  set (laid := layoutTree tree 300 50 0 hs vs) in *.
  exists (collectPositions laid ∅). split; [exact Hrun|].
  intros m1 m2 Hm1 Hm2 Hne.
  eexists _, _. split; [apply Hpos, Hm1|]. split; [apply Hpos, Hm2|].
  cbn [px py].
  pose proof (layoutTree_uniform tree 300 50 0 hs vs
                (buildTree_uniform _ _ _ _ Hbuild)) as Hu.
  pose proof (layoutTree_arranged tree 300 50 0 hs vs) as Harr.
  pose proof (layoutTree_stacked tree 300 50 0 hs vs) as Hst.
  pose proof (layoutTree_measured tree 300 50 0 hs vs
                (buildTree_measured _ _ _ _ Hbuild)) as Hme.
  fold laid in Hu, Harr, Hst, Hme.
  assert (Forall (fun m => 0 ≤ ln_height m + vs) (subtree_nodes laid)) as Hh.
  { unfold measured in Hme. rewrite Forall_forall in Hme |- *.
    intros m Hm. rewrite (Hme m Hm).
    pose proof (estimateNodeHeight_lower (ln_node m)). lia. }
  assert (∀ a d, a ∈ subtree_nodes laid → d ∈ subtree_nodes a →
            ln_id a ≠ ln_id d →
            ln_y a + estimateNodeHeight (ln_node a) + vs ≤ ln_y d) as Hbelow.
  { intros a d Ha Hd Hid.
    destruct (stacked_below vs a (Forall_subtree _ _ _ Hst Ha)
                (Forall_subtree _ _ _ Hh Ha) d Hd) as [->|Hlow]; [congruence|].
    unfold measured in Hme. rewrite Forall_forall in Hme.
    rewrite <- (Hme a Ha). exact Hlow. }
  destruct (arranged_disjoint hs laid Hhs Heven Hu Harr m1 m2 Hm1 Hm2)
    as [Hd|[Hd|[Hx|Hx]]].
  - right; right; left. apply Hbelow; assumption.
  - right; right; right. apply Hbelow; [assumption..|congruence].
  - left. exact Hx.
  - right; left. exact Hx.
Qed.

Lemma buildTree_mirrors fuel nodes :
  keyed nodes →
  ∀ rootId t, buildTree fuel nodes rootId = Some t →
    ln_id t = rootId ∧ Forall (mirrors nodes) (subtree_nodes t).
Proof.
  intros Hkey. induction fuel as [|fuel IH]; intros rootId t; [discriminate|].
  cbn [buildTree]. destruct (nodes !! rootId) as [node|] eqn:Hnode;
    [|discriminate].
  destruct (mapM _ _) as [children|] eqn:E; [|discriminate].
  intros [= <-]. cbn [ln_id].
  pose proof (Hkey _ _ Hnode) as Hid. split; [exact Hid|].
  rewrite subtree_nodes_eq. cbn [ln_children].
  apply mapM_Some in E.
  constructor.
  - split; cbn [ln_id ln_node ln_children]; [rewrite Hid; exact Hnode|].
    revert E. generalize (filter (fun childId => is_Some (nodes !! childId))
                                 (n_children node)).
    intros ids E. induction E as [|c t' cs ts Hc _ IHE]; [reflexivity|].
    cbn [map]. rewrite IHE, (proj1 (IH _ _ Hc)). reflexivity.
  - induction E as [|c t' cs ts Hc _ IHE]; [constructor|].
    cbn [flat_map]. apply Forall_app.
    split; [exact (proj2 (IH _ _ Hc))|exact IHE].
Qed.

Lemma fold_insert_dom (l : list LayoutNode) :
  ∀ (acc : gmap string Position) k,
    is_Some
      (fold_left
         (fun acc m => <[ln_id m := {| px := ln_x m; py := ln_y m |}]> acc)
         l acc !! k)
    ↔ k ∈ map ln_id l ∨ is_Some (acc !! k).
Proof.
  induction l as [|m l IH]; intros acc k; simpl.
  - split; [auto|]. intros [H|H]; [inversion H|exact H].
  - rewrite IH. rewrite elem_of_cons. split.
    + intros [H|H]; [auto|].
      destruct (decide (k = ln_id m)) as [->|Hne]; [auto|].
      rewrite lookup_insert_ne in H by congruence. auto.
    + intros [[->|H]|H]; [|auto|].
      * right. rewrite lookup_insert_eq. eauto.
      * right. destruct (decide (k = ln_id m)) as [->|Hne].
        -- rewrite lookup_insert_eq. eauto.
        -- rewrite lookup_insert_ne by congruence. exact H.
Qed.

(** X27.  The layout tree mirrors the node map.  For a map in which every
    node is stored under its own id, each node of the tree [buildTree]
    makes stands for the node of the map under its id, in a box 600 wide
    and as high as the estimate for that node, and its children are, in
    order, the child ids of that node that the map holds: an id that names
    no node is skipped.  [autoLayout] gives a position to the ids of this
    tree and to no other id. *)
Theorem buildTree_shape fuel nodes rootId options tree :
  keyed nodes → buildTree fuel nodes rootId = Some tree →
  ln_id tree = rootId
  ∧ (∀ m, m ∈ subtree_nodes tree →
       mirrors nodes m ∧ ln_width m = 600
       ∧ ln_height m = estimateNodeHeight (ln_node m))
  ∧ ∃ positions,
      autoLayout fuel nodes rootId options = Some positions
      ∧ ∀ k, is_Some (positions !! k) ↔ k ∈ map ln_id (subtree_nodes tree).
Proof.
  intros Hkey Hbuild.
  destruct (buildTree_mirrors fuel nodes Hkey rootId tree Hbuild)
    as [Hroot Hmir].
  pose proof (buildTree_uniform _ _ _ _ Hbuild) as Hu.
  pose proof (buildTree_measured _ _ _ _ Hbuild) as Hme.
  unfold uniform, measured in *. rewrite Forall_forall in Hmir, Hu, Hme.
  split; [exact Hroot|]. split; [intros m Hm; auto|].
  unfold autoLayout. rewrite Hbuild. eexists. split; [reflexivity|].
  intros k. rewrite collectPositions_fold, fold_insert_dom.
  rewrite (proj2 (layoutTree_nodes tree 300 50 0 _ _)).
  split; [intros [H|[x H]]; [exact H|rewrite lookup_empty in H; discriminate]
         |auto].
Qed.
(** * [handleSend]: its guards and the state it leaves *)

(** X14.  The end of a completed stream, when the last save succeeds:
    although [addNode] is called twice, the conversation node gets exactly
    one new child, the input node named at the second call, which is
    selected; the node holds the content and the thinking of the response;
    no other id is added; and the session saved last is the session the
    store holds. *)
Theorem complete_adds_one_child api_ok node clock arrivals response
    l w sid session n :
  current (store w) = Some (sid, session) →
  s_nodes session !! conversationNodeId l = Some n →
  JS.truthy (conversationNodeId l) = true →
  let cid := conversationNodeId l in
  let child := JS.with_number "input-" (at_input_again clock) in
  s_nodes session !! child = None →
  api_ok (S (S (List.length (api_log w)))) = true →
  let w' := handleSend_end api_ok node clock (resolved response)
              (stream api_ok arrivals (l, w)) in
  (∃ saved, last (api_log w') = Some (api_updateSession saved)
            ∧ currentSession (store w') = Some saved)
  ∧ dom (current_nodes w') = dom (s_nodes session) ∪ {[child]}
  ∧ (∃ n', current_nodes w' !! cid = Some n'
           ∧ n_assistantMessage n' = Some (r_content response)
           ∧ n_thinkingContent n' = r_thinkingContent response
           ∧ n_children n' = (n_children n ++ [child])%list)
  ∧ (∃ c, current_nodes w' !! child = Some c ∧ n_type c = input
          ∧ n_parentId c = Some cid ∧ n_children c = [])
  ∧ selectedNodeId (store w') = Some child.
Proof.
  intros Hcur Hn Htid cid child Hfresh Hok w'.
  destruct (stream_spec api_ok arrivals l w sid session n Hcur Hn)
    as (l' & w1 & session' & n' & Hrun & Hcur' & Hnodes & Hlog & Hai
        & Hal & Hsel & Hid & Hy & Hum & Hsc & Hst & Ham & Htc & Hfr).
  assert (s_nodes session' !! conversationNodeId l' = Some n') as Hn'.
  { rewrite Hid, Hnodes. apply lookup_insert_eq. }
  assert (JS.truthy (conversationNodeId l') = true) as Htid'
    by (rewrite Hid; exact Htid).
  subst w'. rewrite Hrun.
  destruct (complete_end api_ok node clock response l' w1 sid session' n'
              Hcur' Hn' Htid') as (Hlog' & Hsel' & Hcs & _ & _).
  rewrite Hlog, Hok in Hcs.
  set (w' := handleSend_end api_ok node clock (resolved response) (l', w1))
    in *.
  set (n1 := spread n' (set_final (r_content response)
                                  (r_thinkingContent response) (at_end clock)))
    in *.
  set (c := newInputNode node l' (at_input_again clock)) in *.
  assert (n_id c = child) as Hcid by reflexivity.
  assert (n_parentId c = Some cid) as Hcpar
    by (simpl; rewrite Hid; reflexivity).
  assert (child ≠ cid) as Hne.
  { intros E. pose proof Hfresh as H. unfold child in H, E. unfold cid in E.
    rewrite E, Hn in H. discriminate. }
  assert (current_nodes w'
          = <[cid := with_children n1 (n_children n1 ++ [child])]>
              (<[child := c]> (<[cid := n1]> (s_nodes session)))) as Hfinal.
  { unfold current_nodes. rewrite Hcs. cbn [s_nodes with_nodes].
    rewrite Hnodes, Hid. fold cid. rewrite insert_insert_eq.
    rewrite (addNode_nodes_eq _ c cid n1); rewrite ?Hcid; trivial.
    - rewrite lookup_insert_ne by congruence. exact Hfresh.
    - apply lookup_insert_eq. }
  destruct Hfr as (_ & _ & _ & _ & Hch & _).
  split; [|split; [|split; [|split]]].
  - eexists. split; [|exact Hcs]. rewrite Hlog'.
    rewrite last_app. reflexivity.
  - rewrite Hfinal, !dom_insert_L.
    assert (cid ∈ dom (s_nodes session)) as Hin by (eapply elem_of_dom_2, Hn).
    apply set_eq. intros x. rewrite !elem_of_union, !elem_of_singleton.
    split.
    + intros [->|[->|[->|Hx]]]; auto.
    + intros [Hx| ->]; auto.
  - rewrite Hfinal, lookup_insert_eq. eexists. split; [reflexivity|].
    simpl. rewrite Hch. repeat split; reflexivity.
  - rewrite Hfinal, lookup_insert_ne, lookup_insert_eq by congruence.
    exists c. repeat split. exact Hcpar.
  - exact Hsel'.
Qed.

(** X15.  The guards of [handleSend]: a text of white space only, or a
    store without a current session, makes it return at once, with no
    change of the store, no save, no request and no alert; a missing model
    makes it alert and do nothing else. *)
Theorem handleSend_guards api_ok node input_text modelToUse fuel clock
    arrivals outcome w :
  (blank input_text ∨ currentSession (store w) = None →
   handleSend api_ok node input_text modelToUse fuel clock arrivals outcome w
   = w)
  ∧ (¬ blank input_text → is_Some (currentSession (store w)) →
     modelToUse = None →
     handleSend api_ok node input_text modelToUse fuel clock arrivals outcome w
     = with_alert w "请先在设置中配置并设置默认 AI 模型").
Proof.
  unfold handleSend, handleSend_begin. split.
  - intros [Hb|Hs].
    + apply trim_empty_iff in Hb. rewrite Hb. reflexivity.
    + rewrite Hs. destruct (negb _); reflexivity.
  - intros Hb [session Hs] ->. rewrite Hs.
    destruct (JS.truthy (JS.trim input_text)) eqn:Ht; [reflexivity|].
    apply trim_empty_iff in Ht. contradiction.
Qed.






Lemma title_of_length userMessage : JS.length (title_of userMessage) ≤ 33.
Proof.
  unfold title_of.
  destruct (Z.ltb 30 (JS.length userMessage)) eqn:E.
  - rewrite text_length_app. pose proof (slice0_length 30 userMessage).
    change (JS.length "...") with 3. lia.
  - apply Z.ltb_ge in E. lia.
Qed.

(** X17.  The first message of a session: sent from the root input node of
    a session that still has the title given by [createSession], it turns
    the root into a conversation node that holds the trimmed text and no
    answer yet, with its children kept, and, when the save of the title
    succeeds, it names the session after the text: the text itself, or its
    first 30 code units followed by three dots, 33 code units at most. *)
Theorem first_message_names_session api_ok node input_text modelToUse fuel now
    w session n l w1 :
  n_type node = input → n_id node = "root" → s_title session = "新对话" →
  current (store w) = Some (s_id session, session) →
  s_nodes session !! "root" = Some n →
  api_ok (S (List.length (api_log w))) = true →
  handleSend_begin api_ok node input_text modelToUse fuel now w = inr (l, w1) →
  conversationNodeId l = "root"
  ∧ ∃ session1 n1,
      current (store w1) = Some (s_id session, session1)
      ∧ sessions (store w1) !! s_id session = Some session1
      ∧ s_title session1 = title_of (JS.trim input_text)
      ∧ JS.length (s_title session1) ≤ 33
      ∧ dom (s_nodes session1) = dom (s_nodes session)
      ∧ s_nodes session1 !! "root" = Some n1
      ∧ n_type n1 = conversation
      ∧ n_userMessage n1 = Some (JS.trim input_text)
      ∧ n_assistantMessage n1 = None
      ∧ n_children n1 = n_children n.
Proof.
  intros Htype Hroot Htitle Hcur Hn Hok. unfold handleSend_begin.
  rewrite (current_session _ _ _ Hcur).
  destruct (negb (JS.truthy (JS.trim input_text))); [discriminate|].
  destruct modelToUse as [model|]; [|discriminate].
  rewrite Htype, Hroot, Htitle.
  rewrite (updateNode_present _ _ _ _ _ _ (s_id session) session n Hcur Hn).
  change (String.eqb "新对话" "新对话" && String.eqb "root" "root") with true.
  cbv beta iota zeta.
  fold (title_of (JS.trim input_text)).
  set (n1 := spread n (to_conversation (JS.trim input_text)
                         (quotedContent (store w)) (model_label model) now)).
  set (s0 := with_nodes session (<["root" := n1]> (s_nodes session)) now).
  unfold Store.updateSessionTitle. cbn [store sessions set_sessions].
  rewrite lookup_insert_eq. unfold Store.call.
  cbn [store api_log]. rewrite length_app. cbn [List.length].
  replace (List.length (api_log w) + 1)%nat with (S (List.length (api_log w)))
    by lia.
  rewrite Hok. cbn [store set_sessions currentSessionId with_store].
  apply current_inv in Hcur as (Hs & Hi & Ht). rewrite Hi.
  rewrite decide_True by reflexivity.
  destruct (Store.getConversationPath _ _); [|discriminate].
  intros [= <- <-]. split; [reflexivity|].
  exists (with_title s0 (title_of (JS.trim input_text)) now), n1.
  cbn [store with_request Store.setQuotedContent with_store sessions
       set_sessions s_title with_title s_nodes with_nodes].
  split.
  { unfold current. cbn. rewrite Hi, Ht. reflexivity. }
  split; [apply lookup_insert_eq|].
  split; [reflexivity|]. split; [apply title_of_length|].
  split.
  { subst s0. cbn. rewrite dom_insert_L.
    apply subseteq_union_1_L, singleton_subseteq_l. eapply elem_of_dom_2, Hn. }
  split; [subst s0; cbn; apply lookup_insert_eq|].
  repeat split; reflexivity.
Qed.

(** X18.  A stream cancelled before any content has arrived: the handler
    returns the store as the chunks left it.  Nothing is saved, no input
    node is added under the conversation node, the selection stays, and
    the thinking received so far stays in memory only. *)
Theorem cancel_before_content api_ok node clock arrivals message
    l w sid session n :
  current (store w) = Some (sid, session) →
  s_nodes session !! conversationNodeId l = Some n →
  streamedContent l = "" → existsb is_content arrivals = false →
  let w' := handleSend_end api_ok node clock
              (rejected (an_Error "AbortError" message))
              (stream api_ok arrivals (l, w)) in
  api_log w' = api_log w ∧ alerts w' = alerts w
  ∧ selectedNodeId (store w') = selectedNodeId (store w)
  ∧ dom (current_nodes w') = dom (s_nodes session)
  ∧ ∃ n', current_nodes w' !! conversationNodeId l = Some n'
          ∧ n_children n' = n_children n
          ∧ n_assistantMessage n' = n_assistantMessage n
          ∧ n_thinkingContent n'
            = (if existsb is_thinking arrivals
               then Some (streamedThinking l +:+ received_thinking arrivals)
               else n_thinkingContent n).
Proof.
  intros Hcur Hn Hsc0 Hnone w'.
  destruct (stream_spec api_ok arrivals l w sid session n Hcur Hn)
    as (l' & w1 & session' & n' & Hrun & Hcur' & Hnodes & Hlog & Hai
        & Hal & Hsel & Hid & Hy & Hum & Hsc & Hst & Ham & Htc & Hfr).
  subst w'. rewrite cancel_without_content.
  2:{ rewrite Hrun. cbn [fst]. rewrite Hsc, Hsc0.
      rewrite (received_content_none _ Hnone). reflexivity. }
  rewrite Hrun. cbn [snd].
  rewrite (current_nodes_of _ _ _ Hcur'), Hnodes.
  repeat split; trivial.
  - rewrite dom_insert_L.
    apply subseteq_union_1_L, singleton_subseteq_l. eapply elem_of_dom_2, Hn.
  - exists n'. rewrite lookup_insert_eq. split; [reflexivity|].
    destruct Hfr as (_ & _ & _ & _ & Hch & _).
    rewrite Hnone in Ham. rewrite Hst in Htc. auto.
Qed.
(** * The database: what a row keeps *)

(** X19.  The [sessions] table.  A session created under a new key is read
    back with all its fields but [defaultModelId], which no column holds;
    a key already taken makes [createSession] throw; [updateSession]
    replaces the title, the nodes, the root id and [updatedAt] and keeps
    the [createdAt] of the row, and does nothing, silently, when no row
    has the key; a deleted session is not found. *)
Theorem session_rows_round_trip (session : ChatSession)
    (table : gmap string Database.SessionRow) :
  (table !! s_id session = None →
   ∃ table', Database.createSession session table = Some table'
     ∧ Database.getSession (s_id session) table'
       = Some (as_stored session (s_createdAt session))
     ∧ ∀ id, id ≠ s_id session →
         Database.getSession id table' = Database.getSession id table)
  ∧ (is_Some (table !! s_id session) →
     Database.createSession session table = None)
  ∧ (∀ row, table !! s_id session = Some row →
       Database.getSession (s_id session) (Database.updateSession session table)
       = Some (as_stored session (Database.srow_createdAt row)))
  ∧ (∀ id, id ≠ s_id session →
       Database.getSession id (Database.updateSession session table)
       = Database.getSession id table)
  ∧ (table !! s_id session = None →
     Database.updateSession session table = table)
  ∧ (∀ id, Database.getSession id (Database.deleteSession id table) = None)
  ∧ (∀ id found, Database.getSession id table = Some found →
       s_defaultModelId found = None).
Proof.
  split; [|split; [|split; [|split; [|split; [|split]]]]].
  - intros Hnew. unfold Database.createSession. rewrite Hnew.
    eexists. split; [reflexivity|]. unfold Database.getSession. split.
    + rewrite lookup_insert_eq. reflexivity.
    + intros id Hne. rewrite lookup_insert_ne by congruence. reflexivity.
  - intros [row Hrow]. unfold Database.createSession. rewrite Hrow.
    reflexivity.
  - intros row Hrow. unfold Database.getSession, Database.updateSession.
    rewrite lookup_alter_eq, Hrow. reflexivity.
  - intros id Hne. unfold Database.getSession, Database.updateSession.
    rewrite lookup_alter_ne by congruence. reflexivity.
  - intros Hnone. unfold Database.updateSession. apply map_eq. intros k.
    destruct (decide (k = s_id session)) as [->|Hne].
    + rewrite lookup_alter_eq, Hnone. reflexivity.
    + rewrite lookup_alter_ne by congruence. reflexivity.
  - intros id. unfold Database.getSession, Database.deleteSession.
    rewrite lookup_delete_eq. reflexivity.
  - intros id found. unfold Database.getSession.
    destruct (table !! id); [|discriminate]. intros [= <-]. reflexivity.
Qed.

Lemma saves_between_one w w' request :
  api_log w' = (api_log w ++ [request])%list → saves_between w w' = [request].
Proof.
  intros H. unfold saves_between. rewrite H, drop_app_length. reflexivity.
Qed.

Lemma synced_after_update st session (table : gmap string Database.SessionRow) :
  currentSession st = Some session → is_Some (table !! s_id session) →
  synced st (replay [api_updateSession session] table).
Proof.
  intros Hs [row Hrow]. unfold synced, replay. simpl.
  exists session. eexists. split; [exact Hs|].
  unfold Database.getSession, Database.updateSession.
  rewrite lookup_alter_eq, Hrow. simpl. split; reflexivity.
Qed.

(** X20.  Every save that succeeds brings the database level with the
    store.  For a current session whose row exists, after [addNode],
    [updateNode] with [saveToDb], [deleteNode], [rearrangeNodes] or
    [updateSessionTitle], once the server has handled the request, reading
    the session back gives the session the store holds, but for
    [defaultModelId]. *)
Theorem save_synchronises api_ok w table sid session :
  current (store w) = Some (sid, session) → s_id session = sid →
  is_Some (table !! sid) →
  api_ok (List.length (api_log w)) = true →
  (∀ node now,
     let w' := Store.addNode api_ok node now w in
     synced (store w') (replay (saves_between w w') table))
  ∧ (∀ nodeId updates now,
       is_Some (s_nodes session !! nodeId) →
       let w' := Store.updateNode api_ok nodeId updates true now w in
       synced (store w') (replay (saves_between w w') table))
  ∧ (∀ fuel nodeId now w',
       is_Some (s_nodes session !! nodeId) →
       Store.deleteNode api_ok fuel nodeId now w = Some w' →
       synced (store w') (replay (saves_between w w') table))
  ∧ (∀ fuel now w',
       Store.rearrangeNodes api_ok fuel now w = Some w' →
       synced (store w') (replay (saves_between w w') table))
  ∧ (∀ title now,
       sessions (store w) !! sid = Some session →
       let w' := Store.updateSessionTitle api_ok sid title now w in
       synced (store w') (replay (saves_between w w') table)).
Proof.
  intros Hcur Hid Hrow Hok. rewrite <- Hid in Hrow.
  split; [|split; [|split; [|split]]].
  - intros node now w'. subst w'.
    rewrite (addNode_present _ _ _ _ _ _ Hcur), Hok.
    erewrite saves_between_one by reflexivity.
    apply synced_after_update; [reflexivity|exact Hrow].
  - intros nodeId updates now [n Hn] w'. subst w'.
    rewrite (updateNode_present _ _ _ _ _ _ _ _ _ Hcur Hn).
    erewrite saves_between_one by reflexivity.
    apply synced_after_update; [reflexivity|exact Hrow].
  - intros fuel nodeId now w' [n Hn]. unfold Store.deleteNode.
    rewrite Hcur, Hn.
    destruct (Store.deleteNode_nodes _ _ _ _) as [updatedNodes|];
      [|discriminate].
    unfold Store.call. rewrite Hok. intros [= <-].
    erewrite saves_between_one by reflexivity.
    apply synced_after_update; [reflexivity|exact Hrow].
  - intros fuel now w'. unfold Store.rearrangeNodes. rewrite Hcur.
    destruct (autoLayout _ _ _ _) as [positions|]; [|discriminate].
    unfold Store.call. rewrite Hok. intros [= <-].
    erewrite saves_between_one by reflexivity.
    apply synced_after_update; [reflexivity|exact Hrow].
  - intros title now Hlisted w'. subst w'. unfold Store.updateSessionTitle.
    rewrite Hlisted. unfold Store.call. rewrite Hok.
    erewrite saves_between_one by reflexivity.
    apply synced_after_update; [|exact Hrow].
    cbn [store with_store set_sessions currentSession].
    apply current_inv in Hcur as (_ & Hi & _). rewrite Hi.
    rewrite decide_True by reflexivity. reflexivity.
Qed.

(** X21.  The [model_configs] table.  A configuration created under a new
    key is read back with its name, provider, model, temperature, token
    limit and creation time; an empty [apiKey] or [baseURL] comes back
    missing, [isDefault] comes back as a boolean, and [apiProtocol], which
    no column holds, is lost.  A key already taken makes
    [createModelConfig] throw.  [updateModelConfig] keeps the [createdAt]
    of the row and does nothing when no row has the key. *)
Theorem model_config_round_trip (config : Database.Config)
    (table : gmap string Database.ModelConfigRow) :
  (table !! Database.c_id config = None →
   ∃ table' found,
     Database.createModelConfig config table = Some table'
     ∧ Database.getModelConfig (Database.c_id config) table' = Some found
     ∧ found = config_as_stored config (Database.c_createdAt config)
     ∧ (∀ id, id ≠ Database.c_id config →
          Database.getModelConfig id table' = Database.getModelConfig id table))
  ∧ (is_Some (table !! Database.c_id config) →
     Database.createModelConfig config table = None)
  ∧ (∀ row, table !! Database.c_id config = Some row →
       Database.getModelConfig (Database.c_id config)
                               (Database.updateModelConfig config table)
       = Some (config_as_stored config (Database.row_createdAt row)))
  ∧ (table !! Database.c_id config = None →
     Database.updateModelConfig config table = table)
  ∧ (∀ createdAt,
       let found := config_as_stored config createdAt in
       Database.c_id found = Database.c_id config
       ∧ Database.c_name found = Database.c_name config
       ∧ Database.c_provider found = Database.c_provider config
       ∧ Database.c_model found = Database.c_model config
       ∧ Database.c_temperature found = Database.c_temperature config
       ∧ Database.c_maxTokens found = Database.c_maxTokens config
       ∧ Database.c_apiProtocol found = None
       ∧ Database.c_apiKey found
         = (if JS.truthy_opt (Database.c_apiKey config)
            then Database.c_apiKey config else None)
       ∧ Database.c_baseURL found
         = (if JS.truthy_opt (Database.c_baseURL config)
            then Database.c_baseURL config else None)
       ∧ Database.c_isDefault found
         = Some (default false (Database.c_isDefault config))
       ∧ config_as_stored found createdAt = found).
Proof.
  split; [|split; [|split; [|split]]].
  - intros Hnew. unfold Database.createModelConfig. rewrite Hnew.
    eexists _, _. split; [reflexivity|]. unfold Database.getModelConfig.
    rewrite lookup_insert_eq. split; [reflexivity|]. split; [reflexivity|].
    intros id Hne. rewrite lookup_insert_ne by congruence. reflexivity.
  - intros [row Hrow]. unfold Database.createModelConfig. rewrite Hrow.
    reflexivity.
  - intros row Hrow.
    unfold Database.getModelConfig, Database.updateModelConfig.
    rewrite lookup_alter_eq, Hrow. reflexivity.
  - intros Hnone. unfold Database.updateModelConfig. apply map_eq. intros k.
    destruct (decide (k = Database.c_id config)) as [->|Hne].
    + rewrite lookup_alter_eq, Hnone. reflexivity.
    + rewrite lookup_alter_ne by congruence. reflexivity.
  - intros createdAt found. subst found.
    unfold config_as_stored, Database.config_of, Database.row_of,
      Database.or_null, Database.isDefault.
    cbn [Database.c_id Database.c_name Database.c_provider Database.c_model
         Database.c_temperature Database.c_maxTokens Database.c_apiProtocol
         Database.c_apiKey Database.c_baseURL Database.c_isDefault
         Database.c_createdAt Database.row_name Database.row_provider
         Database.row_model Database.row_apiKey Database.row_baseURL
         Database.row_temperature Database.row_maxTokens
         Database.row_isDefault Database.row_createdAt].
    destruct (JS.truthy_opt (Database.c_apiKey config)) eqn:Hk;
      destruct (JS.truthy_opt (Database.c_baseURL config)) eqn:Hb;
      destruct (default false (Database.c_isDefault config)) eqn:Hd;
      cbn [JS.truthy_opt default Z.eqb Pos.eqb]; rewrite ?Hk, ?Hb;
      repeat split; reflexivity.
Qed.

Lemma default_ids_elem (table : gmap string Database.ModelConfigRow) id :
  id ∈ Database.default_ids table
  ↔ ∃ row, table !! id = Some row ∧ Database.isDefault row = true.
Proof.
  unfold Database.default_ids. rewrite list_elem_of_fmap. split.
  - intros ([k row] & -> & Hin). apply elem_of_map_to_list in Hin.
    apply map_lookup_filter_Some in Hin as [Hrow Hdef]. eauto.
  - intros (row & Hrow & Hdef). exists (id, row). split; [reflexivity|].
    apply elem_of_map_to_list, map_lookup_filter_Some. auto.
Qed.

Lemma default_ids_none (table : gmap string Database.ModelConfigRow) :
  (∀ k row, table !! k = Some row → Database.isDefault row = false) →
  Database.default_ids table = [].
Proof.
  intros Ht. unfold Database.default_ids.
  replace (filter (λ kv, Database.isDefault kv.2 = true) table)
    with (∅ : gmap string Database.ModelConfigRow);
    [rewrite map_to_list_empty; reflexivity|].
  symmetry. apply map_eq. intros k. rewrite lookup_empty.
  apply map_lookup_filter_None. right. intros row Hrow Hdef. simpl in Hdef.
  rewrite (Ht k row Hrow) in Hdef. discriminate.
Qed.

(** X22.  The default flag at the edges.  [setDefaultModelConfig] with a
    key that no row has clears the flag of every row and sets none; of two
    calls in a row the second decides; [deleteModelConfig] of the one
    default row leaves no default; and [createModelConfig] with [isDefault]
    set does not clear the flag of a row that has it, so that two rows
    have it afterwards. *)
Theorem default_flag_edges (table : gmap string Database.ModelConfigRow) :
  (∀ id, table !! id = None →
     Database.default_ids (Database.setDefaultModelConfig id table) = []
     ∧ dom (Database.setDefaultModelConfig id table) = dom table)
  ∧ (∀ A B,
       Database.setDefaultModelConfig B (Database.setDefaultModelConfig A table)
       = Database.setDefaultModelConfig B table)
  ∧ (∀ B, Database.default_ids table = [B] →
       Database.default_ids (Database.deleteModelConfig B table) = [])
  ∧ (∀ config A,
       table !! Database.c_id config = None →
       Database.c_isDefault config = Some true →
       A ∈ Database.default_ids table →
       ∃ table', Database.createModelConfig config table = Some table'
                 ∧ A ∈ Database.default_ids table'
                 ∧ Database.c_id config ∈ Database.default_ids table'
                 ∧ A ≠ Database.c_id config).
Proof.
  split; [|split; [|split]].
  - intros id Habsent. split.
    + apply default_ids_none. intros k row.
      rewrite setDefaultModelConfig_lookup.
      destruct (table !! k) as [r|] eqn:Hk; [|discriminate]. simpl.
      case_decide; [congruence|]. intros [= <-]. reflexivity.
    + apply set_eq. intros k. rewrite !elem_of_dom.
      rewrite setDefaultModelConfig_lookup, fmap_is_Some. reflexivity.
  - intros A B. apply map_eq. intros k.
    rewrite !setDefaultModelConfig_lookup.
    destruct (table !! k) as [r|]; [|reflexivity]. simpl.
    repeat case_decide; reflexivity.
  - intros B HB. apply default_ids_none. intros k row Hk.
    unfold Database.deleteModelConfig in Hk.
    apply lookup_delete_Some in Hk as [Hne Hk].
    destruct (Database.isDefault row) eqn:Hdef; [|reflexivity].
    assert (k ∈ Database.default_ids table) as Hin
      by (apply default_ids_elem; eauto).
    rewrite HB in Hin. apply list_elem_of_singleton in Hin. congruence.
  - intros config A Hnew Hdef HA.
    apply default_ids_elem in HA as (row & Hrow & HA).
    assert (A ≠ Database.c_id config) as Hne by congruence.
    unfold Database.createModelConfig. rewrite Hnew.
    eexists. split; [reflexivity|]. repeat split; trivial.
    + apply default_ids_elem. exists row.
      rewrite lookup_insert_ne by congruence. auto.
    + apply default_ids_elem. eexists. rewrite lookup_insert_eq.
      split; [reflexivity|].
      unfold Database.isDefault, Database.row_of. simpl. rewrite Hdef.
      reflexivity.
Qed.

(** X30.  The model chosen for a session is not saved.  After an
    [updateSessionDefaultModel] whose request succeeds, the store holds
    the session with the new [defaultModelId]; the server has taken the
    request and updated the row, but the session read back from the
    database has no [defaultModelId], while its title, nodes and root id
    are those of the store. *)
Theorem session_model_not_saved api_ok sessionId modelId now w session table :
  sessions (store w) !! sessionId = Some session →
  s_id session = sessionId → is_Some (table !! sessionId) →
  api_ok (List.length (api_log w)) = true →
  let w' := Store.updateSessionDefaultModel api_ok sessionId modelId now w in
  let table' := replay (saves_between w w') table in
  ∃ kept found,
    sessions (store w') !! sessionId = Some kept
    ∧ Database.getSession sessionId table' = Some found
    ∧ s_defaultModelId kept = Some modelId
    ∧ s_defaultModelId found = None
    ∧ s_title found = s_title kept ∧ s_nodes found = s_nodes kept
    ∧ s_rootNodeId found = s_rootNodeId kept
    ∧ s_updatedAt found = s_updatedAt kept.
Proof.
  intros Hs Hid [row Hrow] Hok w' table'. subst table' w'.
  unfold Store.updateSessionDefaultModel. rewrite Hs.
  unfold Store.call. rewrite Hok.
  erewrite saves_between_one by reflexivity.
  cbn [store with_store set_sessions sessions].
  rewrite lookup_insert_eq. unfold replay. cbn [fold_left Database.serve fst].
  unfold Database.getSession, Database.updateSession.
  cbn [s_id with_defaultModelId]. rewrite Hid, lookup_alter_eq, Hrow.
  eexists _, _. split; [reflexivity|]. split; [reflexivity|].
  repeat split; reflexivity.
Qed.
(** * The streaming providers: what they deliver and what they return *)

Lemma received_content_app a b :
  received_content (a ++ b) = received_content a +:+ received_content b.
Proof.
  induction a as [|[t [x|x]] a IH]; simpl; [reflexivity|exact IH|].
  rewrite IH, append_assoc. reflexivity.
Qed.

Lemma received_thinking_app a b :
  received_thinking (a ++ b) = received_thinking a +:+ received_thinking b.
Proof.
  induction a as [|[t [x|x]] a IH]; simpl; [reflexivity| |exact IH].
  rewrite IH, append_assoc. reflexivity.
Qed.

Lemma received_same_chunks a : ∀ b,
  map snd a = map snd b →
  received_content a = received_content b
  ∧ received_thinking a = received_thinking b.
Proof.
  induction a as [|[t x] a IH]; intros [|[t' y] b] H; try discriminate.
  - split; reflexivity.
  - simpl in H. injection H as -> H. destruct (IH b H) as [Hc Ht].
    destruct y; simpl; rewrite ?Hc, ?Ht; split; reflexivity.
Qed.

Lemma at_zero_chunks chunks : map snd (at_zero chunks) = chunks.
Proof. induction chunks as [|c cs IH]; simpl; congruence. Qed.

Lemma at_zero_app a b : at_zero (a ++ b) = (at_zero a ++ at_zero b)%list.
Proof. apply map_app. Qed.

Lemma accounted_add_content text p :
  accounted p →
  accounted (AIService.add_content text p)
  ∧ AIService.delivered p `prefix_of`
      AIService.delivered (AIService.add_content text p)
  ∧ AIService.thinkingContent (AIService.add_content text p)
    = AIService.thinkingContent p.
Proof.
  intros (Hc & Ht & Hne). unfold AIService.add_content.
  destruct text as [t|]; simpl; [|repeat split; trivial].
  destruct (JS.truthy t) eqn:Htr; simpl; [|repeat split; trivial].
  split; [|split; [eexists; reflexivity|reflexivity]].
  unfold accounted. simpl.
  rewrite at_zero_app, received_content_app, received_thinking_app. simpl.
  rewrite !append_empty_r. repeat split; try congruence.
  apply Forall_app. split; [exact Hne|]. constructor; [exact Htr|constructor].
Qed.

Lemma accounted_add_thinking text p :
  accounted p →
  accounted (AIService.add_thinking text p)
  ∧ AIService.delivered p `prefix_of`
      AIService.delivered (AIService.add_thinking text p).
Proof.
  intros (Hc & Ht & Hne). unfold AIService.add_thinking.
  destruct text as [t|]; simpl; [|repeat split; trivial].
  destruct (JS.truthy t) eqn:Htr; simpl; [|repeat split; trivial].
  split; [|eexists; reflexivity].
  unfold accounted. simpl.
  rewrite at_zero_app, received_content_app, received_thinking_app. simpl.
  rewrite !append_empty_r. repeat split; try congruence.
  apply Forall_app. split; [exact Hne|]. constructor; [exact Htr|constructor].
Qed.

Lemma accounted_deepseek_line parse_delta p line :
  accounted p →
  accounted (AIService.deepseek_line parse_delta p line)
  ∧ AIService.delivered p `prefix_of`
      AIService.delivered (AIService.deepseek_line parse_delta p line).
Proof.
  intros Hp. unfold AIService.deepseek_line.
  destruct (JS.startsWith _ _); [|split; [exact Hp|reflexivity]].
  destruct (String.eqb _ _); [split; [exact Hp|reflexivity]|].
  destruct (parse_delta _) as [[content reasoning]|];
    [|split; [exact Hp|reflexivity]].
  destruct (accounted_add_thinking reasoning p Hp) as [H1 P1].
  destruct (accounted_add_content content _ H1) as (H2 & P2 & _).
  split; [exact H2|]. etrans; eassumption.
Qed.

Lemma accounted_openai_line parse_delta p line :
  accounted p →
  accounted (AIService.openai_line parse_delta p line)
  ∧ AIService.delivered p `prefix_of`
      AIService.delivered (AIService.openai_line parse_delta p line)
  ∧ AIService.thinkingContent (AIService.openai_line parse_delta p line)
    = AIService.thinkingContent p.
Proof.
  intros Hp. unfold AIService.openai_line.
  destruct (JS.startsWith _ _); [|split; [exact Hp|split; reflexivity]].
  destruct (String.eqb _ _); [split; [exact Hp|split; reflexivity]|].
  destruct (parse_delta _) as [[content reasoning]|];
    [|split; [exact Hp|split; reflexivity]].
  apply accounted_add_content, Hp.
Qed.

Lemma accounted_lines (line : AIService.Progress → string → AIService.Progress)
    (Q : AIService.Progress → AIService.Progress → Prop) :
  (∀ p, Q p p) → (∀ p q r, Q p q → Q q r → Q p r) →
  (∀ p l, accounted p → accounted (line p l) ∧ Q p (line p l)) →
  ∀ ls p, accounted p →
    accounted (fold_left line ls p) ∧ Q p (fold_left line ls p).
Proof.
  intros Hrefl Htrans Hstep ls.
  induction ls as [|l ls IH]; intros p Hp; [split; [exact Hp|apply Hrefl]|].
  simpl. destruct (Hstep p l Hp) as [H1 Q1].
  destruct (IH _ H1) as [H2 Q2]. split; [exact H2|]. eapply Htrans; eauto.
Qed.

Lemma accounted_read_all
    (line : AIService.Progress → string → AIService.Progress)
    (Q : AIService.Progress → AIService.Progress → Prop) :
  (∀ p, Q p p) → (∀ p q r, Q p q → Q q r → Q p r) →
  (∀ p l, accounted p → accounted (line p l) ∧ Q p (line p l)) →
  ∀ pieces p, accounted p →
    accounted (AIService.read_all line pieces p)
    ∧ Q p (AIService.read_all line pieces p).
Proof.
  intros Hrefl Htrans Hstep. unfold AIService.read_all.
  apply (accounted_lines
           (fun acc piece => fold_left line (AIService.lines_of piece) acc) Q
           Hrefl Htrans).
  intros p piece Hp. apply (accounted_lines line Q Hrefl Htrans Hstep), Hp.
Qed.

Lemma read_all_app line a b p :
  AIService.read_all line (a ++ b) p
  = AIService.read_all line b (AIService.read_all line a p).
Proof. unfold AIService.read_all. apply fold_left_app. Qed.

Lemma accounted_start : accounted AIService.start.
Proof. repeat split. constructor. Qed.

(** X23.  What a streaming provider returns is what it has delivered.  At
    the end of the body the content of the response of [DeepSeekProvider]
    is the content chunks passed to [onChunk], put together in order, and
    its [thinkingContent] is the thinking chunks put together, or is
    missing when there was none; no chunk passed to [onChunk] is empty;
    and the chunks delivered after some of the reads are the first of the
    chunks delivered after all of them.  The same holds of
    [OpenAIProvider], which delivers no thinking. *)
Theorem stream_returns_what_it_delivered
    (parse_delta : string → option (option string * option string))
    (pieces : list string) :
  let p := AIService.deepseek_stream parse_delta pieces in
  let q := AIService.openai_stream parse_delta pieces in
  (∀ arrivals, map snd arrivals = AIService.delivered p →
     r_content (AIService.response_of p) = received_content arrivals
     ∧ r_thinkingContent (AIService.response_of p)
       = (if JS.truthy (received_thinking arrivals)
          then Some (received_thinking arrivals) else None))
  ∧ Forall (fun c => JS.truthy (chunk_text c) = true) (AIService.delivered p)
  ∧ (∀ k, AIService.delivered
            (AIService.deepseek_stream parse_delta (take k pieces))
          `prefix_of` AIService.delivered p)
  ∧ (∀ arrivals, map snd arrivals = AIService.delivered q →
       r_content (AIService.openai_response q) = received_content arrivals
       ∧ received_thinking arrivals = ""
       ∧ r_thinkingContent (AIService.openai_response q) = None)
  ∧ Forall (fun c => JS.truthy (chunk_text c) = true) (AIService.delivered q).
Proof.
  intros p q.
  pose (Qd := fun a b : AIService.Progress =>
                AIService.delivered a `prefix_of` AIService.delivered b).
  assert (∀ ps p0, accounted p0 →
            accounted (AIService.read_all
                         (AIService.deepseek_line parse_delta) ps p0)
            ∧ Qd p0 (AIService.read_all
                       (AIService.deepseek_line parse_delta) ps p0)) as Hd.
  { apply accounted_read_all.
    - intros a. unfold Qd. reflexivity.
    - intros a b c Hab Hbc. unfold Qd in *. etrans; eassumption.
    - intros a l Ha. apply accounted_deepseek_line, Ha. }
  pose (Qo := fun a b : AIService.Progress =>
                AIService.thinkingContent b = AIService.thinkingContent a).
  assert (∀ ps p0, accounted p0 →
            accounted (AIService.read_all
                         (AIService.openai_line parse_delta) ps p0)
            ∧ Qo p0 (AIService.read_all
                       (AIService.openai_line parse_delta) ps p0)) as Ho.
  { apply accounted_read_all.
    - intros a. reflexivity.
    - intros a b c Hab Hbc. unfold Qo in *. congruence.
    - intros a l Ha.
      destruct (accounted_openai_line parse_delta a l Ha) as (H1 & _ & H3).
      split; assumption. }
  destruct (Hd pieces AIService.start accounted_start) as [(Hc & Ht & Hne) _].
  destruct (Ho pieces AIService.start accounted_start)
    as [(Hc' & Ht' & Hne') Hth].
  fold (AIService.deepseek_stream parse_delta pieces) in Hc, Ht, Hne.
  fold (AIService.openai_stream parse_delta pieces) in Hc', Ht', Hne', Hth.
  fold p in Hc, Ht, Hne. fold q in Hc', Ht', Hne', Hth.
  split; [|split; [exact Hne|split; [|split; [|exact Hne']]]].
  - intros arrivals Harr.
    destruct (received_same_chunks arrivals (at_zero (AIService.delivered p)))
      as [Hrc Hrt]; [rewrite at_zero_chunks; exact Harr|].
    unfold AIService.response_of. cbn [r_content r_thinkingContent].
    rewrite Hrc, Hrt, Hc, Ht. split; reflexivity.
  - intros k. unfold p, AIService.deepseek_stream.
    rewrite <- (take_drop k pieces) at 2. rewrite read_all_app.
    apply Hd.
    apply (Hd (take k pieces) AIService.start accounted_start).
  - intros arrivals Harr.
    destruct (received_same_chunks arrivals (at_zero (AIService.delivered q)))
      as [Hrc Hrt]; [rewrite at_zero_chunks; exact Harr|].
    unfold AIService.openai_response. cbn [r_content r_thinkingContent].
    rewrite Hrc, Hrt, Hc', Ht'. unfold Qo in Hth. rewrite Hth.
    repeat split; reflexivity.
Qed.

Lemma deepseek_stream_accounted parse_delta pieces :
  accounted (AIService.deepseek_stream parse_delta pieces).
Proof.
  unfold AIService.deepseek_stream.
  apply (accounted_read_all (AIService.deepseek_line parse_delta)
           (fun _ _ => True)); auto using accounted_start.
  intros p l Hp. split; [|exact I]. apply accounted_deepseek_line, Hp.
Qed.

Lemma truthy_append_l a b : JS.truthy a = true → JS.truthy (a +:+ b) = true.
Proof. destruct a; [discriminate|reflexivity]. Qed.

Lemma truthy_append_r a b : JS.truthy b = true → JS.truthy (a +:+ b) = true.
Proof. destruct a; [auto|reflexivity]. Qed.

Lemma received_thinking_some arrivals :
  Forall (fun c => JS.truthy (chunk_text c) = true) (map snd arrivals) →
  existsb is_thinking arrivals = true →
  JS.truthy (received_thinking arrivals) = true.
Proof.
  induction arrivals as [|[t [x|x]] a IH]; simpl; [discriminate| |].
  - intros H _. apply Forall_cons in H as [Hx _].
    apply truthy_append_l. exact Hx.
  - intros H He. apply Forall_cons in H as [_ H]. apply IH; assumption.
Qed.

(** X26.  Completion keeps the text the user has seen.  When the chunks
    that arrived are those [DeepSeekProvider] delivered and the response is
    the one it returns, the first save at the end of the stream stores, as
    the assistant text of the conversation node, the content chunks put
    together; if a content chunk arrived this is the text the store already
    showed, and if a thinking chunk arrived the thinking stored is the
    thinking the store already showed. *)
Theorem completion_keeps_streamed_text api_ok node clock parse_delta pieces
    arrivals l w sid session n :
  current (store w) = Some (sid, session) →
  s_nodes session !! conversationNodeId l = Some n →
  JS.truthy (conversationNodeId l) = true →
  streamedContent l = "" → streamedThinking l = "" →
  map snd arrivals
  = AIService.delivered (AIService.deepseek_stream parse_delta pieces) →
  let cid := conversationNodeId l in
  let response :=
    AIService.response_of (AIService.deepseek_stream parse_delta pieces) in
  let streamed := stream api_ok arrivals (l, w) in
  let w' := handleSend_end api_ok node clock (resolved response) streamed in
  ∃ saved before after,
    head (saves_between w w') = Some (api_updateSession saved)
    ∧ current_nodes (snd streamed) !! cid = Some before
    ∧ s_nodes saved !! cid = Some after
    ∧ n_assistantMessage after = Some (received_content arrivals)
    ∧ (existsb is_content arrivals = true →
       n_assistantMessage after = n_assistantMessage before)
    ∧ (existsb is_thinking arrivals = true →
       n_thinkingContent after = n_thinkingContent before)
    ∧ n_children after = n_children before.
Proof.
  intros Hcur Hn Htid Hsc0 Hst0 Harr cid response streamed w'.
  destruct (deepseek_stream_accounted parse_delta pieces) as (Hc & Ht & Hne).
  destruct (received_same_chunks arrivals
              (at_zero (AIService.delivered
                          (AIService.deepseek_stream parse_delta pieces))))
    as [Hrc Hrt]; [rewrite at_zero_chunks; exact Harr|].
  destruct (stream_spec api_ok arrivals l w sid session n Hcur Hn)
    as (l' & w1 & session' & n' & Hrun & Hcur' & Hnodes & Hlog & Hai
        & Hal & Hsel & Hid & Hy & Hum & Hsc & Hst & Ham & Htc & Hfr).
  assert (s_nodes session' !! conversationNodeId l' = Some n') as Hn'.
  { rewrite Hid, Hnodes. apply lookup_insert_eq. }
  assert (JS.truthy (conversationNodeId l') = true) as Htid'
    by (rewrite Hid; exact Htid).
  subst w' streamed. rewrite Hrun.
  destruct (complete_end api_ok node clock response l' w1 sid session' n'
              Hcur' Hn' Htid') as (Hlog' & _).
  set (after := spread n' (set_final (r_content response)
                             (r_thinkingContent response) (at_end clock))).
  eexists _, n', after. split.
  { unfold saves_between. rewrite Hlog', Hlog, drop_app_length. reflexivity. }
  cbn [snd]. rewrite (current_nodes_of _ _ _ Hcur'), Hnodes.
  fold cid. rewrite lookup_insert_eq. split; [reflexivity|].
  cbn [s_nodes with_nodes]. rewrite Hid. fold cid.
  rewrite lookup_insert_eq. split; [reflexivity|].
  assert (n_assistantMessage after = Some (received_content arrivals)) as Hafter.
  { subst after response. simpl. rewrite Hrc, Hc. reflexivity. }
  split; [exact Hafter|]. split; [|split].
  - intros He. rewrite Hafter, Ham, He, Hsc, Hsc0. reflexivity.
  - intros He. rewrite Htc, He, Hst, Hst0.
    subst after response. simpl. rewrite <- Ht, <- Hrt.
    rewrite received_thinking_some; [reflexivity| |exact He].
    rewrite Harr. exact Hne.
  - reflexivity.
Qed.
(** * New branches and closed input nodes *)

(** A child once found stays found. *)
Lemma lowest_child_found session cs : ∀ acc m,
  snd acc = Some m → snd (fold_left (lowest_child session) cs acc) ≠ None.
Proof.
  induction cs as [|d cs IH]; intros acc m E; simpl; [congruence|].
  unfold lowest_child at 2.
  destruct (s_nodes session !! d) as [child|]; [|eapply IH, E].
  destruct (Z.ltb _ _); [|eapply IH, E].
  eapply IH. reflexivity.
Qed.

Lemma lowest_child_fold session cs : ∀ acc,
  (∀ m, snd acc = Some m → fst acc = py (n_position m)) →
  let r := fold_left (lowest_child session) cs acc in
  fst acc ≤ fst r
  ∧ (∀ c child, c ∈ cs → s_nodes session !! c = Some child →
       py (n_position child) ≤ fst r)
  ∧ (∀ m, snd r = Some m → fst r = py (n_position m))
  ∧ (snd r = None → fst r = fst acc).
Proof.
  induction cs as [|c cs IH]; intros acc Hacc r.
  - subst r. simpl. repeat split; auto; try lia.
    intros c child Hc. inversion Hc.
  - subst r. cbn [fold_left].
    assert (∀ m, snd (lowest_child session acc c) = Some m →
              fst (lowest_child session acc c) = py (n_position m)) as Hnext.
    { unfold lowest_child. destruct (s_nodes session !! c) as [child|];
        [|exact Hacc].
      destruct (Z.ltb _ _); [|exact Hacc]. simpl. intros m [= <-]. reflexivity. }
    assert (fst acc ≤ fst (lowest_child session acc c)
            ∧ (∀ child, s_nodes session !! c = Some child →
                 py (n_position child) ≤ fst (lowest_child session acc c))
            ∧ (snd (lowest_child session acc c) = None →
               fst (lowest_child session acc c) = fst acc)) as (H1 & H2 & H3).
    { unfold lowest_child. destruct (s_nodes session !! c) as [child|];
        [|repeat split; try lia; discriminate].
      destruct (Z.ltb (fst acc) (py (n_position child))) eqn:E; simpl.
      - apply Z.ltb_lt in E. repeat split; try lia; try discriminate.
        intros ? [= <-]. lia.
      - apply Z.ltb_ge in E. repeat split; try lia.
        intros ? [= <-]. lia. }
    destruct (IH _ Hnext) as (I1 & I2 & I3 & I4).
    repeat split.
    + lia.
    + intros d child Hd Hchild. apply elem_of_cons in Hd as [->|Hd].
      * specialize (H2 child Hchild). lia.
      * eapply I2; eauto.
    + exact I3.
    + intros Hnone. rewrite (I4 Hnone). apply H3.
      destruct (snd (lowest_child session acc c)) as [m|] eqn:E;
        [|reflexivity].
      exfalso. eapply lowest_child_found; eauto.
Qed.

(** X24.  The place of a new branch: [createBranchNode] puts the new input
    node at least 280 below its parent and below every child the parent
    already has in the session, and, next to the parent's column, in one
    of four columns 400 apart; under a parent without children it is in the
    parent's column, below the parent by its estimated height plus 80. *)
Theorem branch_position_below node session :
  let pos := branch_position node session in
  py (n_position node) + 280 ≤ py pos
  ∧ (∀ c child, c ∈ n_children node → s_nodes session !! c = Some child →
       py (n_position child) + 280 ≤ py pos)
  ∧ (px pos = px (n_position node) - 400 ∨ px pos = px (n_position node)
     ∨ px pos = px (n_position node) + 400
     ∨ px pos = px (n_position node) + 800)
  ∧ (n_children node = [] →
     pos = {| px := px (n_position node);
              py := py (n_position node) + estimateNodeHeight node + 80 |}).
Proof.
  intros pos. subst pos. unfold branch_position.
  pose proof (estimateNodeHeight_lower node) as Hh.
  destruct (lowest_child_fold session (n_children node)
              (py (n_position node), None)) as (H1 & H2 & H3 & H4);
    [discriminate|].
  cbn [fst snd] in *.
  destruct (fold_left (lowest_child session) (n_children node)
                      (py (n_position node), None)) as [maxY found] eqn:E.
  cbn [fst snd] in *.
  destruct (Z.ltb 0 (Z.of_nat (List.length (n_children node)))) eqn:Hcount.
  - destruct found as [child|].
    + pose proof (estimateNodeHeight_lower child) as Hc. cbn [px py].
      split; [lia|]. split.
      * intros c ch Hin Hch. specialize (H2 c ch Hin Hch). lia.
      * split.
        -- pose proof (Z.mod_pos_bound
                         (Z.of_nat (List.length (n_children node))) 4
                         ltac:(lia)) as Hm. lia.
        -- intros Hnil. rewrite Hnil in Hcount. discriminate.
    + specialize (H4 eq_refl). cbn [px py]. split; [lia|]. split.
      * intros c ch Hin Hch. specialize (H2 c ch Hin Hch). lia.
      * split; [right; left; reflexivity|]. intros _. reflexivity.
  - cbn [px py]. apply Z.ltb_ge in Hcount.
    assert (n_children node = []) as Hnil
      by (destruct (n_children node); [reflexivity|simpl in Hcount; lia]).
    split; [lia|]. split.
    + intros c ch Hin. rewrite Hnil in Hin. inversion Hin.
    + split; [right; left; reflexivity|]. intros _. reflexivity.
Qed.

Lemma with_children_back pn cs :
  with_children (with_children pn cs) (n_children pn) = pn.
Proof. destruct pn. reflexivity. Qed.

Lemma filter_new_child (cs : list string) (id : string) :
  id ∉ cs → filter (fun c => c ≠ id) (cs ++ [id]) = cs.
Proof.
  intros Hnot. rewrite filter_app.
  rewrite filter_cons_False, filter_nil by (intros H; apply H; reflexivity).
  rewrite app_nil_r.
  induction cs as [|c cs IH]; [reflexivity|].
  apply not_elem_of_cons in Hnot as [Hc Hcs].
  rewrite filter_cons_True by congruence. rewrite (IH Hcs). reflexivity.
Qed.

(** [addNode] of a childless node with a new id, then [deleteNode] of it:
    the node map is as before. *)
Lemma addNode_then_deleteNode_nodes fuel nodes node p pn :
  nodes !! n_id node = None → n_children node = [] →
  n_parentId node = Some p → nodes !! p = Some pn → JS.truthy p = true →
  n_id node ∉ n_children pn →
  Store.deleteNode_nodes fuel (Store.addNode_nodes nodes node) (n_id node) node
  = Some nodes.
Proof.
  intros Hfresh Hleaf Hp Hpn Ht Hnot.
  assert (p ≠ n_id node) as Hne by congruence.
  rewrite (addNode_nodes_eq _ _ _ _ Hfresh Hp Hpn Ht).
  rewrite deleteNode_nodes_leaf by exact Hleaf.
  rewrite Hp, Ht, lookup_insert_eq.
  f_equal. rewrite insert_insert_eq.
  change (n_children (with_children pn (n_children pn ++ [n_id node])))
    with (n_children pn ++ [n_id node])%list.
  rewrite (filter_new_child _ _ Hnot), with_children_back.
  apply map_eq. intros k.
  destruct (decide (k = n_id node)) as [->|Hk].
  - rewrite lookup_delete_eq, Hfresh. reflexivity.
  - rewrite lookup_delete_ne by congruence.
    destruct (decide (k = p)) as [->|Hkp].
    + rewrite lookup_insert_eq, Hpn. reflexivity.
    + rewrite !lookup_insert_ne by congruence. reflexivity.
Qed.

(** X25.  A branch opened and closed again.  [createBranchNode] under a
    node of the session, with both saves succeeding: the new input node is
    in the map at the place computed for it, it is the last child of the
    node, and it is selected; [handleCloseInputNode] on the new node then
    gives back the node map as it was before the branch was opened, and
    selects the parent. *)
Theorem branch_opened_then_closed api_ok node now now' fuel w sid session pn :
  current (store w) = Some (sid, session) →
  children_point_back (s_nodes session) →
  s_nodes session !! n_id node = Some pn → JS.truthy (n_id node) = true →
  let childId := JS.with_number "input-" now in
  s_nodes session !! childId = None →
  api_ok (List.length (api_log w)) = true →
  api_ok (S (List.length (api_log w))) = true →
  let w1 := createBranchNode api_ok node now w in
  ∃ child,
    current_nodes w1 !! childId = Some child
    ∧ n_type child = input ∧ n_parentId child = Some (n_id node)
    ∧ n_children child = []
    ∧ n_position child = branch_position node session
    ∧ n_children <$> current_nodes w1 !! n_id node
      = Some (n_children pn ++ [childId])%list
    ∧ selectedNodeId (store w1) = Some childId
    ∧ ∃ w2, handleCloseInputNode api_ok child fuel now' w1 = Some w2
            ∧ current_nodes w2 = s_nodes session
            ∧ selectedNodeId (store w2) = Some (n_id node).
Proof.
  intros Hcur Hback Hpn Ht childId Hfresh Hok1 Hok2 w1.
  pose proof (current_session _ _ _ Hcur) as Hs.
  subst w1. unfold createBranchNode. rewrite Hs. cbv zeta. fold childId.
  set (child := {| n_id := childId; n_type := input; n_content := "";
                   n_parentId := Some (n_id node); n_children := [];
                   n_model := ""; n_timestamp := now;
                   n_position := branch_position node session;
                   n_userMessage := None; n_assistantMessage := None;
                   n_thinkingContent := None; n_quotedContent := None |}).
  assert (childId ∉ n_children pn) as Hnot.
  { intros Hin. destruct (Hback _ _ _ Hpn Hin) as (cn & Hcn & _). congruence. }
  assert (childId ≠ n_id node) as Hne by (intros E; congruence).
  pose proof (addNode_nodes_eq (s_nodes session) child (n_id node) pn
                Hfresh eq_refl Hpn Ht) as Hnodes.
  change (n_id child) with childId in Hnodes.
  rewrite (addNode_present _ _ _ _ _ _ Hcur), Hok1.
  set (s1 := with_nodes session
               (Store.addNode_nodes (s_nodes session) child) now) in *.
  exists child. unfold Store.selectNode, current_nodes.
  cbn [store with_store set_selected set_sessions currentSession
       selectedNodeId].
  change (s_nodes s1) with (Store.addNode_nodes (s_nodes session) child).
  change (n_id child) with childId.
  rewrite Hnodes.
  split; [rewrite lookup_insert_ne by congruence; apply lookup_insert_eq|].
  do 4 (split; [reflexivity|]).
  split; [rewrite lookup_insert_eq; reflexivity|].
  split; [reflexivity|].
  unfold handleCloseInputNode.
  change (n_id child) with childId. change (n_type child) with input.
  assert (String.eqb childId "root" = false) as -> by reflexivity.
  rewrite bool_decide_eq_true_2 by reflexivity. cbn [andb negb].
  unfold Store.deleteNode. cbn [store with_store].
  rewrite current_set_selected.
  rewrite (current_set_sessions _ sid session _ s1 Hcur).
  change (s_nodes s1) with (Store.addNode_nodes (s_nodes session) child).
  change (n_id child) with childId.
  assert (Store.addNode_nodes (s_nodes session) child !! childId = Some child)
    as Hlook.
  { rewrite Hnodes, lookup_insert_ne by congruence. apply lookup_insert_eq. }
  rewrite Hlook.
  pose proof (addNode_then_deleteNode_nodes fuel (s_nodes session) child
                (n_id node) pn Hfresh eq_refl eq_refl Hpn Ht Hnot) as Hdel.
  change (n_id child) with childId in Hdel. rewrite Hdel.
  unfold Store.call. cbn [api_log store with_store].
  rewrite length_app. cbn [List.length].
  replace (List.length (api_log w) + 1)%nat with (S (List.length (api_log w)))
    by lia.
  rewrite Hok2. eexists. split; [reflexivity|].
  cbn [store with_store currentSession selectedNodeId s_nodes with_nodes].
  change (n_parentId child) with (Some (n_id node)). cbn [JS.or_else].
  rewrite Ht. split; reflexivity.
Qed.
(** * Moving between sessions *)

(** X28.  [switchSession] and [deleteSession].  Switching to a session of
    the store shows it with its root selected and drops the pending
    quotation; switching to an unknown id does nothing.  A [deleteSession]
    whose request succeeds removes the session from the store; when it was
    not the current one the view stays as it is, and when it was, the store
    shows one of the sessions that remain, with its root selected, or, if
    none remains, goes on with [createSession]. *)
Theorem sessions_navigation api_ok w :
  (∀ sessionId session,
     sessions (store w) !! sessionId = Some session →
     let w' := Store.switchSession sessionId w in
     currentSessionId (store w') = Some sessionId
     ∧ currentSession (store w') = Some session
     ∧ selectedNodeId (store w') = Some (s_rootNodeId session)
     ∧ quotedContent (store w') = None
     ∧ sessions (store w') = sessions (store w) ∧ api_log w' = api_log w)
  ∧ (∀ sessionId,
       sessions (store w) !! sessionId = None →
       Store.switchSession sessionId w = w)
  ∧ (∀ first_key config sessionId now,
       api_ok (List.length (api_log w)) = true →
       (∀ m k, first_key m = Some k → is_Some (m !! k)) →
       (∀ m, first_key m = None → m = ∅) →
       let w' := Store.deleteSession api_ok first_key config sessionId now w in
       let remaining := delete sessionId (sessions (store w)) in
       (currentSessionId (store w) ≠ Some sessionId →
        sessions (store w') = remaining
        ∧ currentSessionId (store w') = currentSessionId (store w)
        ∧ currentSession (store w') = currentSession (store w)
        ∧ selectedNodeId (store w') = selectedNodeId (store w)
        ∧ api_log w' = (api_log w ++ [api_deleteSession sessionId])%list)
       ∧ (currentSessionId (store w) = Some sessionId → remaining ≠ ∅ →
          ∃ nextId next,
            nextId ≠ sessionId
            ∧ sessions (store w) !! nextId = Some next
            ∧ sessions (store w') = remaining
            ∧ currentSessionId (store w') = Some nextId
            ∧ currentSession (store w') = Some next
            ∧ selectedNodeId (store w') = Some (s_rootNodeId next)
            ∧ quotedContent (store w') = quotedContent (store w)
            ∧ api_log w' = (api_log w ++ [api_deleteSession sessionId])%list)
       ∧ (currentSessionId (store w) = Some sessionId → remaining = ∅ →
          if api_ok (S (List.length (api_log w))) then
            ∃ made root,
              currentSession (store w') = Some made
              ∧ currentSessionId (store w') = Some (s_id made)
              ∧ sessions (store w') = {[s_id made := made]}
              ∧ s_nodes made = {["root" := root]}
              ∧ n_type root = input ∧ n_children root = []
              ∧ selectedNodeId (store w') = Some "root"
          else
            sessions (store w') = ∅
            ∧ currentSession (store w') = currentSession (store w)
            ∧ currentSessionId (store w') = Some sessionId)
       ∧ (coherent (store w) →
          remaining ≠ ∅ ∨ currentSessionId (store w) ≠ Some sessionId
          ∨ api_ok (S (List.length (api_log w))) = true →
          coherent (store w'))).
Proof.
  split; [|split].
  - intros sessionId session Hs w'. subst w'. unfold Store.switchSession.
    rewrite Hs. repeat split; reflexivity.
  - intros sessionId Hs. unfold Store.switchSession. rewrite Hs. reflexivity.
  - intros first_key config sessionId now Hok Hkey Hnone w' remaining.
    subst w'. unfold Store.deleteSession, Store.call. rewrite Hok.
    cbn [store]. fold remaining.
    split; [|split; [|split]].
    + intros Hne. rewrite decide_False by exact Hne.
      repeat split; reflexivity.
    + intros Heq Hrem. rewrite decide_True by exact Heq.
      destruct (first_key remaining) as [nextId|] eqn:Hfirst.
      2:{ apply Hnone in Hfirst. contradiction. }
      destruct (Hkey _ _ Hfirst) as [next Hnext]. rewrite Hnext.
      pose proof Hnext as Hnext'. unfold remaining in Hnext'.
      apply lookup_delete_Some in Hnext' as [Hne Hold].
      exists nextId, next. repeat split; trivial. congruence.
    + intros Heq Hrem. rewrite decide_True by exact Heq.
      destruct (first_key remaining) as [nextId|] eqn:Hfirst.
      * destruct (Hkey _ _ Hfirst) as [next Hnext].
        rewrite Hrem, lookup_empty in Hnext. discriminate.
      * rewrite Hrem. unfold Store.createSession, Store.call.
        cbn [store api_log with_store]. rewrite length_app. cbn [List.length].
        replace (List.length (api_log w) + 1)%nat
          with (S (List.length (api_log w))) by lia.
        destruct (api_ok (S (List.length (api_log w)))).
        -- eexists _, _. cbn [store with_store currentSession
                               currentSessionId sessions selectedNodeId
                               set_sessions s_id s_nodes].
           rewrite insert_empty.
           repeat split; reflexivity.
        -- cbn [store with_store set_sessions sessions currentSession
                currentSessionId]. repeat split; trivial.
    + intros Hco Hcase. intros sid session Hcur.
      apply current_inv in Hcur as (Hs & Hi & Ht). revert Hs Hi.
      destruct (decide (currentSessionId (store w) = Some sessionId))
        as [Heq|Hne].
      * destruct (first_key remaining) as [nextId|] eqn:Hfirst.
        -- destruct (Hkey _ _ Hfirst) as [next Hnext]. rewrite Hnext.
           cbn [store with_store currentSession currentSessionId sessions].
           intros [= <-] [= <-]. exact Hnext.
        -- apply Hnone in Hfirst.
           destruct Hcase as [Hc|[Hc|Hc]]; try contradiction.
           unfold Store.createSession, Store.call.
           cbn [store api_log with_store]. rewrite length_app.
           cbn [List.length].
           replace (List.length (api_log w) + 1)%nat
             with (S (List.length (api_log w))) by lia.
           rewrite Hc.
           cbn [store with_store currentSession currentSessionId sessions
                set_sessions].
           intros [= <-] [= <-]. apply lookup_insert_eq.
      * cbn [store with_store currentSession currentSessionId sessions
             set_sessions].
        intros Hs Hi. unfold remaining.
        rewrite lookup_delete_ne by congruence.
        apply Hco. unfold current. rewrite Hs, Hi, Ht. reflexivity.
Qed.
(** * [handleSend] keeps the tree well formed *)

Lemma same_links_refl nodes : same_links nodes nodes.
Proof. intros k. reflexivity. Qed.

Lemma same_links_trans a b c :
  same_links a b → same_links b c → same_links a c.
Proof. intros H1 H2 k. rewrite (H1 k). apply H2. Qed.

(** The start of [handleSend] on an input node changes that node only, and
    not its links. *)
Lemma handleSend_begin_nodes api_ok node input_text modelToUse fuel now
    w sid session n l w1 :
  n_type node = input →
  current (store w) = Some (sid, session) →
  s_nodes session !! n_id node = Some n →
  handleSend_begin api_ok node input_text modelToUse fuel now w = inr (l, w1) →
  conversationNodeId l = n_id node
  ∧ ∃ session1 n1,
      current (store w1) = Some (sid, session1)
      ∧ s_nodes session1 = <[n_id node := n1]> (s_nodes session)
      ∧ links n1 = links n.
Proof.
  intros Htype Hcur Hn. unfold handleSend_begin.
  rewrite (current_session _ _ _ Hcur).
  destruct (negb (JS.truthy (JS.trim input_text))); [discriminate|].
  destruct modelToUse as [model|]; [|discriminate].
  rewrite Htype.
  rewrite (updateNode_present _ _ _ _ _ _ sid session n Hcur Hn).
  set (n1 := spread n (to_conversation (JS.trim input_text)
                         (quotedContent (store w)) (model_label model) now)).
  match goal with
  | |- context [if ?c then Store.updateSessionTitle _ ?i ?t ?nw ?wx else _] =>
      set (w0 := wx);
      assert (∃ session', current (store (if c then
                  Store.updateSessionTitle api_ok i t nw w0 else w0))
                = Some (sid, session')
                ∧ s_nodes session' = <[n_id node := n1]> (s_nodes session))
        as (session' & Hcur' & Hnodes')
  end.
  { destruct (_ && _).
    - destruct (updateSessionTitle_current api_ok (s_id session)
                  (if Z.ltb 30 (JS.length (JS.trim input_text))
                   then JS.slice0 30 (JS.trim input_text) +:+ "..."
                   else JS.trim input_text) now w0 sid
                  (with_nodes session
                     (<[n_id node := n1]> (s_nodes session)) now))
        as (s' & Hc & Hs & _).
      + subst w0. simpl. eapply current_set_sessions; eauto.
      + subst w0. simpl. apply lookup_insert_eq.
      + exists s'. split; [exact Hc|]. rewrite Hs. reflexivity.
    - eexists. split; [subst w0; simpl; eapply current_set_sessions; eauto|].
      reflexivity. }
  cbv zeta.
  destruct (Store.getConversationPath _ _); [|discriminate].
  intros [= <- <-]. cbn [conversationNodeId]. split; [reflexivity|].
  exists session', n1. split; [exact Hcur'|]. split; [exact Hnodes'|].
  reflexivity.
Qed.

Lemma newInputNode_fields node l now :
  n_id (newInputNode node l now) = JS.with_number "input-" now
  ∧ n_children (newInputNode node l now) = []
  ∧ n_parentId (newInputNode node l now) = Some (conversationNodeId l).
Proof. repeat split. Qed.

Lemma set_final_keeps_links text thought now :
  keeps_links (set_final text thought now).
Proof. repeat split. Qed.

(** The end of [handleSend], for every outcome. *)
Lemma handleSend_end_symmetric api_ok node clock outcome l w sid session n :
  current (store w) = Some (sid, session) →
  s_nodes session !! conversationNodeId l = Some n →
  JS.truthy (conversationNodeId l) = true →
  symmetric (s_nodes session) →
  s_nodes session !! JS.with_number "input-" (at_input clock) = None →
  s_nodes session !! JS.with_number "input-" (at_input_again clock) = None →
  symmetric (current_nodes (handleSend_end api_ok node clock outcome (l, w))).
Proof.
  intros Hcur Hn Htid Hsym Hf1 Hf2.
  assert (symmetric (current_nodes w)) as Hsymw
    by (rewrite (current_nodes_of _ _ _ Hcur); exact Hsym).
  assert (∀ t, s_nodes session !! JS.with_number "input-" t = None →
            JS.with_number "input-" t ≠ conversationNodeId l) as Hne
    by (intros t Ht E; rewrite E in Ht; congruence).
  destruct outcome as [response|[name message|]].
  - destruct (complete_end api_ok node clock response l w sid session n
                Hcur Hn Htid) as (_ & _ & Hcs & _).
    unfold current_nodes. rewrite Hcs.
    set (n1 := spread n (set_final (r_content response)
                           (r_thinkingContent response) (at_end clock))) in *.
    assert (symmetric (<[conversationNodeId l := n1]> (s_nodes session)))
      as Hs1.
    { eapply symmetric_same_links; [|exact Hsym].
      eapply same_links_insert; [exact Hn|].
      apply spread_keeps_links, set_final_keeps_links. }
    assert (∀ t, s_nodes session !! JS.with_number "input-" t = None →
              symmetric
                (Store.addNode_nodes
                   (<[conversationNodeId l := n1]> (s_nodes session))
                   (newInputNode node l t))) as Hadd.
    { intros t Ht.
      eapply (addNode_nodes_symmetric _ _ (conversationNodeId l) n1);
        first [exact Hs1 | reflexivity | exact Htid | idtac].
      - cbn [n_id newInputNode].
        rewrite lookup_insert_ne by (intros E; apply (Hne t Ht); congruence).
        exact Ht.
      - apply lookup_insert_eq. }
    destruct (api_ok (S (S _))); [apply Hadd, Hf2|].
    destruct (api_ok (S _)); [apply Hadd, Hf1|exact Hs1].
  - unfold handleSend_end.
    destruct (String.eqb name "AbortError"); [|exact Hsymw].
    rewrite Htid. cbn [andb].
    destruct (JS.truthy (streamedContent l)); [|exact Hsymw].
    unfold continue_with_input. rewrite Htid.
    unfold Store.selectNode.
    match goal with
    | |- symmetric (current_nodes (with_store ?wa _)) =>
        change (symmetric (current_nodes wa))
    end.
    rewrite (updateNode_present _ _ _ _ _ _ sid session n Hcur Hn).
    match goal with
    | |- context [spread n ?u] => set (n1 := spread n u)
    end.
    eapply (addNode_symmetric _ _ _ _ (conversationNodeId l) n1);
      first [reflexivity | exact Htid | idtac].
    + unfold current_nodes. cbn.
      eapply symmetric_same_links; [|exact Hsym].
      eapply same_links_insert; [exact Hn|].
      apply spread_keeps_links, set_final_keeps_links.
    + unfold current_nodes. cbn.
      rewrite lookup_insert_ne
        by (intros E; apply (Hne _ Hf2); congruence).
      exact Hf2.
    + unfold current_nodes. cbn. apply lookup_insert_eq.
  - exact Hsymw.
Qed.

(** X29.  Sending a message keeps the tree well formed.  [handleSend] from
    an input node of a session with parent/child symmetry, with new ids for
    the input nodes it names, leaves a session with parent/child symmetry,
    whatever the chunks, the outcome of the request and the outcomes of
    the saves. *)
Theorem handleSend_keeps_symmetry api_ok node input_text modelToUse fuel clock
    arrivals outcome w sid session n :
  n_type node = input →
  current (store w) = Some (sid, session) →
  s_nodes session !! n_id node = Some n →
  JS.truthy (n_id node) = true →
  symmetric (s_nodes session) →
  s_nodes session !! JS.with_number "input-" (at_input clock) = None →
  s_nodes session !! JS.with_number "input-" (at_input_again clock) = None →
  symmetric
    (current_nodes
       (handleSend api_ok node input_text modelToUse fuel clock arrivals
                   outcome w)).
Proof.
  intros Htype Hcur Hn Htid Hsym Hf1 Hf2. unfold handleSend.
  destruct (handleSend_begin api_ok node input_text modelToUse fuel
              (at_send clock) w) as [w0|[l w1]] eqn:Hbegin.
  - (* the handler went no further: the store holds the same nodes or the
       converted node *)
    revert Hbegin. unfold handleSend_begin.
    rewrite (current_session _ _ _ Hcur).
    destruct (negb (JS.truthy (JS.trim input_text)));
      [intros [= <-]; rewrite (current_nodes_of _ _ _ Hcur); exact Hsym|].
    destruct modelToUse as [model|];
      [|intros [= <-]; unfold current_nodes; cbn;
        rewrite (current_session _ _ _ Hcur); exact Hsym].
    rewrite Htype.
    rewrite (updateNode_present _ _ _ _ _ _ sid session n Hcur Hn).
    set (n1 := spread n (to_conversation (JS.trim input_text)
                           (quotedContent (store w)) (model_label model)
                           (at_send clock))).
    match goal with
    | |- context [if ?c then Store.updateSessionTitle _ ?i ?t ?nw ?wx else _] =>
        set (w0' := wx);
        assert (∃ session', current (store (if c then
                    Store.updateSessionTitle api_ok i t nw w0' else w0'))
                  = Some (sid, session')
                  ∧ s_nodes session' = <[n_id node := n1]> (s_nodes session))
          as (session' & Hcur' & Hnodes')
    end.
    { destruct (_ && _).
      - destruct (updateSessionTitle_current api_ok (s_id session)
                    (if Z.ltb 30 (JS.length (JS.trim input_text))
                     then JS.slice0 30 (JS.trim input_text) +:+ "..."
                     else JS.trim input_text) (at_send clock) w0' sid
                    (with_nodes session
                       (<[n_id node := n1]> (s_nodes session))
                       (at_send clock)))
          as (s' & Hc & Hs & _).
        + subst w0'. simpl. eapply current_set_sessions; eauto.
        + subst w0'. simpl. apply lookup_insert_eq.
        + exists s'. split; [exact Hc|]. rewrite Hs. reflexivity.
      - eexists. split;
          [subst w0'; simpl; eapply current_set_sessions; eauto|].
        reflexivity. }
    cbv zeta.
    destruct (Store.getConversationPath _ _); [discriminate|].
    intros [= <-].
    match goal with
    | |- symmetric (current_nodes (Store.setQuotedContent None ?wa)) =>
        change (symmetric (current_nodes wa))
    end.
    rewrite (current_nodes_of _ _ _ Hcur'), Hnodes'.
    eapply symmetric_same_links; [|exact Hsym].
    eapply same_links_insert; [exact Hn|]. reflexivity.
  - destruct (handleSend_begin_nodes _ _ _ _ _ _ _ _ _ _ _ _ Htype Hcur Hn
                Hbegin) as (Hid & session1 & n1 & Hcur1 & Hnodes1 & Hl1).
    assert (s_nodes session1 !! conversationNodeId l = Some n1) as Hn1
      by (rewrite Hid, Hnodes1; apply lookup_insert_eq).
    destruct (stream_spec api_ok arrivals l w1 sid session1 n1 Hcur1 Hn1)
      as (l' & w2 & session2 & n2 & Hrun & Hcur2 & Hnodes2 & _ & _
          & _ & _ & Hid' & _ & _ & _ & _ & _ & _ & Hfr).
    rewrite Hrun.
    assert (s_nodes session2 = <[n_id node := n2]> (s_nodes session))
      as Hnodes.
    { rewrite Hnodes2, Hnodes1, Hid, insert_insert_eq. reflexivity. }
    assert (links n2 = links n) as Hl2.
    { destruct Hfr as (H1 & _ & _ & H4 & H5 & _).
      rewrite <- Hl1. unfold links. rewrite H1, H4, H5. reflexivity. }
    eapply (handleSend_end_symmetric api_ok node clock outcome l' w2 sid
              session2 n2 Hcur2).
    + rewrite Hid', Hid, Hnodes. apply lookup_insert_eq.
    + rewrite Hid', Hid. exact Htid.
    + rewrite Hnodes. eapply symmetric_same_links; [|exact Hsym].
      eapply same_links_insert; [exact Hn|exact Hl2].
    + rewrite Hnodes, lookup_insert_ne; [exact Hf1|].
      intros E. rewrite <- E in Hf1. congruence.
    + rewrite Hnodes, lookup_insert_ne; [exact Hf2|].
      intros E. rewrite <- E in Hf2. congruence.
Qed.
(** * The theorems at work on the examples *)

Lemma family_current :
  current (store Scenario.family) = Some (Sample.sid, Sample.session).
Proof. vm_compute. reflexivity. Qed.

Lemma family_nodes : current_nodes Scenario.family = s_nodes Sample.session.
Proof. vm_compute. reflexivity. Qed.

Lemma family_symmetric : symmetric (current_nodes Scenario.family).
Proof.
  unfold Scenario.family, Scenario.fresh.
  eapply addNode_symmetric; try (vm_compute; reflexivity).
  eapply addNode_symmetric; try (vm_compute; reflexivity).
  eapply addNode_symmetric; try (vm_compute; reflexivity).
  apply createSession_symmetric. exact symmetric_empty.
Qed.

Lemma family_coherent : coherent (store Scenario.family).
Proof.
  intros sid session Hcur. rewrite family_current in Hcur.
  injection Hcur as <- <-. vm_compute. reflexivity.
Qed.

Lemma family_acyclic : acyclic Sample.rank (current_nodes Scenario.family).
Proof.
  intros k n c Hk Hc. rewrite family_nodes in Hk.
  assert (k = "root" ∨ k = "X" ∨ k = "Y" ∨ k = "Z") as Hcases.
  { apply elem_of_dom_2 in Hk.
    assert (dom (s_nodes Sample.session) = {["root"; "X"; "Y"; "Z"]}) as Hd
      by (vm_compute; reflexivity).
    rewrite Hd in Hk. rewrite !elem_of_union, !elem_of_singleton in Hk.
    tauto. }
  destruct Hcases as [-> | [-> | [-> | ->]]]; vm_compute in Hk; injection Hk as <-;
    cbn [n_children Scenario.plain] in Hc;
    repeat (apply elem_of_cons in Hc as [->|Hc]; [vm_compute; lia|]);
    inversion Hc.
Qed.

Lemma operations_keep_coherent_witness :
  coherent (store Scenario.family)
  ∧ coherent
      (store (Store.addNode Scenario.always_ok Sample.leaf 1005 Scenario.family)).
Proof.
  split; [exact family_coherent|].
  destruct (operations_keep_coherent Scenario.always_ok Scenario.family
              family_coherent) as (_ & _ & _ & _ & Hadd & _).
  apply Hadd.
Defined.

Lemma addNode_lookup_witness :
  current (store Scenario.family) = Some (Sample.sid, Sample.session)
  ∧ s_nodes Sample.session !! n_id Sample.leaf = None
  ∧ n_parentId Sample.leaf = Some "Z" ∧ JS.truthy "Z" = true
  ∧ s_nodes Sample.session !! "Z" = Some Sample.node_Z
  ∧ current_nodes
      (Store.addNode Scenario.always_ok Sample.leaf 1005 Scenario.family)
    !! "Z"
    = Some (with_children Sample.node_Z
              (n_children Sample.node_Z ++ [n_id Sample.leaf])).
Proof.
  assert (s_nodes Sample.session !! n_id Sample.leaf = None) as H2
    by (vm_compute; reflexivity).
  assert (s_nodes Sample.session !! "Z" = Some Sample.node_Z) as H5
    by (vm_compute; reflexivity).
  destruct (addNode_lookup Scenario.always_ok Sample.leaf 1005 Scenario.family
              Sample.sid Sample.session "Z" Sample.node_Z
              family_current H2 eq_refl eq_refl H5) as (_ & _ & Hp & _).
  repeat (split; [first [exact family_current | exact H2 | exact H5
                        | reflexivity]|]).
  exact Hp.
Defined.

Lemma failed_save_keeps_store_witness :
  Sample.never_ok (List.length (api_log Scenario.family)) = false
  ∧ store (Store.addNode Sample.never_ok Sample.leaf 1005 Scenario.family)
    = store Scenario.family.
Proof.
  split; [reflexivity|].
  destruct (failed_save_keeps_store Sample.never_ok Scenario.family eq_refl)
    as (_ & _ & _ & Hadd & _).
  apply Hadd.
Defined.

Lemma updateNode_lookup_witness :
  current (store Scenario.family) = Some (Sample.sid, Sample.session)
  ∧ s_nodes Sample.session !! "Y" = Some Sample.node_Y
  ∧ current_nodes
      (Store.updateNode Sample.never_ok "Y" Sample.retext true 1005
                        Scenario.family) !! "Y"
    = Some (spread Sample.node_Y Sample.retext).
Proof.
  assert (s_nodes Sample.session !! "Y" = Some Sample.node_Y) as HY
    by (vm_compute; reflexivity).
  split; [exact family_current|]. split; [exact HY|].
  pose proof (updateNode_lookup Sample.never_ok "Y" Sample.retext true 1005
                Scenario.family Sample.sid Sample.session family_current)
    as H.
  cbv zeta in H. rewrite HY in H. exact (proj1 H).
Defined.

Lemma symmetry_kept_witness :
  symmetric (current_nodes Scenario.family)
  ∧ symmetric
      (current_nodes
         (Store.updateNode Sample.never_ok "Y" Sample.retext true 1005
                           Scenario.family)).
Proof.
  split; [exact family_symmetric|].
  destruct (symmetry_kept Sample.never_ok Scenario.family family_symmetric)
    as (_ & _ & Hup & _).
  apply Hup. repeat split.
Defined.

Lemma deleteNode_frame_witness :
  current (store Scenario.family) = Some (Sample.sid, Sample.session)
  ∧ s_nodes Sample.session !! "Z" = Some Sample.node_Z
  ∧ Scenario.always_ok (List.length (api_log Scenario.family)) = true
  ∧ Store.deleteNode Scenario.always_ok 10 "Z" 1004 Scenario.family
    = Some Scenario.without_Z
  ∧ current_nodes Scenario.without_Z !! "Z" = None.
Proof.
  assert (s_nodes Sample.session !! "Z" = Some Sample.node_Z) as H2
    by (vm_compute; reflexivity).
  assert (Store.deleteNode Scenario.always_ok 10 "Z" 1004 Scenario.family
          = Some Scenario.without_Z) as H4 by (vm_compute; reflexivity).
  destruct (deleteNode_frame Scenario.always_ok 10 "Z" 1004 Scenario.family
              Scenario.without_Z Sample.sid Sample.session Sample.node_Z
              family_current H2 eq_refl H4) as [Hgone _].
  repeat (split; [first [exact family_current | exact H2 | exact H4
                        | reflexivity]|]).
  exact Hgone.
Defined.

Lemma deleteNode_orphans_children_witness :
  current (store Scenario.family) = Some (Sample.sid, Sample.session)
  ∧ symmetric (s_nodes Sample.session)
  ∧ s_nodes Sample.session !! "X" = Some Sample.node_X
  ∧ "Y" ∈ n_children Sample.node_X ∧ "Y" ≠ "X"
  ∧ Scenario.always_ok (List.length (api_log Scenario.family)) = true
  ∧ Store.deleteNode Scenario.always_ok 10 "X" 1004 Scenario.family
    = Some Sample.without_X
  ∧ ∃ cn, current_nodes Sample.without_X !! "Y" = Some cn
          ∧ n_parentId cn = Some "X".
Proof.
  assert (symmetric (s_nodes Sample.session)) as H2
    by (rewrite <- family_nodes; exact family_symmetric).
  assert (s_nodes Sample.session !! "X" = Some Sample.node_X) as H3
    by (vm_compute; reflexivity).
  assert ("Y" ∈ n_children Sample.node_X) as H4 by (left).
  assert ("Y" ≠ "X") as H5 by discriminate.
  assert (Store.deleteNode Scenario.always_ok 10 "X" 1004 Scenario.family
          = Some Sample.without_X) as H7 by (vm_compute; reflexivity).
  destruct (deleteNode_orphans_children Scenario.always_ok 10 "X" 1004
              Scenario.family Sample.without_X Sample.sid Sample.session
              Sample.node_X "Y" family_current H2 H3 H4 H5 eq_refl H7)
    as (_ & Horphan & _).
  repeat (split; [first [exact family_current | exact H2 | exact H3
                        | exact H4 | exact H5 | exact H7 | reflexivity]|]).
  exact Horphan.
Defined.

Lemma walks_return_witness :
  acyclic Sample.rank (current_nodes Scenario.family)
  ∧ is_Some (Store.deleteNode Scenario.always_ok 4 "root" 1004 Scenario.family).
Proof.
  split; [exact family_acyclic|].
  destruct (walks_return Scenario.always_ok Sample.rank Scenario.family
              family_acyclic) as (Hdel & _).
  apply Hdel. vm_compute. lia.
Defined.

Lemma chain_session_current :
  currentSession Scenario.chain = Some Sample.chain_session.
Proof. vm_compute. reflexivity. Qed.

Lemma chain_is_lineage :
  lineage (s_nodes Sample.chain_session) (Some "C") Sample.chain_lineage.
Proof.
  unfold Sample.chain_lineage.
  apply lineage_step; [reflexivity|vm_compute; reflexivity|].
  replace (n_parentId (Sample.chain_node "C")) with (Some "B")
    by (vm_compute; reflexivity).
  apply lineage_step; [reflexivity|vm_compute; reflexivity|].
  replace (n_parentId (Sample.chain_node "B")) with (Some "A")
    by (vm_compute; reflexivity).
  apply lineage_step; [reflexivity|vm_compute; reflexivity|].
  replace (n_parentId (Sample.chain_node "A")) with (Some "root")
    by (vm_compute; reflexivity).
  apply lineage_step; [reflexivity|vm_compute; reflexivity|].
  replace (n_parentId (Sample.chain_node "root")) with (@None string)
    by (vm_compute; reflexivity).
  apply lineage_null.
Qed.

Lemma getConversationPath_lineage_witness :
  currentSession Scenario.chain = Some Sample.chain_session
  ∧ selectedNodeId Scenario.chain = Some "C"
  ∧ lineage (s_nodes Sample.chain_session) (Some "C") Sample.chain_lineage
  ∧ (List.length Sample.chain_lineage < 5)%nat
  ∧ ∃ path,
      Store.getConversationPath 5 Scenario.chain = Some path
      ∧ turns path = flat_map said (rev Sample.chain_lineage).
Proof.
  assert (List.length Sample.chain_lineage < 5)%nat as H4 by (simpl; lia).
  destruct (getConversationPath_lineage 5 Scenario.chain Sample.chain_session
              "C" Sample.chain_lineage chain_session_current eq_refl
              chain_is_lineage H4) as (path & Hpath & Hturns & _).
  repeat (split; [first [exact chain_session_current | exact chain_is_lineage
                        | exact H4 | reflexivity]|]).
  exists path. split; [exact Hpath|exact Hturns].
Defined.

Lemma family_arranged :
  Store.rearrangeNodes Scenario.always_ok 10 1005 Scenario.family
  = Some Sample.arranged.
Proof. vm_compute. reflexivity. Qed.

Lemma rearrangeNodes_only_moves_witness :
  current (store Scenario.family) = Some (Sample.sid, Sample.session)
  ∧ Scenario.always_ok (List.length (api_log Scenario.family)) = true
  ∧ Store.rearrangeNodes Scenario.always_ok 10 1005 Scenario.family
    = Some Sample.arranged
  ∧ dom (current_nodes Sample.arranged) = dom (s_nodes Sample.session)
  ∧ ∃ w2, Store.rearrangeNodes Scenario.always_ok 10 1006 Sample.arranged
          = Some w2
          ∧ current_nodes w2 = current_nodes Sample.arranged.
Proof.
  destruct (rearrangeNodes_only_moves Scenario.always_ok 10 1005
              Scenario.family Sample.arranged Sample.sid Sample.session
              family_current eq_refl family_arranged)
    as (Hdom & _ & _ & Hagain).
  split; [exact family_current|]. split; [reflexivity|].
  split; [exact family_arranged|]. split; [exact Hdom|apply Hagain].
Defined.

Lemma bushy_built :
  buildTree 5 Scenario.bushy "root" = Some Scenario.bushy_tree.
Proof. vm_compute. reflexivity. Qed.

Lemma bushy_distinct : NoDup (map ln_id (subtree_nodes Scenario.bushy_tree)).
Proof.
  apply (@bool_decide_unpack _ (NoDup_dec _)). vm_compute. reflexivity.
Qed.

Lemma bushy_keyed : keyed Scenario.bushy.
Proof.
  intros k n Hk.
  assert (k = "root" ∨ k = "A" ∨ k = "B" ∨ k = "C" ∨ k = "D") as Hcases.
  { apply elem_of_dom_2 in Hk.
    assert (dom Scenario.bushy = {["root"; "A"; "B"; "C"; "D"]}) as Hd
      by (vm_compute; reflexivity).
    rewrite Hd in Hk. rewrite !elem_of_union, !elem_of_singleton in Hk.
    tauto. }
  destruct Hcases as [-> | [-> | [-> | [-> | ->]]]]; vm_compute in Hk;
    injection Hk as <-; reflexivity.
Qed.

Lemma subtree_width_of_leaves_witness :
  buildTree 5 Scenario.bushy "root" = Some Scenario.bushy_tree
  ∧ 0 ≤ 100
  ∧ Scenario.bushy_tree ∈ subtree_nodes Scenario.bushy_tree
  ∧ leaves Scenario.bushy_tree = 3
  ∧ calculateSubtreeWidth Scenario.bushy_tree 100
    = 600 * leaves Scenario.bushy_tree
      + (leaves Scenario.bushy_tree - 1) * 100.
Proof.
  assert (0 ≤ 100) as H2 by lia.
  pose proof (subtree_nodes_self Scenario.bushy_tree) as H3.
  destruct (subtree_width_of_leaves 5 Scenario.bushy "root"
              Scenario.bushy_tree 100 Scenario.bushy_tree bushy_built H2 H3)
    as (Hw & _).
  repeat (split; [first [exact bushy_built | exact H2 | exact H3]|]).
  split; [vm_compute; reflexivity|exact Hw].
Defined.

Lemma autoLayout_rows_witness :
  buildTree 5 Scenario.bushy "root" = Some Scenario.bushy_tree
  ∧ NoDup (map ln_id (subtree_nodes Scenario.bushy_tree))
  ∧ ∃ positions,
      autoLayout 5 Scenario.bushy "root" no_options = Some positions
      ∧ positions !! ln_id Scenario.bushy_tree
        = Some {| px := 300; py := 50 |}.
Proof.
  destruct (autoLayout_rows 5 Scenario.bushy "root" no_options
              Scenario.bushy_tree bushy_built bushy_distinct)
    as (positions & Hrun & Hroot & _).
  split; [exact bushy_built|]. split; [exact bushy_distinct|].
  exists positions. split; [exact Hrun|exact Hroot].
Defined.

Lemma autoLayout_no_overlap_witness :
  0 ≤ 100 ∧ Z.even 100 = true ∧ 0 ≤ 80
  ∧ buildTree 5 Scenario.bushy "root" = Some Scenario.bushy_tree
  ∧ NoDup (map ln_id (subtree_nodes Scenario.bushy_tree))
  ∧ ∃ positions,
      autoLayout 5 Scenario.bushy "root" no_options = Some positions
      ∧ ∀ m1 m2,
          m1 ∈ subtree_nodes Scenario.bushy_laid →
          m2 ∈ subtree_nodes Scenario.bushy_laid →
          ln_id m1 ≠ ln_id m2 →
          ∃ pos1 pos2,
            positions !! ln_id m1 = Some pos1
            ∧ positions !! ln_id m2 = Some pos2
            ∧ (px pos1 + 600 + 100 ≤ px pos2 ∨ px pos2 + 600 + 100 ≤ px pos1
               ∨ py pos1 + estimateNodeHeight (ln_node m1) + 80 ≤ py pos2
               ∨ py pos2 + estimateNodeHeight (ln_node m2) + 80 ≤ py pos1).
Proof.
  assert (0 ≤ 100) as H1 by lia.
  assert (0 ≤ 80) as H3 by lia.
  repeat (split; [first [exact H1 | exact H3 | exact bushy_built
                        | exact bushy_distinct | reflexivity]|]).
  exact (autoLayout_no_overlap 5 Scenario.bushy "root" no_options
           Scenario.bushy_tree H1 eq_refl H3 bushy_built bushy_distinct).
Defined.

Lemma buildTree_shape_witness :
  keyed Scenario.bushy
  ∧ buildTree 5 Scenario.bushy "root" = Some Scenario.bushy_tree
  ∧ ln_id Scenario.bushy_tree = "root"
  ∧ ∃ positions,
      autoLayout 5 Scenario.bushy "root" no_options = Some positions
      ∧ ∀ k, is_Some (positions !! k)
             ↔ k ∈ map ln_id (subtree_nodes Scenario.bushy_tree).
Proof.
  destruct (buildTree_shape 5 Scenario.bushy "root" no_options
              Scenario.bushy_tree bushy_keyed bushy_built)
    as (Hroot & _ & Hpos).
  split; [exact bushy_keyed|]. split; [exact bushy_built|].
  split; [exact Hroot|exact Hpos].
Defined.

Lemma sent_current :
  current (store (snd Scenario.sent)) = Some (Sample.sid, Sample.sent_session).
Proof. vm_compute. reflexivity. Qed.

Lemma sent_root_node :
  s_nodes Sample.sent_session !! conversationNodeId (fst Scenario.sent)
  = Some Sample.sent_root.
Proof. vm_compute. reflexivity. Qed.

Lemma sent_root_truthy :
  JS.truthy (conversationNodeId (fst Scenario.sent)) = true.
Proof. vm_compute. reflexivity. Qed.

Lemma fresh_current :
  current (store Scenario.fresh)
  = Some (s_id Sample.fresh_session, Sample.fresh_session).
Proof. vm_compute. reflexivity. Qed.

Lemma fresh_root :
  s_nodes Sample.fresh_session !! "root" = Some Scenario.root_node.
Proof. vm_compute. reflexivity. Qed.

Lemma fresh_symmetric : symmetric (s_nodes Sample.fresh_session).
Proof.
  assert (current_nodes Scenario.fresh = s_nodes Sample.fresh_session) as <-
    by (vm_compute; reflexivity).
  apply createSession_symmetric. exact symmetric_empty.
Qed.

Lemma complete_adds_one_child_witness :
  current (store (snd Scenario.sent)) = Some (Sample.sid, Sample.sent_session)
  ∧ s_nodes Sample.sent_session !! conversationNodeId (fst Scenario.sent)
    = Some Sample.sent_root
  ∧ JS.truthy (conversationNodeId (fst Scenario.sent)) = true
  ∧ s_nodes Sample.sent_session
    !! JS.with_number "input-" (at_input_again Scenario.clock) = None
  ∧ Scenario.always_ok (S (S (List.length (api_log (snd Scenario.sent)))))
    = true
  ∧ selectedNodeId
      (store
         (handleSend_end Scenario.always_ok Scenario.root_node Scenario.clock
            (resolved Sample.hello)
            (stream Scenario.always_ok Scenario.hel_lo
                    (fst Scenario.sent, snd Scenario.sent))))
    = Some (JS.with_number "input-" (at_input_again Scenario.clock)).
Proof.
  assert (s_nodes Sample.sent_session
          !! JS.with_number "input-" (at_input_again Scenario.clock) = None)
    as H4 by (vm_compute; reflexivity).
  destruct (complete_adds_one_child Scenario.always_ok Scenario.root_node
              Scenario.clock Scenario.hel_lo Sample.hello (fst Scenario.sent)
              (snd Scenario.sent) Sample.sid Sample.sent_session
              Sample.sent_root sent_current sent_root_node sent_root_truthy
              H4 eq_refl) as (_ & _ & _ & _ & Hsel).
  split; [exact sent_current|]. split; [exact sent_root_node|].
  split; [exact sent_root_truthy|]. split; [exact H4|].
  split; [reflexivity|exact Hsel].
Defined.

Lemma wide_space_blank : blank "　".
Proof.
  exists ["　"]. split; [|reflexivity].
  constructor; [|constructor].
  apply list_elem_of_In. vm_compute. tauto.
Qed.

Lemma handleSend_guards_witness :
  blank "　"
  ∧ handleSend Scenario.always_ok Scenario.root_node "　" None 5
               Scenario.clock Scenario.hel_lo (resolved Sample.hello)
               Scenario.fresh
    = Scenario.fresh.
Proof.
  split; [exact wide_space_blank|].
  exact (proj1 (handleSend_guards Scenario.always_ok Scenario.root_node "　"
                  None 5 Scenario.clock Scenario.hel_lo
                  (resolved Sample.hello) Scenario.fresh)
               (or_introl wide_space_blank)).
Defined.

Lemma long_begun :
  handleSend_begin Scenario.always_ok Scenario.root_node Sample.typed
                   (Some Scenario.model) 5 2000 Scenario.fresh
  = inr (fst Sample.long_sent, snd Sample.long_sent).
Proof. vm_compute. reflexivity. Qed.

Lemma typed_trimmed : JS.trim Sample.typed = Sample.long_message.
Proof. vm_compute. reflexivity. Qed.

Lemma long_message_title :
  JS.length Sample.long_message = 32
  ∧ title_of Sample.long_message = Sample.long_title
  ∧ JS.length Sample.long_title = 33.
Proof. repeat split; vm_compute; reflexivity. Qed.


Lemma first_message_names_session_witness :
  n_type Scenario.root_node = input ∧ n_id Scenario.root_node = "root"
  ∧ s_title Sample.fresh_session = "新对话"
  ∧ current (store Scenario.fresh)
    = Some (s_id Sample.fresh_session, Sample.fresh_session)
  ∧ s_nodes Sample.fresh_session !! "root" = Some Scenario.root_node
  ∧ Scenario.always_ok (S (List.length (api_log Scenario.fresh))) = true
  ∧ handleSend_begin Scenario.always_ok Scenario.root_node Sample.typed
                     (Some Scenario.model) 5 2000 Scenario.fresh
    = inr (fst Sample.long_sent, snd Sample.long_sent)
  ∧ ∃ session1,
      current (store (snd Sample.long_sent))
      = Some (s_id Sample.fresh_session, session1)
      ∧ s_title session1 = Sample.long_title.
Proof.
  assert (s_title Sample.fresh_session = "新对话") as H3
    by (vm_compute; reflexivity).
  destruct (first_message_names_session Scenario.always_ok Scenario.root_node
              Sample.typed (Some Scenario.model) 5 2000 Scenario.fresh
              Sample.fresh_session Scenario.root_node (fst Sample.long_sent)
              (snd Sample.long_sent) eq_refl eq_refl H3 fresh_current
              fresh_root eq_refl long_begun)
    as (_ & session1 & n1 & Hcur & _ & Htitle & _).
  split; [reflexivity|]. split; [reflexivity|]. split; [exact H3|].
  split; [exact fresh_current|]. split; [exact fresh_root|].
  split; [reflexivity|]. split; [exact long_begun|].
  exists session1. split; [exact Hcur|].
  exact (eq_trans Htitle
           (eq_trans (f_equal title_of typed_trimmed)
                     (proj1 (proj2 long_message_title)))).
Defined.

Lemma cancel_before_content_witness :
  current (store (snd Scenario.sent)) = Some (Sample.sid, Sample.sent_session)
  ∧ s_nodes Sample.sent_session !! conversationNodeId (fst Scenario.sent)
    = Some Sample.sent_root
  ∧ streamedContent (fst Scenario.sent) = ""
  ∧ existsb is_content [(2100, thinking "hmm")] = false
  ∧ api_log
      (handleSend_end Scenario.always_ok Scenario.root_node Scenario.clock
         (rejected (an_Error "AbortError" "aborted"))
         (stream Scenario.always_ok [(2100, thinking "hmm")]
                 (fst Scenario.sent, snd Scenario.sent)))
    = api_log (snd Scenario.sent).
Proof.
  assert (streamedContent (fst Scenario.sent) = "") as H3
    by (vm_compute; reflexivity).
  destruct (cancel_before_content Scenario.always_ok Scenario.root_node
              Scenario.clock [(2100, thinking "hmm")] "aborted"
              (fst Scenario.sent) (snd Scenario.sent) Sample.sid
              Sample.sent_session Sample.sent_root sent_current sent_root_node
              H3 eq_refl) as (Hlog & _).
  split; [exact sent_current|]. split; [exact sent_root_node|].
  split; [exact H3|]. split; [reflexivity|exact Hlog].
Defined.

Lemma completion_keeps_streamed_text_witness :
  current (store (snd Scenario.sent)) = Some (Sample.sid, Sample.sent_session)
  ∧ s_nodes Sample.sent_session !! conversationNodeId (fst Scenario.sent)
    = Some Sample.sent_root
  ∧ JS.truthy (conversationNodeId (fst Scenario.sent)) = true
  ∧ streamedContent (fst Scenario.sent) = ""
  ∧ streamedThinking (fst Scenario.sent) = ""
  ∧ map snd Scenario.hel_lo
    = AIService.delivered
        (AIService.deepseek_stream Sample.parse_delta Sample.pieces)
  ∧ r_content
      (AIService.response_of
         (AIService.deepseek_stream Sample.parse_delta Sample.pieces))
    = "Hello"
  ∧ ∃ saved after,
      head (saves_between (snd Scenario.sent)
              (handleSend_end Scenario.always_ok Scenario.root_node
                 Scenario.clock
                 (resolved
                    (AIService.response_of
                       (AIService.deepseek_stream Sample.parse_delta
                                                  Sample.pieces)))
                 (stream Scenario.always_ok Scenario.hel_lo
                         (fst Scenario.sent, snd Scenario.sent))))
      = Some (api_updateSession saved)
      ∧ s_nodes saved !! conversationNodeId (fst Scenario.sent) = Some after
      ∧ n_assistantMessage after = Some (received_content Scenario.hel_lo).
Proof.
  assert (streamedContent (fst Scenario.sent) = "") as H4
    by (vm_compute; reflexivity).
  assert (streamedThinking (fst Scenario.sent) = "") as H5
    by (vm_compute; reflexivity).
  assert (map snd Scenario.hel_lo
          = AIService.delivered
              (AIService.deepseek_stream Sample.parse_delta Sample.pieces))
    as H6 by (vm_compute; reflexivity).
  destruct (completion_keeps_streamed_text Scenario.always_ok
              Scenario.root_node Scenario.clock Sample.parse_delta
              Sample.pieces Scenario.hel_lo (fst Scenario.sent)
              (snd Scenario.sent) Sample.sid Sample.sent_session
              Sample.sent_root sent_current sent_root_node sent_root_truthy
              H4 H5 H6)
    as (saved & before & after & Hhead & _ & Hafter & Htext & _).
  split; [exact sent_current|]. split; [exact sent_root_node|].
  split; [exact sent_root_truthy|]. split; [exact H4|]. split; [exact H5|].
  split; [exact H6|]. split; [vm_compute; reflexivity|].
  exists saved, after. split; [exact Hhead|]. split; [exact Hafter|exact Htext].
Defined.

Lemma handleSend_keeps_symmetry_witness :
  n_type Scenario.root_node = input
  ∧ current (store Scenario.fresh)
    = Some (s_id Sample.fresh_session, Sample.fresh_session)
  ∧ s_nodes Sample.fresh_session !! n_id Scenario.root_node
    = Some Scenario.root_node
  ∧ JS.truthy (n_id Scenario.root_node) = true
  ∧ symmetric (s_nodes Sample.fresh_session)
  ∧ s_nodes Sample.fresh_session
    !! JS.with_number "input-" (at_input Scenario.clock) = None
  ∧ s_nodes Sample.fresh_session
    !! JS.with_number "input-" (at_input_again Scenario.clock) = None
  ∧ symmetric
      (current_nodes
         (handleSend Scenario.always_ok Scenario.root_node "Hi"
                     (Some Scenario.model) 5 Scenario.clock Scenario.hel_lo
                     (resolved Sample.hello) Scenario.fresh)).
Proof.
  assert (s_nodes Sample.fresh_session
          !! JS.with_number "input-" (at_input Scenario.clock) = None) as H6
    by (vm_compute; reflexivity).
  assert (s_nodes Sample.fresh_session
          !! JS.with_number "input-" (at_input_again Scenario.clock) = None)
    as H7 by (vm_compute; reflexivity).
  split; [reflexivity|]. split; [exact fresh_current|].
  split; [exact fresh_root|]. split; [reflexivity|].
  split; [exact fresh_symmetric|]. split; [exact H6|]. split; [exact H7|].
  exact (handleSend_keeps_symmetry Scenario.always_ok Scenario.root_node "Hi"
           (Some Scenario.model) 5 Scenario.clock Scenario.hel_lo
           (resolved Sample.hello) Scenario.fresh (s_id Sample.fresh_session)
           Sample.fresh_session Scenario.root_node eq_refl fresh_current
           fresh_root eq_refl fresh_symmetric H6 H7).
Defined.

Lemma family_points_back : children_point_back (s_nodes Sample.session).
Proof. rewrite <- family_nodes. apply family_symmetric. Qed.

Lemma family_Z : s_nodes Sample.session !! n_id Sample.node_Z
                 = Some Sample.node_Z.
Proof. vm_compute. reflexivity. Qed.

Lemma branch_opened_then_closed_witness :
  current (store Scenario.family) = Some (Sample.sid, Sample.session)
  ∧ children_point_back (s_nodes Sample.session)
  ∧ s_nodes Sample.session !! n_id Sample.node_Z = Some Sample.node_Z
  ∧ JS.truthy (n_id Sample.node_Z) = true
  ∧ s_nodes Sample.session !! JS.with_number "input-" 1005 = None
  ∧ Scenario.always_ok (List.length (api_log Scenario.family)) = true
  ∧ Scenario.always_ok (S (List.length (api_log Scenario.family))) = true
  ∧ ∃ child,
      current_nodes
        (createBranchNode Scenario.always_ok Sample.node_Z 1005
                          Scenario.family)
      !! JS.with_number "input-" 1005 = Some child
      ∧ ∃ w2,
          handleCloseInputNode Scenario.always_ok child 10 1006
            (createBranchNode Scenario.always_ok Sample.node_Z 1005
                              Scenario.family) = Some w2
          ∧ current_nodes w2 = s_nodes Sample.session.
Proof.
  assert (s_nodes Sample.session !! JS.with_number "input-" 1005 = None)
    as H5 by (vm_compute; reflexivity).
  destruct (branch_opened_then_closed Scenario.always_ok Sample.node_Z 1005
              1006 10 Scenario.family Sample.sid Sample.session Sample.node_Z
              family_current family_points_back family_Z eq_refl H5 eq_refl
              eq_refl)
    as (child & Hchild & _ & _ & _ & _ & _ & _ & w2 & Hclose & Hnodes & _).
  split; [exact family_current|]. split; [exact family_points_back|].
  split; [exact family_Z|]. split; [reflexivity|]. split; [exact H5|].
  split; [reflexivity|]. split; [reflexivity|].
  exists child. split; [exact Hchild|]. exists w2.
  split; [exact Hclose|exact Hnodes].
Defined.

Lemma family_row : is_Some (Sample.table !! Sample.sid).
Proof. eexists. vm_compute. reflexivity. Qed.

Lemma family_session_id : s_id Sample.session = Sample.sid.
Proof. vm_compute. reflexivity. Qed.

Lemma save_synchronises_witness :
  current (store Scenario.family) = Some (Sample.sid, Sample.session)
  ∧ s_id Sample.session = Sample.sid
  ∧ is_Some (Sample.table !! Sample.sid)
  ∧ Scenario.always_ok (List.length (api_log Scenario.family)) = true
  ∧ synced
      (store (Store.addNode Scenario.always_ok Sample.leaf 1005
                            Scenario.family))
      (replay
         (saves_between Scenario.family
            (Store.addNode Scenario.always_ok Sample.leaf 1005
                           Scenario.family))
         Sample.table).
Proof.
  destruct (save_synchronises Scenario.always_ok Scenario.family Sample.table
              Sample.sid Sample.session family_current family_session_id
              family_row eq_refl) as (Hadd & _).
  split; [exact family_current|]. split; [exact family_session_id|].
  split; [exact family_row|]. split; [reflexivity|].
  exact (Hadd Sample.leaf 1005).
Defined.

Lemma family_listed :
  sessions (store Scenario.family) !! Sample.sid = Some Sample.session.
Proof. vm_compute. reflexivity. Qed.

Lemma session_model_not_saved_witness :
  sessions (store Scenario.family) !! Sample.sid = Some Sample.session
  ∧ s_id Sample.session = Sample.sid
  ∧ is_Some (Sample.table !! Sample.sid)
  ∧ Scenario.always_ok (List.length (api_log Scenario.family)) = true
  ∧ ∃ kept found,
      sessions
        (store (Store.updateSessionDefaultModel Scenario.always_ok Sample.sid
                  "m1" 1005 Scenario.family)) !! Sample.sid = Some kept
      ∧ Database.getSession Sample.sid
          (replay
             (saves_between Scenario.family
                (Store.updateSessionDefaultModel Scenario.always_ok Sample.sid
                   "m1" 1005 Scenario.family))
             Sample.table) = Some found
      ∧ s_defaultModelId kept = Some "m1"
      ∧ s_defaultModelId found = None.
Proof.
  destruct (session_model_not_saved Scenario.always_ok Sample.sid "m1" 1005
              Scenario.family Sample.session Sample.table family_listed
              family_session_id family_row eq_refl)
    as (kept & found & Hkept & Hfound & Hk & Hf & _).
  split; [exact family_listed|]. split; [exact family_session_id|].
  split; [exact family_row|]. split; [reflexivity|].
  exists kept, found. split; [exact Hkept|]. split; [exact Hfound|].
  split; [exact Hk|exact Hf].
Defined.
